(** * InkTranslator backend: a shallow embedding of the OCR merge utility,
    the pipeline orchestrator, the translation fallback engine and the
    font/layout engine (services/ under backend/src), with their properties. *)

From Stdlib Require Import String Ascii ZArith Bool Lia List.
From Stdlib Require Import Sorting.Sorted Sorting.Permutation DecimalNat.
Import ListNotations.

Open Scope Z_scope.
Open Scope list_scope.

(* ================================================================== *)
(** ** Python values *)

(** Python exceptions that the modelled code raises or catches. *)
Inductive exc : Type :=
| TypeError
| AttributeError
| ValueError
| IndexError
| RateLimitException
| TranslationException
| ProcessingError.

(** A Python call either returns a value or raises. *)
Inductive result (A : Type) : Type :=
| Ok (a : A)
| Err (e : exc).
Arguments Ok {A} a.
Arguments Err {A} e.

Definition bind {A B : Type} (m : result A) (k : A -> result B) : result B :=
  match m with
  | Ok a => k a
  | Err e => Err e
  end.

Notation "'let*' x ':=' m 'in' k" := (bind m (fun x => k))
  (at level 200, x name, m at level 100, right associativity).

(** [[f(x) for x in xs]] where [f] may raise: the first exception escapes. *)
Fixpoint mapM {A B : Type} (f : A -> result B) (xs : list A) : result (list B) :=
  match xs with
  | [] => Ok []
  | x :: r => let* y := f x in let* ys := mapM f r in Ok (y :: ys)
  end.

(** A Python [str] is a sequence of Unicode code points. *)
Definition pystr := list Z.

(** ASCII literal to [pystr]. *)
Definition py (s : string) : pystr :=
  map (fun a => Z.of_nat (nat_of_ascii a)) (list_ascii_of_string s).

(** [str.isspace] on one code point (Python's whitespace table). *)
Definition py_isspace (c : Z) : bool :=
  ((9 <=? c) && (c <=? 13)) || ((28 <=? c) && (c <=? 32)) || (c =? 133)
  || (c =? 160) || (c =? 5760) || ((8192 <=? c) && (c <=? 8202))
  || (c =? 8232) || (c =? 8233) || (c =? 8239) || (c =? 8287)
  || (c =? 12288).

Fixpoint lstrip_by (p : Z -> bool) (s : pystr) : pystr :=
  match s with
  | c :: r => if p c then lstrip_by p r else s
  | [] => []
  end.

Definition strip_by (p : Z -> bool) (s : pystr) : pystr :=
  rev (lstrip_by p (rev (lstrip_by p s))).

(** [s.strip()] *)
Definition py_strip (s : pystr) : pystr := strip_by py_isspace s.

(** [sep.join(parts)] *)
Fixpoint py_join (sep : pystr) (parts : list pystr) : pystr :=
  match parts with
  | [] => []
  | [p] => p
  | p :: r => p ++ sep ++ py_join sep r
  end.

(** [s.split()]: maximal runs of non-whitespace. *)
Fixpoint split_ws_aux (cur : pystr) (s : pystr) : list pystr :=
  match s with
  | [] => match cur with [] => [] | _ => [rev cur] end
  | c :: r =>
      if py_isspace c then
        match cur with
        | [] => split_ws_aux [] r
        | _ => rev cur :: split_ws_aux [] r
        end
      else split_ws_aux (c :: cur) r
  end.
Definition py_split (s : pystr) : list pystr := split_ws_aux [] s.

Definition is_empty {A : Type} (l : list A) : bool :=
  match l with [] => true | _ => false end.

(** [enumerate(xs, start)] *)
Fixpoint enumerate_from {A : Type} (i : nat) (xs : list A) : list (nat * A) :=
  match xs with
  | [] => []
  | x :: r => (i, x) :: enumerate_from (S i) r
  end.
Definition enumerate {A : Type} (xs : list A) := enumerate_from 0 xs.

(** [xs[i]] for [0 <= i]: [IndexError] out of range. *)
Definition py_getitem {A : Type} (xs : list A) (i : nat) : result A :=
  match nth_error xs i with
  | Some x => Ok x
  | None => Err IndexError
  end.

(** [xs[i] = v] for [0 <= i]: [IndexError] out of range. *)
Fixpoint py_setitem {A : Type} (xs : list A) (i : nat) (v : A) : result (list A) :=
  match xs, i with
  | [], _ => Err IndexError
  | _ :: r, O => Ok (v :: r)
  | x :: r, S i' => let* r' := py_setitem r i' v in Ok (x :: r')
  end.

(** A [for] loop over [l] whose body may raise. *)
Definition foldM {A B : Type} (f : A -> B -> result A) (l : list B) (a : A) : result A :=
  fold_left (fun acc b => let* x := acc in f x b) l (Ok a).

(* ================================================================== *)
(** ** Data model (models/schemas.py) *)

Record BoundingBox : Type := mkBBox {
  x1 : Z; y1 : Z; x2 : Z; y2 : Z }.

Definition width (b : BoundingBox) : Z := x2 b - x1 b.
Definition height (b : BoundingBox) : Z := y2 b - y1 b.

(** [TextBox] declares exactly [text], [bbox] and [translated_text]; the
    [confidence] and [language] fields are commented out in schemas.py. *)
Record TextBox : Type := mkTextBox {
  text : pystr;
  bbox : BoundingBox;
  translated_text : pystr }.

Definition set_translated_text (tb : TextBox) (t : pystr) : TextBox :=
  mkTextBox (text tb) (bbox tb) t.

Definition set_bbox (tb : TextBox) (b : BoundingBox) : TextBox :=
  mkTextBox (text tb) b (translated_text tb).

(** [text_box.confidence]: not a field of the pydantic model, so the
    attribute lookup raises [AttributeError]. *)
Definition textbox_confidence (_ : TextBox) : result Z := Err AttributeError.

(** [hasattr(text_box, 'language')] / [text_box.language]: not a field of
    the pydantic model either, so [hasattr] is [False] for every box. *)
Definition textbox_language (_ : TextBox) : option string := None.

(* ================================================================== *)
(** ** Text-box merge utility (services/ocr/base.py) *)

Module Merge.

(** [_boxes_nearby]: centres by floor division, then
    [sqrt(dx**2 + dy**2) <= threshold].  For integer coordinates below
    2^26 the float square root compares with the integer threshold exactly
    as [dx^2 + dy^2 <= threshold^2] (and never holds for a negative
    threshold). *)
Definition boxes_nearby (b1 b2 : BoundingBox) (threshold : Z) : bool :=
  let c1x := (x1 b1 + x2 b1) / 2 in
  let c1y := (y1 b1 + y2 b1) / 2 in
  let c2x := (x1 b2 + x2 b2) / 2 in
  let c2y := (y1 b2 + y2 b2) / 2 in
  (0 <=? threshold) &&
  ((c1x - c2x) ^ 2 + (c1y - c2y) ^ 2 <=? threshold * threshold).

(** [_merge_text_boxes]. The keyword arguments of the [TextBox(...)] call
    are evaluated in order; [confidence=sum(b.confidence for b in boxes)]
    reads a missing attribute. *)
Definition merge_text_boxes (boxes : list TextBox) : result TextBox :=
  match boxes with
  | [] => Err ValueError
  | [b] => Ok b
  | b0 :: _ =>
      let min_x1 := fold_left Z.min (map (fun b => x1 (bbox b)) boxes) (x1 (bbox b0)) in
      let min_y1 := fold_left Z.min (map (fun b => y1 (bbox b)) boxes) (y1 (bbox b0)) in
      let max_x2 := fold_left Z.max (map (fun b => x2 (bbox b)) boxes) (x2 (bbox b0)) in
      let max_y2 := fold_left Z.max (map (fun b => y2 (bbox b)) boxes) (y2 (bbox b0)) in
      let txt := py_join (py " ") (map text boxes) in
      let bb := mkBBox min_x1 min_y1 max_x2 max_y2 in
      let* confs := mapM textbox_confidence boxes in
      Ok (mkTextBox txt bb [])
  end.

(** The inner loop [for j, box2 in enumerate(boxes[i+1:], i+1)]: returns the
    grown [group] and the grown [used] set. *)
Fixpoint inner_loop (threshold : Z) (box1 : TextBox) (rest : list (nat * TextBox))
    (used : list nat) (group : list TextBox) : list TextBox * list nat :=
  match rest with
  | [] => (group, used)
  | (j, box2) :: rest' =>
      if existsb (Nat.eqb j) used then inner_loop threshold box1 rest' used group
      else if boxes_nearby (bbox box1) (bbox box2) threshold
      then inner_loop threshold box1 rest' (j :: used) (group ++ [box2])
      else inner_loop threshold box1 rest' used group
  end.

(** The outer loop [for i, box1 in enumerate(boxes)], giving the list of
    groups in the order they are appended to [merged].  Forming the groups
    does not depend on the merges, so the merges are applied afterwards. *)
Fixpoint outer_loop (threshold : Z) (ps : list (nat * TextBox)) (used : list nat)
    : list (list TextBox) :=
  match ps with
  | [] => []
  | (i, box1) :: rest =>
      if existsb (Nat.eqb i) used then outer_loop threshold rest used
      else
        let '(group, used') := inner_loop threshold box1 rest (i :: used) [box1] in
        group :: outer_loop threshold rest used'
  end.

Definition merge_groups (boxes : list TextBox) (threshold : Z) : list (list TextBox) :=
  outer_loop threshold (enumerate boxes) [].

(** [merged.append(self._merge_text_boxes(group)) if len(group) > 1
    else merged.append(box1)] *)
Definition merge_group (group : list TextBox) : result TextBox :=
  match group with
  | box1 :: _ :: _ => merge_text_boxes group
  | [box1] => Ok box1
  | [] => Err IndexError
  end.

(** [_merge_nearby_boxes]. *)
Definition merge_nearby_boxes (boxes : list TextBox) (threshold : Z)
    : result (list TextBox) :=
  match boxes with
  | [] => Ok boxes
  | _ =>
      mapM merge_group (merge_groups boxes threshold)
  end.

(** A recursive reading of the loop: the first box takes every later box
    near it, and the rest is grouped the same way. *)
Fixpoint seed_groups (fuel : nat) (threshold : Z) (boxes : list TextBox)
    : list (list TextBox) :=
  match fuel with
  | O => []
  | S f =>
      match boxes with
      | [] => []
      | b :: rest =>
          (b :: filter (fun b' => boxes_nearby (bbox b) (bbox b') threshold) rest)
          :: seed_groups f threshold
               (filter (fun b' => negb (boxes_nearby (bbox b) (bbox b') threshold)) rest)
      end
  end.

End Merge.

(* ================================================================== *)
(** ** Pipeline orchestrator (services/orchestrator.py) *)

(** The request languages (models/schemas.py [Language]). *)
Inductive Language : Type :=
| JAPANESE | SIM_CHINESE | TRAD_CHINESE | KOREAN | ENGLISH | VIETNAMESE.

Definition lang_value (l : Language) : string :=
  match l with
  | JAPANESE => "japanese"%string | SIM_CHINESE => "sim_chinese"%string
  | TRAD_CHINESE => "trad_chinese"%string | KOREAN => "korean"%string
  | ENGLISH => "english"%string | VIETNAMESE => "vietnamese"%string
  end.

Record TranslationRequest : Type := mkRequest {
  source_language : Language;
  target_language : Language }.

Inductive ProcessingStage : Type :=
| INITIALIZED | OCR | TRANSLATION | INPAINTING | RENDERING | COMPLETED | ERROR.

Definition str_in (s : string) (l : list string) : bool :=
  existsb (fun x => if string_dec s x then true else false) l.

Module Orchestrator.

(** A box is referred to by its position in the caller's [text_boxes] list:
    [sorted] returns the same box objects, so the assignments made through
    the sorted list land in the caller's list. *)
Definition ref := nat.

(** Python tuple comparison [<] on [(y, x)]. *)
Definition key_lt (a b : Z * Z) : bool :=
  (fst a <? fst b) || ((fst a =? fst b) && (snd a <? snd b)).

(** [get_sort_key] inside [_sort_text_boxes_reading_order]. *)
Definition get_sort_key (text_box : TextBox) : Z * Z :=
  let y_pos := y1 (bbox text_box) in
  let x_pos := x1 (bbox text_box) in
  match textbox_language text_box with
  | Some l =>
      if str_in l ["japanese"%string; "trad_chinese"%string; "sim_chinese"%string]
      then (y_pos, - x_pos) else (y_pos, x_pos)
  | None => (y_pos, x_pos)
  end.

(** Python's [sorted(..., key=...)] is stable: insertion after every
    element whose key is not greater. *)
Fixpoint insert_by_key (key : TextBox -> Z * Z) (p : ref * TextBox)
    (l : list (ref * TextBox)) : list (ref * TextBox) :=
  match l with
  | [] => [p]
  | q :: r => if key_lt (key (snd p)) (key (snd q)) then p :: q :: r
              else q :: insert_by_key key p r
  end.

Definition sorted_by (key : TextBox -> Z * Z) (ps : list (ref * TextBox))
    : list (ref * TextBox) :=
  fold_left (fun acc p => insert_by_key key p acc) ps [].

(** [_sort_text_boxes_reading_order]: the sorted box objects, each with
    its position in the caller's list. *)
Definition sort_text_boxes_reading_order (text_boxes : list TextBox)
    : list (ref * TextBox) :=
  sorted_by get_sort_key (enumerate text_boxes).

(** [str(i)] for a non-negative int. *)
Fixpoint uint_codes (u : Decimal.uint) : pystr :=
  match u with
  | Decimal.Nil => []
  | Decimal.D0 u => 48 :: uint_codes u | Decimal.D1 u => 49 :: uint_codes u
  | Decimal.D2 u => 50 :: uint_codes u | Decimal.D3 u => 51 :: uint_codes u
  | Decimal.D4 u => 52 :: uint_codes u | Decimal.D5 u => 53 :: uint_codes u
  | Decimal.D6 u => 54 :: uint_codes u | Decimal.D7 u => 55 :: uint_codes u
  | Decimal.D8 u => 56 :: uint_codes u | Decimal.D9 u => 57 :: uint_codes u
  end.
Definition py_str_nat (n : nat) : pystr := uint_codes (Nat.to_uint n).

(** [int(s)] for a string of ASCII digits. *)
Definition py_int (ds : pystr) : Z := fold_left (fun acc c => acc * 10 + (c - 48)) ds 0.

Definition marker_open (i : nat) : pystr := [91] ++ py_str_nat i ++ [93].
Definition marker_close (i : nat) : pystr := [91; 47] ++ py_str_nat i ++ [93].

(** [f"[{i}]{text}[/{i}]"] *)
Definition marker (i : nat) (t : pystr) : pystr := marker_open i ++ t ++ marker_close i.

(** [_combine_text_for_context] *)
Definition combine_text_for_context (text_boxes : list TextBox) : pystr :=
  let sorted_boxes := map snd (sort_text_boxes_reading_order text_boxes) in
  py_join (py " ")
    (flat_map (fun '(i, text_box) =>
                 if is_empty (py_strip (text text_box)) then []
                 else [marker i (text text_box)])
              (enumerate sorted_boxes)).

(** *** [re.findall(r'\[(\d+)\](.*?)\[/\1\]', s, re.DOTALL)] *)

(** [\d] on the ASCII digits (the only digits the markers contain). *)
Definition is_digit (c : Z) : bool := (48 <=? c) && (c <=? 57).

(** [\d+] is greedy, and the next token [\]] is not a digit, so the group
    is the maximal run of digits. *)
Fixpoint span_digits (s : pystr) : pystr * pystr :=
  match s with
  | c :: r => if is_digit c then let '(d, r') := span_digits r in (c :: d, r') else ([], s)
  | [] => ([], [])
  end.

Fixpoint starts_with (pre s : pystr) : bool :=
  match pre, s with
  | [], _ => true
  | a :: pre', b :: s' => (a =? b) && starts_with pre' s'
  | _ :: _, [] => false
  end.

(** The lazy [(.*?)] (any character under DOTALL) followed by [\[/\1\]]:
    the shortest body after which the closing marker follows. *)
Fixpoint lazy_until (close s : pystr) : option (pystr * pystr) :=
  if starts_with close s then Some ([], skipn (length close) s)
  else match s with
       | [] => None
       | c :: r => match lazy_until close r with
                   | Some (body, rest) => Some (c :: body, rest)
                   | None => None
                   end
       end.

(** One match attempt at the start of [s]: (group 1, group 2, remainder). *)
Definition match_marker (s : pystr) : option (pystr * pystr * pystr) :=
  match s with
  | c :: r =>
      if c =? 91 then
        let '(d, r') := span_digits r in
        match d, r' with
        | _ :: _, c' :: r'' =>
            if c' =? 93 then
              match lazy_until ([91; 47] ++ d ++ [93]) r'' with
              | Some (body, rest) => Some (d, body, rest)
              | None => None
              end
            else None
        | _, _ => None
        end
      else None
  | [] => None
  end.

(** Scanning left to right: after a match the search resumes at its end,
    after a failed attempt at the next character.  [fuel] is at least the
    length of the subject. *)
Fixpoint findall_aux (fuel : nat) (s : pystr) : list (pystr * pystr) :=
  match fuel with
  | O => []
  | S f =>
      match s with
      | [] => []
      | _ :: r =>
          match match_marker s with
          | Some (d, body, rest) => (d, body) :: findall_aux f rest
          | None => findall_aux f r
          end
      end
  end.
Definition findall (s : pystr) : list (pystr * pystr) := findall_aux (length s) s.

(** [{int(idx): text.strip() for idx, text in matches}]: later keys win. *)
Definition translations_dict (matches : list (pystr * pystr)) : Z -> option pystr :=
  fold_left (fun m '(idx, t) => fun k => if k =? py_int idx then Some (py_strip t) else m k)
            matches (fun _ => None).

(** In-place update of the box object at position [r]. *)
Fixpoint modify_at (st : list TextBox) (r : ref) (f : TextBox -> TextBox) : list TextBox :=
  match st, r with
  | [], _ => []
  | tb :: st', O => f tb :: st'
  | tb :: st', S r' => tb :: modify_at st' r' f
  end.

(** [s.split(sep)] for a one-character separator. *)
Fixpoint split_on_aux (sep : Z) (cur : pystr) (s : pystr) : list pystr :=
  match s with
  | [] => [rev cur]
  | c :: r => if c =? sep then rev cur :: split_on_aux sep [] r else split_on_aux sep (c :: cur) r
  end.
Definition py_split_on (sep : Z) (s : pystr) : list pystr := split_on_aux sep [] s.

(** [_simple_text_distribution]; [translated_text.split('.')] raises
    [AttributeError] when the translation is [None]. *)
Definition simple_text_distribution (text_boxes : list TextBox) (translated : option pystr)
    : result (list TextBox) :=
  match translated with
  | None => Err AttributeError
  | Some ttext =>
      let sentences := map (fun s => py_strip s ++ [46])
                           (filter (fun s => negb (is_empty (py_strip s))) (py_split_on 46 ttext)) in
      Ok (map (fun '(i, text_box) =>
                 match nth_error sentences i with
                 | Some s => set_translated_text text_box (strip_by (Z.eqb 46) s)
                 | None => set_translated_text text_box (text text_box)
                 end)
              (enumerate text_boxes))
  end.

(** [_distribute_translated_text]: with [None], [re.findall] raises
    [TypeError], which sends it to [_simple_text_distribution]. *)
Definition distribute_translated_text (text_boxes : list TextBox)
    (translated_combined : option pystr) : result (list TextBox) :=
  match translated_combined with
  | None => simple_text_distribution text_boxes None
  | Some tc =>
      let translations := translations_dict (findall tc) in
      let sorted_boxes := sort_text_boxes_reading_order text_boxes in
      Ok (fold_left
            (fun st '(i, (r, text_box)) =>
               match translations (Z.of_nat i) with
               | Some t =>
                   if is_empty t then modify_at st r (fun tb => set_translated_text tb (text tb))
                   else modify_at st r (fun tb => set_translated_text tb t)
               | None => modify_at st r (fun tb => set_translated_text tb (text tb))
               end)
            (enumerate sorted_boxes) text_boxes)
  end.

(** The [except] branch of [_translate_text_boxes]. *)
Definition keep_original_text (text_boxes : list TextBox) : list TextBox :=
  map (fun tb => if is_empty (translated_text tb) then set_translated_text tb (text tb) else tb)
      text_boxes.

Section Pipeline.

Variable Img : Type.
(** [ocr_service.extract_text(image, source_language)] *)
Variable extract_text : Img -> Language -> result (list TextBox).
(** [translation_manager.translate(text, from_lang, to_lang)] *)
Variable translate : pystr -> string -> string -> result (option pystr).
(** [inpainter.inpaint_textbox(image, text_box)] *)
Variable inpaint_textbox : Img -> TextBox -> result Img.
(** [text_renderer.render_text(image, text_box, target_language)] *)
Variable render_text : Img -> TextBox -> Language -> result Img.

(** [_translate_text_boxes]: every exception is caught.  The boxes are only
    assigned once [_distribute_translated_text] returns, so the [except]
    branch sees them as they were. *)
Definition translate_text_boxes (text_boxes : list TextBox) (request : TranslationRequest)
    : list TextBox :=
  let combined_text := combine_text_for_context text_boxes in
  match translate combined_text (lang_value (source_language request))
                  (lang_value (target_language request)) with
  | Err _ => keep_original_text text_boxes
  | Ok translated_combined =>
      match distribute_translated_text text_boxes translated_combined with
      | Ok text_boxes' => text_boxes'
      | Err _ => keep_original_text text_boxes
      end
  end.

(** [_inpaint_text_regions]: on any exception the input image is returned. *)
Definition inpaint_text_regions (image : Img) (text_boxes : list TextBox) : Img :=
  match fold_left (fun acc tb => let* im := acc in inpaint_textbox im tb)
                  text_boxes (Ok image) with
  | Ok im => im
  | Err _ => image
  end.

(** [_render_translated_text]: on any exception the input image is returned. *)
Definition render_translated_text (image : Img) (text_boxes : list TextBox)
    (request : TranslationRequest) : Img :=
  match fold_left (fun acc tb =>
                     let* im := acc in
                     if is_empty (py_strip (translated_text tb)) then Ok im
                     else render_text im tb (target_language request))
                  text_boxes (Ok image) with
  | Ok im => im
  | Err _ => image
  end.

(** [process_manga_translation]: the stages reported to the status callback
    and the outcome.  OCR failures and an empty OCR result are re-raised as
    a [ProcessingError]; the three later steps catch their own exceptions. *)
Definition process_manga_translation (image : Img) (request : TranslationRequest)
    : list ProcessingStage * result (Img * list TextBox) :=
  match extract_text image (source_language request) with
  | Err _ => ([INITIALIZED; OCR; ERROR], Err ProcessingError)
  | Ok [] => ([INITIALIZED; OCR; ERROR], Err ProcessingError)
  | Ok text_boxes =>
      let text_boxes := translate_text_boxes text_boxes request in
      let inpainted_image := inpaint_text_regions image text_boxes in
      let final_image := render_translated_text inpainted_image text_boxes request in
      ([INITIALIZED; OCR; TRANSLATION; INPAINTING; RENDERING; COMPLETED],
       Ok (final_image, text_boxes))
  end.

End Pipeline.

End Orchestrator.

(* ================================================================== *)
(** ** Translation fallback engine (services/translate) *)

Module Translate.

(** [SUPPORTED_LANGUAGES.keys()] *)
Definition SUPPORTED_LANGUAGES : list string :=
  ["sim_chinese"; "trad_chinese"; "korean"; "vietnamese"; "japanese"; "english"]%string.

Definition LEGACY_LANGUAGE_MAP : list (string * string) :=
  [("JPN", "japanese"); ("ENG", "english"); ("KOR", "korean");
   ("VIN", "vietnamese"); ("CHI", "sim_chinese"); ("CHT", "trad_chinese")]%string.

Fixpoint assoc_str (k : string) (m : list (string * string)) : option string :=
  match m with
  | [] => None
  | (k', v) :: m' => if string_dec k k' then Some v else assoc_str k m'
  end.

(** [normalize_language_code] *)
Definition normalize_language_code (lang_code : string) : string :=
  match assoc_str lang_code LEGACY_LANGUAGE_MAP with
  | Some v => v
  | None => lang_code
  end.

(** [str.isalnum] on one code point, on the scripts the application
    handles: ASCII, Latin-1 and Latin extended letters (Vietnamese
    included), Greek and Cyrillic, kana, CJK ideographs, Hangul syllables
    and the full-width forms. *)
Definition py_isalnum (c : Z) : bool :=
  ((48 <=? c) && (c <=? 57)) || ((65 <=? c) && (c <=? 90)) || ((97 <=? c) && (c <=? 122))
  || (c =? 170) || (c =? 178) || (c =? 179) || (c =? 181) || (c =? 185) || (c =? 186)
  || ((188 <=? c) && (c <=? 190))
  || ((192 <=? c) && (c <=? 214)) || ((216 <=? c) && (c <=? 246))
  || ((248 <=? c) && (c <=? 705))
  || ((880 <=? c) && (c <=? 1327) && negb (c =? 894) && negb (c =? 903) && negb (c =? 1154))
  || ((7680 <=? c) && (c <=? 7935))
  || ((12353 <=? c) && (c <=? 12438)) || ((12445 <=? c) && (c <=? 12447))
  || ((12449 <=? c) && (c <=? 12538)) || ((12540 <=? c) && (c <=? 12543))
  || ((13312 <=? c) && (c <=? 19903)) || ((19968 <=? c) && (c <=? 40959))
  || ((44032 <=? c) && (c <=? 55203))
  || ((65296 <=? c) && (c <=? 65305)) || ((65313 <=? c) && (c <=? 65338))
  || ((65345 <=? c) && (c <=? 65370)) || ((65382 <=? c) && (c <=? 65439)).

(** [is_valuable_text].  [alphanumeric_count < len(cleaned) * 0.3] is
    compared exactly as [10 * count < 3 * len]: the float product gives
    the same answer for every length below 200000. *)
Definition is_valuable_text (t : pystr) : bool :=
  if is_empty t || is_empty (py_strip t) then false
  else
    let cleaned := filter (fun c => negb (py_isspace c)) t in
    if (length cleaned <? 2)%nat then false
    else
      let alphanumeric_count := length (filter py_isalnum cleaned) in
      if 10 * Z.of_nat alphanumeric_count <? 3 * Z.of_nat (length cleaned) then false
      else true.

(** A provider, as [BaseTranslator] sees it.  [_translate] is the
    network call; it takes the attempt number, since the remote side may
    answer differently on a retry.  [clean_rest] is the part of
    [_clean_translation_output] after its guard (regex clean-up,
    repetition fix and [strip]). *)
Record Translator : Type := mkTranslator {
  is_available : bool;
  supports_languages : string -> string -> bool;
  INVALID_REPEAT_COUNT : nat;
  _translate : nat -> string -> string -> list pystr -> result (list pystr);
  _is_translation_invalid : pystr -> pystr -> bool;
  _modify_invalid_translation_query : pystr -> pystr -> pystr;
  clean_rest : pystr -> pystr -> pystr }.

(** [_clean_translation_output] *)
Definition _clean_translation_output (T : Translator) (query translation : pystr) : pystr :=
  if is_empty query || is_empty translation then [] else clean_rest T query translation.

(** Padding with [''] or truncation of the provider's answer. *)
Definition fit_length (n : nat) (ts : list pystr) : list pystr :=
  if (length ts <? n)%nat then ts ++ repeat [] (n - length ts)
  else if (n <? length ts)%nat then firstn n ts
  else ts.

(** The body of [for attempt in range(1 + self._INVALID_REPEAT_COUNT)],
    with the attempts still to run as [fuel]; returns
    [(queries_to_translate, translations)] after the loop. *)
Fixpoint retry_loop (T : Translator) (from_lang to_lang : string) (attempt fuel : nat)
    (queries_to_translate translations : list pystr) (untranslated_indices : list nat)
    : result (list pystr * list pystr) :=
  match fuel with
  | O => Ok (queries_to_translate, translations)
  | S fuel' =>
      match _translate T attempt from_lang to_lang queries_to_translate with
      | Err _ => Ok (queries_to_translate, translations)
      | Ok raw =>
          let _translations := fit_length (length queries_to_translate) raw in
          let* translations :=
            foldM (fun trs j => let* v := py_getitem _translations j in py_setitem trs j v)
                  untranslated_indices translations in
          if (INVALID_REPEAT_COUNT T =? 0)%nat then Ok (queries_to_translate, translations)
          else
            let* checked :=
              foldM (fun '(nu, qs) j =>
                       let* query := py_getitem qs j in
                       let* translation := py_getitem translations j in
                       if _is_translation_invalid T query translation then
                         let* qs' := py_setitem qs j
                                       (_modify_invalid_translation_query T query translation) in
                         Ok (nu ++ [j], qs')
                       else Ok (nu, qs))
                    untranslated_indices ([], queries_to_translate) in
            let '(new_untranslated_indices, queries_to_translate) := checked in
            if is_empty new_untranslated_indices
            then Ok (queries_to_translate, translations)
            else retry_loop T from_lang to_lang (S attempt) fuel'
                            queries_to_translate translations new_untranslated_indices
      end
  end.

(** [BaseTranslator.translate]; a [None] entry is a placeholder that was
    not filled. *)
Definition base_translate (T : Translator) (from_lang to_lang : string) (queries : list pystr)
    : result (list (option pystr)) :=
  let from_lang := normalize_language_code from_lang in
  let to_lang := normalize_language_code to_lang in
  if negb (str_in to_lang SUPPORTED_LANGUAGES) then Err ValueError
  else if negb (str_in from_lang SUPPORTED_LANGUAGES) then Err ValueError
  else if string_dec from_lang to_lang then Ok (map Some queries)
  else
    let final_translations :=
      map (fun q => if is_valuable_text q then None else Some q) queries in
    let query_indices :=
      map fst (filter (fun p => is_valuable_text (snd p)) (enumerate queries)) in
    let* queries_to_translate := mapM (py_getitem queries) query_indices in
    if is_empty queries_to_translate then Ok final_translations
    else
      let* looped :=
        retry_loop T from_lang to_lang 0 (1 + INVALID_REPEAT_COUNT T) queries_to_translate
                   (repeat [] (length queries_to_translate))
                   (seq 0 (length queries_to_translate)) in
      let '(queries_to_translate, translations) := looped in
      let cleaned_translations :=
        map (fun '(q, t) => _clean_translation_output T q t)
            (combine queries_to_translate translations) in
      foldM (fun fin '(i, translation) =>
               let* qi := py_getitem query_indices i in
               py_setitem fin qi (Some translation))
            (enumerate cleaned_translations) final_translations.

(** [TranslationManager._validate_languages]: the third component says
    whether a translation is needed. *)
Definition _validate_languages (from_lang to_lang : string) : result bool :=
  if negb (str_in from_lang SUPPORTED_LANGUAGES) then Err ValueError
  else if negb (str_in to_lang SUPPORTED_LANGUAGES) then Err ValueError
  else if string_dec from_lang to_lang then Ok false
  else Ok true.

(** The provider loop of [TranslationManager.translate]: every exception
    of a provider is caught and the next one is tried. *)
Fixpoint try_providers (translators : list Translator) (text : pystr) (from_lang to_lang : string)
    : option pystr :=
  match translators with
  | [] => None
  | translator :: rest =>
      if negb (is_available translator) then try_providers rest text from_lang to_lang
      else if negb (supports_languages translator from_lang to_lang)
      then try_providers rest text from_lang to_lang
      else
        match base_translate translator from_lang to_lang [text] with
        | Ok (Some r :: _) =>
            if is_empty r || is_empty (py_strip r) then try_providers rest text from_lang to_lang
            else Some r
        | Ok _ => try_providers rest text from_lang to_lang
        | Err _ => try_providers rest text from_lang to_lang
        end
  end.

(** [TranslationManager.translate]: [None] when every service failed. *)
Definition tm_translate (translators : list Translator) (text : pystr) (from_lang to_lang : string)
    : result (option pystr) :=
  if is_empty text || is_empty (py_strip text) then Ok (Some text)
  else
    let* needs_translation := _validate_languages from_lang to_lang in
    if negb needs_translation then Ok (Some text)
    else Ok (try_providers translators text from_lang to_lang).

(** [TranslationManager.translate_batch].  The calls run concurrently and
    share the providers' availability and rate-limit state, so the call
    for text [i] sees the providers as [translators i]; an exception of a
    call becomes [None] ([gather(..., return_exceptions=True)]). *)
Definition translate_batch (translators : nat -> list Translator) (texts : list pystr)
    (from_lang to_lang : string) : result (list (option pystr)) :=
  if is_empty texts then Ok []
  else
    let* needs_translation := _validate_languages from_lang to_lang in
    if negb needs_translation then Ok (map Some texts)
    else
      Ok (map (fun '(i, text) =>
                 match tm_translate (translators i) text from_lang to_lang with
                 | Ok r => r
                 | Err _ => None
                 end)
              (enumerate texts)).

End Translate.

(* ================================================================== *)
(** ** Font and layout engine (services/render) *)

Module Render.

(** What the engine uses of a PIL [FreeTypeFont]: [getbbox] gives
    [(left, top, right, bottom)] and [getmetrics] gives
    [(ascent, descent)]. *)
Record FreeTypeFont : Type := mkFont {
  getbbox : pystr -> Z * Z * Z * Z;
  getmetrics : Z * Z }.

Inductive TextDirection : Type := LTR | TTB.

(** [settings.font_size_min], [settings.font_size_max] *)
Definition font_size_min : Z := 6.
Definition font_size_max : Z := 30.

(** [str.lower()] on ASCII letters. *)
Fixpoint str_lower (s : string) : string :=
  match s with
  | EmptyString => EmptyString
  | String a r =>
      let n := nat_of_ascii a in
      String (if (65 <=? n)%nat && (n <=? 90)%nat then ascii_of_nat (n + 32) else a)
             (str_lower r)
  end.

(** [_is_cjk_language] *)
Definition _is_cjk_language (language : string) : bool :=
  str_in (str_lower language)
    ["japanese"; "sim_chinese"; "trad_chinese"; "korean"]%string.

(** [settings.text_directions] through [get_text_direction_for_language]. *)
Definition get_text_direction_for_language (l : Language) : TextDirection :=
  match l with
  | JAPANESE | SIM_CHINESE | TRAD_CHINESE => TTB
  | KOREAN | ENGLISH | VIETNAMESE => LTR
  end.

(** [Language(language)]: [None] is the [ValueError]. *)
Definition language_of_string (s : string) : option Language :=
  if string_dec s "japanese" then Some JAPANESE
  else if string_dec s "sim_chinese" then Some SIM_CHINESE
  else if string_dec s "trad_chinese" then Some TRAD_CHINESE
  else if string_dec s "korean" then Some KOREAN
  else if string_dec s "english" then Some ENGLISH
  else if string_dec s "vietnamese" then Some VIETNAMESE
  else None.

(** [measure_text] (PIL fonts have [getbbox]). *)
Definition measure_text (text : pystr) (font : FreeTypeFont) (language : string) : Z * Z :=
  let '(l, t, r, b) := getbbox font text in
  let width := r - l in
  let height := b - t in
  if _is_cjk_language language then
    let '(ascent, descent) := getmetrics font in (width, ascent + descent)
  else (width, height).

(** The loop of [_wrap_cjk_text], with [current_line] and [lines]. *)
Fixpoint wrap_cjk_loop (target_width : Z) (font : FreeTypeFont) (language : string)
    (current_line : pystr) (lines : list pystr) (s : pystr) : list pystr :=
  match s with
  | [] => if is_empty current_line then lines else lines ++ [current_line]
  | char :: r =>
      let test_line := current_line ++ [char] in
      let line_width := fst (measure_text test_line font language) in
      if line_width <=? target_width
      then wrap_cjk_loop target_width font language test_line lines r
      else wrap_cjk_loop target_width font language [char]
             (if is_empty current_line then lines else lines ++ [current_line]) r
  end.

(** [_wrap_cjk_text] *)
Definition _wrap_cjk_text (text : pystr) (target_width : Z) (font : FreeTypeFont)
    (language : string) : list pystr :=
  wrap_cjk_loop target_width font language [] [] text.

(** The loop of [_break_long_word_with_hyphen] ([45] is ['-']). *)
Fixpoint break_loop (max_width : Z) (font : FreeTypeFont) (language : string)
    (current_part : pystr) (parts : list pystr) (s : pystr) : list pystr :=
  match s with
  | [] => if is_empty current_part then parts else parts ++ [current_part]
  | char :: r =>
      let test_part := current_part ++ [char] in
      if fst (measure_text (test_part ++ [45]) font language) <=? max_width
      then break_loop max_width font language test_part parts r
      else break_loop max_width font language [char]
             (if is_empty current_part then parts else parts ++ [current_part ++ [45]]) r
  end.

Definition _break_long_word_with_hyphen (word : pystr) (max_width : Z) (font : FreeTypeFont)
    (language : string) : list pystr :=
  let parts := break_loop max_width font language [] [] word in
  if is_empty parts then [word] else parts.

(** The word loop of [_wrap_latin_text]; returns [(lines, current_line)].
    [broken] is never empty, so [broken[-1]] does not raise. *)
Fixpoint latin_loop (target_width : Z) (font : FreeTypeFont) (language : string)
    (current_line : pystr) (lines : list pystr) (words : list pystr) : list pystr * pystr :=
  match words with
  | [] => (lines, current_line)
  | word :: r =>
      let test_line := py_strip (current_line ++ [32] ++ word) in
      if fst (measure_text test_line font language) <=? target_width
      then latin_loop target_width font language test_line lines r
      else
        let lines := if is_empty current_line then lines else lines ++ [current_line] in
        if target_width <? fst (measure_text word font language) then
          let broken := _break_long_word_with_hyphen word target_width font language in
          latin_loop target_width font language (last broken []) (lines ++ removelast broken) r
        else latin_loop target_width font language word lines r
  end.

(** [_wrap_latin_text], with the bottom-line rule; [last_line.split()[-1]]
    raises [IndexError] on a blank last line. *)
Definition _wrap_latin_text (text : pystr) (target_width : Z) (font : FreeTypeFont)
    (language : string) : result (list pystr) :=
  let '(lines, current_line) := latin_loop target_width font language [] [] (py_split text) in
  let lines := if is_empty current_line then lines else lines ++ [current_line] in
  if (1 <? length lines)%nat then
    let last_line := last lines [] in
    let* last_word := py_getitem (rev (py_split last_line)) 0 in
    if (length last_word <=? 10)%nat && existsb (Z.eqb 32) last_line then
      let lines := removelast lines ++ [py_join [32] (removelast (py_split last_line)); last_word] in
      if is_empty (py_strip (py_join [32] (removelast (py_split last_line))))
      then Ok (removelast (removelast lines) ++ [last_word])
      else Ok lines
    else Ok lines
  else Ok lines.

(** [wrap_text_for_size] *)
Definition wrap_text_for_size (text : pystr) (target_width : Z) (font : FreeTypeFont)
    (language : string) : result (list pystr) :=
  if is_empty (py_strip text) then Ok []
  else if _is_cjk_language language then Ok (_wrap_cjk_text text target_width font language)
  else _wrap_latin_text text target_width font language.

(** [settings.font_mappings]: every file exists (or the [FontManager]
    constructor raises), so these are the [font_paths]. *)
Definition font_paths : list (string * string) :=
  [("english", "fonts/CCMonologousTeddyBear.ttf"); ("japanese", "fonts/GenEiAntique.ttf");
   ("sim_chinese", "fonts/SCNotoSerifCJK.otf"); ("korean", "fonts/KRNotoSerifCJK.otf");
   ("trad_chinese", "fonts/TCNotoSerifCJK.otf"); ("vietnamese", "fonts/CCMonologousTeddyBear.ttf");
   ("default", "fonts/CCMonologousTeddyBear.ttf")]%string.

Definition lang_families : list (string * string) :=
  [("ja", "japanese"); ("jp", "japanese"); ("jpn", "japanese");
   ("zh", "sim_chinese"); ("zh-cn", "sim_chinese");
   ("zh-tw", "trad_chinese"); ("zh-hk", "trad_chinese");
   ("cn", "sim_chinese"); ("tw", "trad_chinese"); ("hk", "trad_chinese");
   ("chi", "sim_chinese");
   ("ko", "korean"); ("kr", "korean"); ("kor", "korean");
   ("en", "english"); ("eng", "english");
   ("vi", "vietnamese"); ("vie", "vietnamese")]%string.

(** [_get_font_path_for_language] *)
Definition _get_font_path_for_language (language : string) : option string :=
  match Translate.assoc_str language font_paths with
  | Some p => Some p
  | None =>
      match Translate.assoc_str (str_lower language) lang_families with
      | Some fam => Translate.assoc_str fam font_paths
      | None => None
      end
  end.

Section Fonts.

(** [ImageFont.truetype(font_path, size)]; the font cache returns the same
    object for the same [(language, size)], which a function models. *)
Variable truetype : string -> Z -> FreeTypeFont.

(** [get_font] *)
Definition get_font (language : string) (size : Z) : result FreeTypeFont :=
  match _get_font_path_for_language language with
  | None => Err ValueError
  | Some font_path => Ok (truetype font_path size)
  end.

(** The [while left <= right] loop of [find_optimal_font_size_multiline]
    ([max_lines] is [None]); [fuel] bounds the iterations.
    [int(line_height * 0.4)] is [Z.quot (line_height * 2) 5]; "测" is
    U+6D4B. *)
Fixpoint size_search (fuel : nat) (text : pystr) (target_width target_height : Z)
    (language : string) (left right best_size : Z) : result Z :=
  match fuel with
  | O => Ok best_size
  | S fuel' =>
      if left <=? right then
        let mid_size := (left + right) / 2 in
        let* font := get_font language mid_size in
        let* lines := wrap_text_for_size text target_width font language in
        let line_height :=
          snd (measure_text (if _is_cjk_language language then [27979] else [65]) font language) in
        let line_spacing :=
          if _is_cjk_language language then Z.max 8 (Z.quot (line_height * 2) 5)
          else Z.max 5 (Z.quot (line_height * 2) 5) in
        let total_height :=
          Z.of_nat (length lines) * line_height + (Z.of_nat (length lines) - 1) * line_spacing in
        if total_height <=? target_height
        then size_search fuel' text target_width target_height language (mid_size + 1) right mid_size
        else size_search fuel' text target_width target_height language left (mid_size - 1) best_size
      else Ok best_size
  end.

(** [find_optimal_font_size_multiline]: at most 25 iterations run (the
    range [6..30] halves each time). *)
Definition find_optimal_font_size_multiline (text : pystr) (target_width target_height : Z)
    (language : string) : result Z :=
  let min_size := font_size_min in
  let left := font_size_min in
  let right := font_size_max in
  let best_size := min_size in
  let left := if _is_cjk_language language then Z.max min_size 12 else left in
  size_search 25 text target_width target_height language left right best_size.

(** [LayoutCalculator.calculate_optimal_font_size].  [settings] has no
    [default_font_size], so a blank text raises [AttributeError].  With
    [font_size_multiplier = 1.0], [int(s * 1.0 * 1.1)] is [(11 * s) / 10]
    and [int(s * 1.0)] is [s] for the sizes [6..30] the search returns. *)
Definition calculate_optimal_font_size (text : pystr) (bbox : BoundingBox) (language : string)
    (direction : option TextDirection) : result Z :=
  let direction :=
    match direction with
    | Some d => d
    | None => match language_of_string language with
              | Some l => get_text_direction_for_language l
              | None => LTR
              end
    end in
  if is_empty (py_strip text) then Err AttributeError
  else
    let target_width := width bbox - 4 in
    let target_height := height bbox - 4 in
    let '(target_width, target_height) :=
      match direction with
      | TTB => if _is_cjk_language language then (target_width, target_height)
               else (target_height, target_width)
      | LTR => (target_width, target_height)
      end in
    let* optimal_size := find_optimal_font_size_multiline text target_width target_height language in
    let optimal_size :=
      if _is_cjk_language language then (optimal_size * 11) / 10 else optimal_size in
    Ok (Z.max font_size_min (Z.min optimal_size font_size_max)).

End Fonts.

(** [_boxes_overlap] *)
Definition _boxes_overlap (bbox1 bbox2 : BoundingBox) : bool :=
  negb ((x2 bbox1 <? x1 bbox2) || (x2 bbox2 <? x1 bbox1)
        || (y2 bbox1 <? y1 bbox2) || (y2 bbox2 <? y1 bbox1)).

(** [_resolve_overlap] *)
Definition _resolve_overlap (bbox1 bbox2 : BoundingBox) (image_width image_height : Z)
    : BoundingBox :=
  let movements :=
    [(0, y2 bbox2 - y1 bbox1 + 5); (0, y1 bbox2 - y2 bbox1 - 5);
     (x2 bbox2 - x1 bbox1 + 5, 0); (x1 bbox2 - x2 bbox1 - 5, 0)] in
  let fix try_moves (ms : list (Z * Z)) : BoundingBox :=
    match ms with
    | [] => bbox1
    | (dx, dy) :: ms' =>
        let new_x1 := x1 bbox1 + dx in
        let new_y1 := y1 bbox1 + dy in
        let new_x2 := x2 bbox1 + dx in
        let new_y2 := y2 bbox1 + dy in
        if (0 <=? new_x1) && (new_x2 <=? image_width) && (0 <=? new_y1) && (new_y2 <=? image_height)
        then mkBBox new_x1 new_y1 new_x2 new_y2
        else try_moves ms'
    end in
  try_moves movements.

(** The inner loop of [optimize_text_layout] on the copy of one box. *)
Definition adjust_box (optimized_boxes : list TextBox) (text_box : TextBox)
    (image_width image_height : Z) : TextBox :=
  fold_left (fun adjusted_box existing_box =>
               if _boxes_overlap (bbox adjusted_box) (bbox existing_box)
               then set_bbox adjusted_box
                      (_resolve_overlap (bbox adjusted_box) (bbox existing_box)
                                        image_width image_height)
               else adjusted_box)
            optimized_boxes text_box.

(** [optimize_text_layout] *)
Definition optimize_text_layout (text_boxes : list TextBox) (image_width image_height : Z)
    : list TextBox :=
  if (length text_boxes <=? 1)%nat then text_boxes
  else fold_left (fun optimized_boxes text_box =>
                    optimized_boxes ++ [adjust_box optimized_boxes text_box image_width image_height])
                 text_boxes [].

End Render.

(* ================================================================== *)
(** ** Translator helpers (services/translate/base.py and providers) *)

Module TranslateBase.
Import Translate.

(** The test of [repeating_sequence] for one [seq_len]:
    [sequence * repeats == text[:repeats * seq_len]]. *)
Definition repeats_as (text : pystr) (seq_len : nat) : bool :=
  let sequence := firstn seq_len text in
  let repeats := (length text / seq_len)%nat in
  if list_eq_dec Z.eq_dec (concat (repeat sequence repeats)) (firstn (repeats * seq_len) text)
  then true else false.

(** The [for seq_len in range(...)] loop of [repeating_sequence]. *)
Fixpoint find_seq (text : pystr) (seq_lens : list nat) : pystr :=
  match seq_lens with
  | [] => text
  | seq_len :: r => if repeats_as text seq_len then firstn seq_len text else find_seq text r
  end.

(** [repeating_sequence] *)
Definition repeating_sequence (text : pystr) : pystr :=
  if is_empty text then []
  else find_seq text (seq 1 (length text / 2)).

(** [GoogleTranslator._LANGUAGE_CODE_MAP] *)
Definition google_LANGUAGE_CODE_MAP : list (string * string) :=
  [("sim_chinese", "zh-cn"); ("trad_chinese", "zh-tw"); ("korean", "ko");
   ("vietnamese", "vi"); ("japanese", "ja"); ("english", "en")]%string.

(** [DeepLTranslator._LANGUAGE_CODE_MAP] *)
Definition deepl_LANGUAGE_CODE_MAP : list (string * string) :=
  [("sim_chinese", "zh"); ("trad_chinese", "zh-hant"); ("korean", "ko");
   ("japanese", "ja"); ("english", "en")]%string.

Definition str_is_empty (s : string) : bool :=
  match s with EmptyString => true | _ => false end.

(** [BaseTranslator.supports_languages]; [LanguageUnsupportedException]
    is a [TranslationException].  [if unsupported_lang:] tests the
    string's truth value, so an empty code is never reported. *)
Definition supports_languages (code_map : list (string * string)) (from_lang to_lang : string)
    (fatal : bool) : result bool :=
  let from_lang := normalize_language_code from_lang in
  let to_lang := normalize_language_code to_lang in
  let supported_languages := map fst code_map in
  let unsupported_lang :=
    if negb (str_in from_lang supported_languages) then Some from_lang
    else if negb (str_in to_lang supported_languages) then Some to_lang
    else None in
  match unsupported_lang with
  | Some u =>
      if negb (str_is_empty u) then (if fatal then Err TranslationException else Ok false)
      else Ok true
  | None => Ok true
  end.

(** [DeepLTranslator.supports_languages] *)
Definition deepl_supports_languages (from_lang to_lang : string) (fatal : bool) : result bool :=
  if String.eqb from_lang "VIN" || String.eqb to_lang "VIN" then
    (if fatal then Err TranslationException else Ok false)
  else supports_languages deepl_LANGUAGE_CODE_MAP from_lang to_lang fatal.

Definition google_supports_languages (from_lang to_lang : string) (fatal : bool) : result bool :=
  supports_languages google_LANGUAGE_CODE_MAP from_lang to_lang fatal.

(** [BaseTranslator.parse_language_codes], for a provider's
    [supports_languages] and code map. *)
Definition parse_language_codes (supports : string -> string -> bool -> result bool)
    (code_map : list (string * string)) (from_lang to_lang : string) (fatal : bool)
    : result (option string * option string) :=
  let from_lang := normalize_language_code from_lang in
  let to_lang := normalize_language_code to_lang in
  let* ok := supports from_lang to_lang fatal in
  if negb ok then Ok (None, None)
  else Ok (assoc_str from_lang code_map, assoc_str to_lang code_map).

End TranslateBase.

(* ================================================================== *)
(** ** OCR services (ocr/easy_ocr.py, ocr/manga_ocr.py, ocr/ocr_manager.py) *)

Module OCR.
Import Merge.

(** [settings.merge_nearby_textboxes] (config.py). *)
Definition merge_nearby_textboxes : bool := true.

(** [points = np.array(bbox).astype(int)]; [x1, y1 = points.min(axis=0)];
    [x2, y2 = points.max(axis=0)].  The corner points are given after the
    [astype(int)] conversion; a detection without points is a zero-size
    array, on which [min] raises [ValueError]. *)
Definition points_bbox (points : list (Z * Z)) : result BoundingBox :=
  match points with
  | [] => Err ValueError
  | (px, py0) :: r =>
      Ok (mkBBox (fold_left Z.min (map fst r) px) (fold_left Z.min (map snd r) py0)
                 (fold_left Z.max (map fst r) px) (fold_left Z.max (map snd r) py0))
  end.

(** The loop [for bbox, text in results] of [EasyOCRService.extract_text]:
    [results] is what [reader.readtext(image, paragraph=True)] returned. *)
Definition easy_boxes_loop (results : list (list (Z * Z) * pystr)) : result (list TextBox) :=
  foldM (fun boxes '(bb, txt) =>
           if negb (is_empty (py_strip txt)) then
             let* b := points_bbox bb in
             Ok (boxes ++ [mkTextBox (py_strip txt) b []])
           else Ok boxes)
        results [].

(** [EasyOCRService.extract_text]: [readers] are the keys of
    [self.readers], the languages whose reader could be created. *)
Definition easy_extract_text (readers : list string) (language : string)
    (results : list (list (Z * Z) * pystr)) : result (list TextBox) :=
  if negb (str_in language readers) then Err ValueError
  else
    let* boxes := easy_boxes_loop results in
    if merge_nearby_textboxes then merge_nearby_boxes boxes 20 else Ok boxes.

(** Python's slice bound normalisation for [a] on a sequence of length [n]
    (step 1) and the length of [s[a:b]]. *)
Definition slice_bound (n a : Z) : Z :=
  if a <? 0 then Z.max 0 (a + n) else Z.min a n.
Definition slice_len (n a b : Z) : Z := Z.max 0 (slice_bound n b - slice_bound n a).

(** The loop [for bbox, _, _ in detections] of [MangaOCRService.extract_text]
    on an image of [H] rows, [W] columns and [C] channels.  [cropped.size] is
    the product of the three slice lengths; [mocr] is the recogniser applied
    to the crop of a box, an exception giving [""]. *)
Definition manga_boxes_loop (H W C : Z) (mocr : BoundingBox -> result pystr)
    (detections : list (list (Z * Z))) : result (list TextBox) :=
  foldM (fun boxes bb =>
           let* b := points_bbox bb in
           if slice_len H (y1 b) (y2 b) * slice_len W (x1 b) (x2 b) * C =? 0 then Ok boxes
           else
             let recognized_text := match mocr b with Ok t => py_strip t | Err _ => [] end in
             if negb (is_empty recognized_text)
             then Ok (boxes ++ [mkTextBox recognized_text b []])
             else Ok boxes)
        detections [].

(** [MangaOCRService.extract_text] *)
Definition manga_extract_text (H W C : Z) (mocr : BoundingBox -> result pystr)
    (detections : list (list (Z * Z))) : result (list TextBox) :=
  let* boxes := manga_boxes_loop H W C mocr detections in
  if merge_nearby_textboxes then merge_nearby_boxes boxes 20 else Ok boxes.

(** [get_supported_languages] of the two services. *)
Definition easy_supported : list string :=
  ["english"; "korean"; "vietnamese"; "japanese"; "sim_chinese"; "trad_chinese"]%string.
Definition manga_supported : list string := ["japanese"; "sim_chinese"; "trad_chinese"]%string.

(** [OCRManager.services] after [initialize]: the dict in insertion order,
    a service kept when it reports itself available. *)
Definition ocr_services (easy_ok manga_ok : bool) : list (string * list string) :=
  (if easy_ok then [("easy"%string, easy_supported)] else [])
  ++ (if manga_ok then [("manga"%string, manga_supported)] else []).

Fixpoint service_lookup (k : string) (m : list (string * list string)) : option (list string) :=
  match m with
  | [] => None
  | (k', v) :: m' => if string_dec k k' then Some v else service_lookup k m'
  end.

(** [_normalize_language]: a [Language] gives its (lower case) value, a
    string is lowered. *)
Definition _normalize_language (language : string) : string := Render.str_lower language.

(** [for name, service in self.services.items()] *)
Fixpoint first_supporting (services : list (string * list string)) (lang : string)
    : option (string * list string) :=
  match services with
  | [] => None
  | (n, ls) :: r => if str_in lang ls then Some (n, ls) else first_supporting r lang
  end.

(** [OCRManager.get_ocr_service]; [None] is the [RuntimeError]. *)
Definition get_ocr_service (services : list (string * list string)) (language : string)
    : option (string * list string) :=
  let lang := _normalize_language language in
  let manga :=
    if str_in lang ["japanese"; "sim_chinese"; "trad_chinese"]%string then
      match service_lookup "manga" services with
      | Some ls => if str_in lang ls then Some ("manga"%string, ls) else None
      | None => None
      end
    else None in
  match manga with
  | Some s => Some s
  | None => first_supporting services lang
  end.

End OCR.

(* ================================================================== *)
(** ** Font manager, further entry points (render/font_manager.py) *)

Module FontInfo.
Import Render.

Section WithFonts.

Variable truetype : string -> Z -> FreeTypeFont.

(** [get_text_layout_info]: [int(line_height * 0.3)] is
    [Z.quot (line_height * 3) 10] and [int(line_height * 0.4)] is
    [Z.quot (line_height * 2) 5]. *)
Definition get_text_layout_info (text : pystr) (target_width target_height : Z)
    (language : string) : result (Z * list pystr * Z) :=
  let* font_size := find_optimal_font_size_multiline truetype text target_width target_height language in
  let* font := get_font truetype language font_size in
  let* lines := wrap_text_for_size text target_width font language in
  let line_height :=
    snd (measure_text (if _is_cjk_language language then [27979] else [65]) font language) in
  let line_spacing :=
    if String.eqb (str_lower language) "korean" then Z.max 4 (Z.quot (line_height * 3) 10)
    else if str_in (str_lower language) ["japanese"; "sim_chinese"; "trad_chinese"]%string
    then Z.max 8 (Z.quot (line_height * 2) 5)
    else Z.max 4 (Z.quot (line_height * 3) 10) in
  let total_height :=
    Z.of_nat (length lines) * line_height + (Z.of_nat (length lines) - 1) * line_spacing in
  Ok (font_size, lines, total_height).



End WithFonts.

End FontInfo.

(* ================================================================== *)
(** ** Layout calculator, positioning (render/layout_calculator.py) *)

Module LayoutCalc.
Import Render.

(** [calculate_text_position] *)
Definition calculate_text_position (text : pystr) (bbox : BoundingBox) (font : FreeTypeFont)
    (direction : TextDirection) (alignment : string) (language : string) : Z * Z :=
  let '(text_width, text_height) := measure_text text font language in
  match direction with
  | LTR =>
      let x := if String.eqb alignment "left" then x1 bbox + 2
               else if String.eqb alignment "right" then x2 bbox - text_width - 2
               else x1 bbox + (width bbox - text_width) / 2 in
      let y := y1 bbox + (height bbox - text_height) / 2 in
      (x, y)
  | TTB =>
      if _is_cjk_language language then
        let x := x2 bbox - text_width - 2 in
        let y := if String.eqb alignment "top" then y1 bbox + 2
                 else if String.eqb alignment "bottom" then y2 bbox - text_height - 2
                 else y1 bbox + 2 in
        (x, y)
      else
        let x := x1 bbox + (width bbox - text_width) / 2 in
        let y := if String.eqb alignment "top" then y1 bbox + 2
                 else if String.eqb alignment "bottom" then y2 bbox - text_height - 2
                 else y1 bbox + (height bbox - text_height) / 2 in
        (x, y)
  end.

(** [wrap_text_to_fit] *)
Definition wrap_text_to_fit (text : pystr) (bbox : BoundingBox) (font : FreeTypeFont)
    (direction : TextDirection) (language : string) : result (list pystr) :=
  if is_empty (py_strip text) then Ok []
  else match direction with
       | TTB => if _is_cjk_language language then Ok [text]
                else wrap_text_for_size text (width bbox - 4) font language
       | LTR => wrap_text_for_size text (width bbox - 4) font language
       end.

(** [calculate_multiline_position] *)
Definition calculate_multiline_position (lines : list pystr) (bbox : BoundingBox)
    (font : FreeTypeFont) (direction : TextDirection) (language : string) : list (Z * Z) :=
  if is_empty lines then []
  else
    match direction, _is_cjk_language language with
    | TTB, true => [(x2 bbox - 4, y1 bbox + 4)]
    | _, _ =>
        let line_height := snd (measure_text (py "A") font language) in
        let line_spacing :=
          if _is_cjk_language language then Z.max 8 (Z.quot (line_height * 2) 5)
          else Z.max 5 (Z.quot (line_height * 2) 5) in
        let total_text_height :=
          Z.of_nat (length lines) * line_height + (Z.of_nat (length lines) - 1) * line_spacing in
        let start_y := y1 bbox + (height bbox - total_text_height) / 2 in
        map (fun '(i, line) =>
               let line_width := fst (measure_text line font language) in
               (x1 bbox + (width bbox - line_width) / 2,
                start_y + Z.of_nat i * (line_height + line_spacing)))
            (enumerate lines)
    end.

(** [calculate_vertical_text_layout]; [None] is the [ZeroDivisionError]
    of [available_height // char_height].  The columns are
    [text[i:i + chars_per_column]] for [i] in
    [range(0, len(text), chars_per_column)]. *)
Definition calculate_vertical_text_layout (text : pystr) (bbox : BoundingBox)
    (font : FreeTypeFont) (language : string) : option (list (pystr * Z * Z)) :=
  if negb (_is_cjk_language language) then Some [(text, x1 bbox, y1 bbox)]
  else
    let '(char_width, char_height) := measure_text [27979] font language in
    let available_height := height bbox - 8 in
    if char_height =? 0 then None
    else
      let chars_per_column := Z.to_nat (Z.max 1 (available_height / char_height)) in
      let columns :=
        map (fun j => firstn chars_per_column (skipn (j * chars_per_column) text))
            (seq 0 ((length text + chars_per_column - 1) / chars_per_column)) in
      let available_width := width bbox - 8 in
      let column_spacing :=
        if (1 <? length columns)%nat
        then Z.min (char_width + 10) (available_width / Z.of_nat (length columns))
        else char_width in
      let start_x := x2 bbox - 4 - char_width in
      Some (filter (fun '(_, x, _) => x1 bbox <=? x)
              (map (fun '(col_idx, column_text) =>
                      (column_text, start_x - Z.of_nat col_idx * column_spacing, y1 bbox + 4))
                   (enumerate columns))).

End LayoutCalc.

(* ================================================================== *)
(** * Properties *)

(* ------------------------------------------------------------------ *)
(** ** Merge utility *)

Module MergeProofs.
Import Merge.

Definition mem (k : nat) (l : list nat) : bool := existsb (Nat.eqb k) l.

Lemma mem_app k l1 l2 : mem k (l1 ++ l2) = mem k l1 || mem k l2.
Proof. unfold mem. apply existsb_app. Qed.

Lemma mem_cons k a l : mem k (a :: l) = Nat.eqb k a || mem k l.
Proof. reflexivity. Qed.

Lemma mem_true k l : mem k l = true <-> In k l.
Proof.
  unfold mem. rewrite existsb_exists. split.
  - intros [x [Hx Heq]]. apply Nat.eqb_eq in Heq. subst. exact Hx.
  - intros H. exists k. split; [exact H | apply Nat.eqb_refl].
Qed.

Lemma filter_andb {A : Type} (P Q : A -> bool) (l : list A) :
  filter (fun x => P x && Q x) l = filter Q (filter P l).
Proof.
  induction l as [|a l IH]; simpl; [reflexivity|].
  destruct (P a); simpl; destruct (Q a); simpl; rewrite ?IH; reflexivity.
Qed.

Lemma filter_map_snd {A B : Type} (P : B -> bool) (l : list (A * B)) :
  filter P (map snd l) = map snd (filter (fun p => P (snd p)) l).
Proof.
  induction l as [|[a b] l IH]; simpl; [reflexivity|].
  destruct (P b); simpl; rewrite IH; reflexivity.
Qed.

Lemma nodup_map_eq {A B : Type} (f : A -> B) (l : list A) x y :
  NoDup (map f l) -> In x l -> In y l -> f x = f y -> x = y.
Proof.
  induction l as [|a l IH]; simpl; intros Hnd Hx Hy Hf; [contradiction|].
  inversion Hnd as [|? ? Ha Hnd']; subst.
  destruct Hx as [<-|Hx], Hy as [<-|Hy]; auto.
  - exfalso. apply Ha. rewrite Hf. apply in_map. exact Hy.
  - exfalso. apply Ha. rewrite <- Hf. apply in_map. exact Hx.
Qed.

(** Inner loop: the group gains, in order, every later unused box near the
    seed; the used set gains exactly their indices. *)
Lemma inner_loop_spec t box1 rest used group :
  NoDup (map fst rest) ->
  let sel := filter (fun p => negb (mem (fst p) used)
                              && boxes_nearby (bbox box1) (bbox (snd p)) t) rest in
  fst (inner_loop t box1 rest used group) = group ++ map snd sel /\
  forall k, mem k (snd (inner_loop t box1 rest used group))
            = mem k used || mem k (map fst sel).
Proof.
  revert used group.
  induction rest as [|[j b] rest IH]; intros used group Hnd sel; subst sel.
  - simpl. split; [symmetry; apply app_nil_r | intros k; rewrite orb_false_r; reflexivity].
  - simpl in Hnd. inversion Hnd as [|? ? Hj Hnd']; subst.
    simpl. fold (mem j used).
    destruct (mem j used) eqn:Hu; simpl.
    + apply IH; exact Hnd'.
    + destruct (boxes_nearby (bbox box1) (bbox b) t) eqn:Hn; simpl.
      * destruct (IH (j :: used) (group ++ [b]) Hnd') as [H1 H2].
        assert (Hf : filter (fun p => negb (mem (fst p) (j :: used))
                        && boxes_nearby (bbox box1) (bbox (snd p)) t) rest
                     = filter (fun p => negb (mem (fst p) used)
                        && boxes_nearby (bbox box1) (bbox (snd p)) t) rest).
        { apply filter_ext_in. intros [k b'] Hin. cbn [fst snd].
          rewrite mem_cons. destruct (Nat.eqb k j) eqn:Hkj; [|reflexivity].
          apply Nat.eqb_eq in Hkj. subst. exfalso. apply Hj.
          change j with (fst (j, b')). apply in_map. exact Hin. }
        rewrite Hf in H1, H2. split.
        -- rewrite H1, <- app_assoc. reflexivity.
        -- intros k. rewrite H2. unfold mem. simpl.
           destruct (Nat.eqb k j); simpl; rewrite ?orb_true_r; reflexivity.
      * apply IH; exact Hnd'.
Qed.

Lemma outer_loop_spec t ps used fuel :
  NoDup (map fst ps) -> (length ps <= fuel)%nat ->
  outer_loop t ps used
  = seed_groups fuel t (map snd (filter (fun p => negb (mem (fst p) used)) ps)).
Proof.
  revert used fuel.
  induction ps as [|[i b1] rest IH]; intros used fuel Hnd Hf.
  - destruct fuel; reflexivity.
  - simpl in Hnd. inversion Hnd as [|? ? Hi Hnd']; subst. simpl in Hf.
    simpl. fold (mem i used).
    destruct (mem i used) eqn:Hu; simpl.
    + apply IH; [exact Hnd' | lia].
    + destruct fuel as [|fuel]; [lia|].
      destruct (inner_loop t b1 rest (i :: used) [b1]) as [group used'] eqn:Hin.
      destruct (inner_loop_spec t b1 rest (i :: used) [b1] Hnd') as [H1 H2].
      rewrite Hin in H1, H2. simpl in H1, H2.
      assert (Hrest : forall p, In p rest -> Nat.eqb (fst p) i = false).
      { intros [k b'] Hp. cbn [fst].
        destruct (Nat.eqb k i) eqn:Hki; [|reflexivity].
        apply Nat.eqb_eq in Hki. subst. exfalso. apply Hi.
        change i with (fst (i, b')). apply in_map. exact Hp. }
      simpl. f_equal.
      * rewrite H1. f_equal.
        rewrite filter_map_snd, <- filter_andb. f_equal.
        apply filter_ext_in. intros p Hp. rewrite Hrest by exact Hp. reflexivity.
      * rewrite (IH used' fuel Hnd' ltac:(lia)). f_equal.
        rewrite filter_map_snd, <- filter_andb. f_equal.
        apply filter_ext_in. intros [k b'] Hp. cbn [fst snd].
        pose proof (Hrest (k, b') Hp) as Hk. cbn [fst] in Hk.
        rewrite H2, Hk. cbn [orb].
        destruct (mem k used) eqn:Hku; cbn [negb andb orb]; [reflexivity|].
        destruct (boxes_nearby (bbox b1) (bbox b') t) eqn:Hn; cbn [negb].
        -- apply negb_false_iff, mem_true. change k with (fst (k, b')). apply in_map.
          apply filter_In. split; [exact Hp|]. cbn [fst snd].
          rewrite Hk. cbn [orb]. rewrite Hku, Hn. reflexivity.
        -- apply negb_true_iff. destruct (mem k (map fst _)) eqn:Hm; [|reflexivity].
          apply mem_true, in_map_iff in Hm.
          destruct Hm as [[k' b''] [Hk' Hq]]. cbn [fst] in Hk'. subst k'.
          apply filter_In in Hq. destruct Hq as [Hq Hsel]. cbn [fst snd] in Hsel.
          assert (Heq : (k, b'') = (k, b')).
          { exact (nodup_map_eq fst rest _ _ Hnd' Hq Hp eq_refl). }
          injection Heq as ->. rewrite Hk, Hku, Hn in Hsel.
          discriminate.
Qed.

Lemma enumerate_from_fst {A : Type} (k : nat) (l : list A) :
  map fst (enumerate_from k l) = seq k (length l).
Proof. revert k; induction l; intros k; simpl; [reflexivity | rewrite IHl; reflexivity]. Qed.

Lemma enumerate_from_snd {A : Type} (k : nat) (l : list A) :
  map snd (enumerate_from k l) = l.
Proof. revert k; induction l; intros k; simpl; [reflexivity | rewrite IHl; reflexivity]. Qed.

Lemma enumerate_from_length {A : Type} (k : nat) (l : list A) :
  length (enumerate_from k l) = length l.
Proof. revert k; induction l; intros k; simpl; [reflexivity | rewrite IHl; reflexivity]. Qed.

Lemma filter_unused_nil {A : Type} (l : list (nat * A)) :
  filter (fun p => negb (mem (fst p) [])) l = l.
Proof.
  induction l as [|a l IH]; [reflexivity|].
  change (a :: filter (fun p => negb (mem (fst p) [])) l = a :: l).
  rewrite IH. reflexivity.
Qed.

(** ** Claim C4 (amended) *)
(** C4: the merge groups boxes greedily around a seed, not transitively.
    Scanning in detection order, each box not yet grouped opens a group
    holding itself and every later ungrouped box whose centre is within the
    threshold of that first box's centre; the remaining boxes are grouped
    the same way.  (What a group of two or more collapses to is not stated.) *)
Theorem merge_groups_seed_greedy (boxes : list TextBox) (threshold : Z) :
  merge_groups boxes threshold = seed_groups (length boxes) threshold boxes.
Proof.
  unfold merge_groups, enumerate.
  rewrite (outer_loop_spec threshold (enumerate_from 0 boxes) [] (length boxes)).
  - rewrite filter_unused_nil, enumerate_from_snd. reflexivity.
  - rewrite enumerate_from_fst. apply seq_NoDup.
  - rewrite enumerate_from_length. lia.
Qed.

Definition box_at (x : Z) : TextBox :=
  mkTextBox (py "t") (mkBBox x 0 (x + 10) 10) [].

(** C4 counterexample: centres at x = 5, 20, 35 with threshold 20.  A-B and
    B-C are within 20 but A-C is not; the groups are {A,B} and {C}, and the
    merge of {A,B} raises. *)
Lemma merge_not_transitive :
  boxes_nearby (bbox (box_at 0)) (bbox (box_at 15)) 20 = true /\
  boxes_nearby (bbox (box_at 15)) (bbox (box_at 30)) 20 = true /\
  boxes_nearby (bbox (box_at 0)) (bbox (box_at 30)) 20 = false /\
  merge_groups [box_at 0; box_at 15; box_at 30] 20
    = [[box_at 0; box_at 15]; [box_at 30]] /\
  merge_nearby_boxes [box_at 0; box_at 15; box_at 30] 20 = Err AttributeError.
Proof. repeat split; reflexivity. Qed.

Lemma merge_text_boxes_many a b r :
  merge_text_boxes (a :: b :: r) = Err AttributeError.
Proof. reflexivity. Qed.

Lemma filter_nil_negb {A : Type} (P : A -> bool) (l : list A) :
  filter P l = [] -> filter (fun x => negb (P x)) l = l.
Proof.
  induction l as [|a l IH]; simpl; [reflexivity|].
  destruct (P a); simpl; [discriminate|]. intros H. rewrite IH by exact H. reflexivity.
Qed.

Lemma filter_length_le {A : Type} (P : A -> bool) (l : list A) :
  (length (filter P l) <= length l)%nat.
Proof. induction l; simpl; [lia|]. destruct (P a); simpl; lia. Qed.

(** A merge that returns has met only singleton groups. *)
Lemma merge_seed_groups_ok fuel t l m :
  (length l <= fuel)%nat -> mapM merge_group (seed_groups fuel t l) = Ok m -> m = l.
Proof.
  revert l m. induction fuel as [|fuel IH]; intros l m Hl H.
  - destruct l; simpl in Hl; [|lia]. injection H as <-. reflexivity.
  - destruct l as [|b rest]; simpl in H.
    + injection H as <-. reflexivity.
    + destruct (filter (fun b' => boxes_nearby (bbox b) (bbox b') t) rest) as [|c cs] eqn:Hf.
      * simpl in H.
        destruct (mapM merge_group (seed_groups fuel t (filter
                 (fun b' => negb (boxes_nearby (bbox b) (bbox b') t)) rest))) as [ms|e] eqn:Hm;
          simpl in H; [|discriminate].
        injection H as <-. rewrite filter_nil_negb in Hm by exact Hf.
        simpl in Hl. rewrite (IH rest ms ltac:(lia) Hm). reflexivity.
      * simpl in H. discriminate.
Qed.

Lemma merge_nearby_boxes_ok boxes t m :
  merge_nearby_boxes boxes t = Ok m -> m = boxes.
Proof.
  unfold merge_nearby_boxes. destruct boxes as [|b r].
  - intros H. injection H as <-. reflexivity.
  - intros H. unfold merge_groups, enumerate in H.
    rewrite (outer_loop_spec t (enumerate_from 0 (b :: r)) [] (length (b :: r))) in H.
    + rewrite filter_unused_nil, enumerate_from_snd in H.
      exact (merge_seed_groups_ok _ _ _ _ (le_n _) H).
    + rewrite enumerate_from_fst. apply seq_NoDup.
    + rewrite enumerate_from_length. lia.
Qed.

(** ** Claim C5 *)
(** C5: merging is idempotent: applying the merge to the list a merge
    returned, with the same threshold, returns that list unchanged. *)
Theorem merge_idempotent (boxes merged : list TextBox) (threshold : Z) :
  merge_nearby_boxes boxes threshold = Ok merged ->
  merge_nearby_boxes merged threshold = Ok merged.
Proof.
  intros H. pose proof (merge_nearby_boxes_ok _ _ _ H) as ->. exact H.
Qed.

Lemma merge_idempotent_witness :
  merge_nearby_boxes [box_at 0; box_at 100] 20 = Ok [box_at 0; box_at 100] /\
  merge_nearby_boxes [box_at 0; box_at 100] 20 = Ok [box_at 0; box_at 100].
Proof.
  assert (H : merge_nearby_boxes [box_at 0; box_at 100] 20 = Ok [box_at 0; box_at 100])
    by reflexivity.
  split; [exact H | exact (merge_idempotent _ _ _ H)].
Defined.
End MergeProofs.

(* ------------------------------------------------------------------ *)
(** ** Orchestrator: reading order and context markers *)

Module OrchestratorProofs.
Import Orchestrator.

(** *** Decimal markers *)

Lemma uint_codes_digits (u : Decimal.uint) :
  Forall (fun c => is_digit c = true) (uint_codes u).
Proof. induction u; simpl; constructor; auto. Qed.

Lemma py_str_nat_nonempty (n : nat) : py_str_nat n <> [].
Proof.
  unfold py_str_nat; intros H.
  pose proof (DecimalNat.Unsigned.of_to n) as E.
  destruct (Nat.to_uint n) eqn:Hu; try discriminate H.
  simpl in E; subst n; discriminate Hu.
Qed.

Lemma py_int_uint_acc (u : Decimal.uint) (acc : nat) :
  fold_left (fun acc c => acc * 10 + (c - 48)) (uint_codes u) (Z.of_nat acc)
  = Z.of_nat (Nat.of_uint_acc u acc).
Proof.
  revert acc; induction u; intros acc; simpl; try reflexivity;
    rewrite <- IHu; f_equal; rewrite Nat.tail_mul_spec; lia.
Qed.

(** [int(str(n)) == n] *)
Lemma py_int_str_nat (n : nat) : py_int (py_str_nat n) = Z.of_nat n.
Proof.
  unfold py_int, py_str_nat.
  change 0 with (Z.of_nat 0); rewrite py_int_uint_acc.
  f_equal; apply DecimalNat.Unsigned.of_to.
Qed.

Lemma py_str_nat_inj (m n : nat) : py_str_nat m = py_str_nat n -> m = n.
Proof.
  intros H; apply Nat2Z.inj; rewrite <- !py_int_str_nat, H; reflexivity.
Qed.

(** *** String matching *)

Lemma starts_with_spec (p s : pystr) :
  starts_with p s = true <-> exists w, s = p ++ w.
Proof.
  revert s; induction p as [|a p IH]; intros s; simpl.
  - split; [intros _; exists s; reflexivity | reflexivity].
  - destruct s as [|b s].
    + split; [discriminate | intros [w Hw]; discriminate Hw].
    + rewrite andb_true_iff, Z.eqb_eq, IH; split.
      * intros [-> [w ->]]; exists w; reflexivity.
      * intros [w Hw]; injection Hw as -> ->; split; [reflexivity | exists w; reflexivity].
Qed.

Lemma starts_with_app (p w : pystr) : starts_with p (p ++ w) = true.
Proof. apply starts_with_spec; exists w; reflexivity. Qed.

Lemma lazy_until_eq (close s : pystr) :
  lazy_until close s =
  if starts_with close s then Some ([], skipn (length close) s)
  else match s with
       | [] => None
       | c :: r => match lazy_until close r with
                   | Some (body, rest) => Some (c :: body, rest)
                   | None => None
                   end
       end.
Proof. destruct s; reflexivity. Qed.

(** The lazy body stops at the first occurrence of the closing marker,
    whose first character does not occur again in it. *)
Lemma lazy_until_app (close c tail : pystr) (h : Z) (t : pystr) :
  close = h :: t -> ~ In h t ->
  (forall u v, c <> u ++ close ++ v) ->
  lazy_until close (c ++ close ++ tail) = Some (c, tail).
Proof.
  intros Hc Hh. induction c as [|a c IH]; intros Hno.
  - simpl; rewrite lazy_until_eq, starts_with_app, skipn_app, Nat.sub_diag, skipn_all.
    reflexivity.
  - rewrite lazy_until_eq; simpl.
    destruct (starts_with close (a :: c ++ close ++ tail)) eqn:Hs.
    + exfalso. apply starts_with_spec in Hs as [w Hw].
      change (a :: c ++ close ++ tail) with ((a :: c) ++ (close ++ tail)) in Hw.
      apply app_eq_app in Hw as [l [[E1 E2] | [E1 E2]]].
      * apply (Hno [] l); simpl; rewrite E1; reflexivity.
      * destruct l as [|h' l].
        -- apply (Hno [] []); rewrite app_nil_r in E1; simpl; rewrite app_nil_r, E1; reflexivity.
        -- rewrite Hc in E2; simpl in E2; injection E2 as <- _.
           rewrite Hc in E1; simpl in E1; injection E1 as _ E1.
           apply Hh; rewrite E1; apply in_or_app; right; left; reflexivity.
    + rewrite IH; [reflexivity|].
      intros u v E; apply (Hno (a :: u) v); rewrite E; reflexivity.
Qed.

Lemma span_digits_app (d : pystr) (c : Z) (r : pystr) :
  Forall (fun c => is_digit c = true) d -> is_digit c = false ->
  span_digits (d ++ c :: r) = (d, c :: r).
Proof.
  intros Hd Hc; induction Hd as [|a d Ha Hd IH]; simpl.
  - rewrite Hc; reflexivity.
  - rewrite Ha, IH; reflexivity.
Qed.

Lemma not_in_digits (x : Z) (d : pystr) :
  is_digit x = false -> Forall (fun c => is_digit c = true) d -> ~ In x d.
Proof.
  intros Hx Hd Hin; rewrite Forall_forall in Hd; rewrite (Hd x Hin) in Hx; discriminate.
Qed.

Lemma match_marker_marker (i : nat) (c tail : pystr) :
  (forall u v, c <> u ++ marker_close i ++ v) ->
  match_marker (marker i c ++ tail) = Some (py_str_nat i, c, tail).
Proof.
  intros Hno.
  pose proof (uint_codes_digits (Nat.to_uint i)) as Hd.
  change (uint_codes (Nat.to_uint i)) with (py_str_nat i) in Hd.
  unfold marker, marker_open.
  rewrite <- !app_assoc; simpl.
  rewrite span_digits_app by (assumption || reflexivity).
  destruct (py_str_nat i) as [|z zs] eqn:E; [destruct (py_str_nat_nonempty i E)|].
  rewrite <- E in Hd |- *; simpl.
  change (91 :: 47 :: (py_str_nat i ++ [93]) ++ tail) with (marker_close i ++ tail).
  change (91 :: 47 :: py_str_nat i ++ [93]) with (marker_close i).
  rewrite lazy_until_app with (h := 91) (t := 47 :: py_str_nat i ++ [93]); try reflexivity.
  - intros [H | H]; [discriminate H|].
    apply in_app_or in H as [H | [H | []]]; [|discriminate H].
    exact (not_in_digits 91 _ eq_refl Hd H).
  - exact Hno.
Qed.

Lemma marker_length (i : nat) (c : pystr) : (2 <= length (marker i c))%nat.
Proof. unfold marker, marker_open; rewrite !length_app; simpl; lia. Qed.

Lemma findall_aux_nil (fuel : nat) : findall_aux fuel [] = [].
Proof. destruct fuel; reflexivity. Qed.

Lemma match_marker_space (s : pystr) : match_marker (32 :: s) = None.
Proof. reflexivity. Qed.

Lemma findall_aux_cons (f : nat) (s : pystr) :
  s <> [] ->
  findall_aux (S f) s =
  match match_marker s with
  | Some (d, body, rest) => (d, body) :: findall_aux f rest
  | None => findall_aux f (tl s)
  end.
Proof. destruct s; [intros H; destruct (H eq_refl) | reflexivity]. Qed.

(** Scanning the echoed markers, separated by one space, finds exactly the
    markers, in order. *)
Lemma findall_aux_markers (cs : list pystr) (k fuel : nat) :
  (forall i c u v, nth_error cs i = Some c -> c <> u ++ marker_close (k + i) ++ v) ->
  (length (py_join (py " ") (map (fun '(i, c) => marker i c) (enumerate_from k cs))) <= fuel)%nat ->
  findall_aux fuel (py_join (py " ") (map (fun '(i, c) => marker i c) (enumerate_from k cs)))
  = map (fun '(i, c) => (py_str_nat i, c)) (enumerate_from k cs).
Proof.
  revert k fuel; induction cs as [|c cs IH]; intros k fuel Hno Hf.
  - apply findall_aux_nil.
  - assert (Hc : forall u v, c <> u ++ marker_close k ++ v).
    { intros u v; pose proof (Hno 0%nat c u v eq_refl) as H; rewrite Nat.add_0_r in H; exact H. }
    assert (Hno' : forall i c' u v, nth_error cs i = Some c' ->
                   c' <> u ++ marker_close (S k + i) ++ v).
    { intros i c' u v Hi; replace (S k + i)%nat with (k + S i)%nat by lia; exact (Hno (S i) c' u v Hi). }
    pose proof (marker_length k c) as Hm.
    assert (Hne : forall tail, marker k c ++ tail <> []).
    { intros tail H; apply (f_equal (@length Z)) in H; rewrite length_app in H; simpl in H; lia. }
    destruct cs as [|c' cs].
    + simpl in Hf |- *.
      destruct fuel as [|f]; [lia|].
      rewrite <- (app_nil_r (marker k c)) at 1.
      rewrite findall_aux_cons by apply Hne.
      rewrite match_marker_marker by exact Hc.
      rewrite findall_aux_nil; reflexivity.
    + change (enumerate_from k (c :: c' :: cs)) with ((k, c) :: enumerate_from (S k) (c' :: cs)) in Hf |- *.
      change (map (fun '(i, c) => marker i c) ((k, c) :: enumerate_from (S k) (c' :: cs)))
        with (marker k c :: map (fun '(i, c) => marker i c) (enumerate_from (S k) (c' :: cs)))
        in Hf |- *.
      set (rest := map (fun '(i, c) => marker i c) (enumerate_from (S k) (c' :: cs))) in Hf |- *.
      assert (Hr : py_join (py " ") (marker k c :: rest)
                   = marker k c ++ 32 :: py_join (py " ") rest)
        by (subst rest; reflexivity).
      rewrite Hr in Hf |- *.
      rewrite length_app in Hf; cbn [length] in Hf.
      destruct fuel as [|f]; [lia|].
      rewrite findall_aux_cons by apply Hne.
      rewrite match_marker_marker by exact Hc.
      destruct f as [|f]; [lia|].
      rewrite findall_aux_cons by discriminate.
      rewrite match_marker_space; cbn [tl map].
      f_equal. subst rest. apply IH; [exact Hno'|].
      lia.
Qed.

Lemma findall_markers (cs : list pystr) :
  (forall i c u v, nth_error cs i = Some c -> c <> u ++ marker_close i ++ v) ->
  findall (py_join (py " ") (map (fun '(i, c) => marker i c) (enumerate cs)))
  = map (fun '(i, c) => (py_str_nat i, c)) (enumerate cs).
Proof. intros H; apply findall_aux_markers; [exact H | apply Nat.le_refl]. Qed.

(** *** The translations dict *)

Lemma translations_fold (cs : list pystr) (j : nat) (m : Z -> option pystr) (k : nat) :
  fold_left (fun m '(idx, t) => fun k => if k =? py_int idx then Some (py_strip t) else m k)
            (map (fun '(i, c) => (py_str_nat i, c)) (enumerate_from j cs)) m (Z.of_nat k)
  = if (k <? j)%nat then m (Z.of_nat k)
    else match nth_error cs (k - j) with
         | Some c => Some (py_strip c)
         | None => m (Z.of_nat k)
         end.
Proof.
  revert j m; induction cs as [|c cs IH]; intros j m.
  - simpl; destruct (k <? j)%nat; [reflexivity|]; destruct (k - j)%nat; reflexivity.
  - cbn [enumerate_from map fold_left]. rewrite IH, py_int_str_nat.
    destruct (Nat.ltb_spec k (S j)), (Nat.ltb_spec k j).
    + destruct (Z.eqb_spec (Z.of_nat k) (Z.of_nat j)); [lia | reflexivity].
    + replace (k - j)%nat with 0%nat by lia; simpl.
      destruct (Z.eqb_spec (Z.of_nat k) (Z.of_nat j)); [reflexivity | lia].
    + lia.
    + replace (k - j)%nat with (S (k - S j)) by lia; simpl.
      destruct (nth_error cs (k - S j)); [reflexivity|].
      destruct (Z.eqb_spec (Z.of_nat k) (Z.of_nat j)); [lia | reflexivity].
Qed.

Lemma translations_markers (cs : list pystr) (k : nat) :
  translations_dict (map (fun '(i, c) => (py_str_nat i, c)) (enumerate cs)) (Z.of_nat k)
  = option_map py_strip (nth_error cs k).
Proof.
  unfold translations_dict, enumerate; rewrite translations_fold.
  rewrite Nat.sub_0_r; simpl; destruct (nth_error cs k); reflexivity.
Qed.

(** *** In-place updates through the sorted references *)

Lemma modify_at_same (st : list TextBox) (r : ref) (f : TextBox -> TextBox) :
  nth_error (modify_at st r f) r = option_map f (nth_error st r).
Proof. revert r; induction st; intros [|r]; simpl; auto. Qed.

Lemma modify_at_other (st : list TextBox) (r r' : ref) (f : TextBox -> TextBox) :
  r' <> r -> nth_error (modify_at st r f) r' = nth_error st r'.
Proof.
  revert r r'; induction st; intros [|r] [|r'] H; simpl; auto; try congruence.
Qed.

Lemma modify_at_length (st : list TextBox) (r : ref) (f : TextBox -> TextBox) :
  length (modify_at st r f) = length st.
Proof. revert r; induction st; intros [|r]; simpl; auto. Qed.

Section UpdateFold.

Variable step : list TextBox -> nat * (ref * TextBox) -> list TextBox.
Variable upd : nat -> TextBox -> TextBox.
Hypothesis step_modify : forall st i r b, step st (i, (r, b)) = modify_at st r (upd i).

Lemma fold_modify_length (ps : list (nat * (ref * TextBox))) (st : list TextBox) :
  length (fold_left step ps st) = length st.
Proof.
  revert st; induction ps as [|[i [r b]] ps IH]; intros st; simpl; [reflexivity|].
  rewrite IH, step_modify; apply modify_at_length.
Qed.

Lemma fold_modify_other (ps : list (nat * (ref * TextBox))) (st : list TextBox) (r : ref) :
  ~ In r (map (fun p => fst (snd p)) ps) ->
  nth_error (fold_left step ps st) r = nth_error st r.
Proof.
  revert st; induction ps as [|[i [r' b]] ps IH]; intros st Hr; simpl in *; [reflexivity|].
  rewrite IH by tauto. rewrite step_modify; apply modify_at_other; intuition.
Qed.

Lemma fold_modify_at (ps : list (nat * (ref * TextBox))) (st : list TextBox)
    (i : nat) (r : ref) (b tb : TextBox) :
  NoDup (map (fun p => fst (snd p)) ps) -> In (i, (r, b)) ps ->
  nth_error st r = Some tb ->
  nth_error (fold_left step ps st) r = Some (upd i tb).
Proof.
  revert st; induction ps as [|[i' [r' b']] ps IH]; intros st Hnd Hin Hst; [destruct Hin|].
  simpl in Hnd |- *; inversion Hnd as [|x l Hnot Hnd' Hx]; subst.
  destruct Hin as [Heq | Hin].
  - injection Heq as <- <- <-.
    rewrite fold_modify_other by exact Hnot.
    rewrite step_modify, modify_at_same, Hst; reflexivity.
  - apply IH; [exact Hnd' | exact Hin|].
    rewrite step_modify, modify_at_other; [exact Hst|].
    intros <-; apply Hnot; apply in_map_iff; exists (i, (r, b)); auto.
Qed.

End UpdateFold.

(** *** The stable sort *)

Lemma insert_by_key_perm key p l : Permutation (insert_by_key key p l) (p :: l).
Proof.
  induction l as [|q l IH]; simpl; [reflexivity|].
  destruct (key_lt _ _); [reflexivity|].
  rewrite IH; apply perm_swap.
Qed.

Lemma sorted_by_perm_acc key ps acc :
  Permutation (fold_left (fun acc p => insert_by_key key p acc) ps acc) (ps ++ acc).
Proof.
  revert acc; induction ps as [|p ps IH]; intros acc; simpl; [reflexivity|].
  rewrite IH, insert_by_key_perm; symmetry; apply Permutation_middle.
Qed.

Lemma sort_perm (store : list TextBox) :
  Permutation (sort_text_boxes_reading_order store) (enumerate store).
Proof.
  unfold sort_text_boxes_reading_order, sorted_by.
  rewrite sorted_by_perm_acc, app_nil_r; reflexivity.
Qed.

Lemma in_enumerate_from {A : Type} (k : nat) (l : list A) (r : nat) (x : A) :
  In (r, x) (enumerate_from k l) -> (k <= r)%nat /\ nth_error l (r - k) = Some x.
Proof.
  revert k; induction l as [|y l IH]; intros k H; [destruct H|].
  destruct H as [H | H].
  - injection H as <- <-; rewrite Nat.sub_diag; auto.
  - apply IH in H as [H1 H2]; split; [lia|].
    replace (r - k)%nat with (S (r - S k)) by lia; exact H2.
Qed.

Lemma nth_in_enumerate_from {A : Type} (k : nat) (l : list A) (i : nat) (x : A) :
  nth_error l i = Some x -> In (k + i, x)%nat (enumerate_from k l).
Proof.
  revert k i; induction l as [|y l IH]; intros k [|i] H; try discriminate H.
  - injection H as <-; left; f_equal; lia.
  - right; replace (k + S i)%nat with (S k + i)%nat by lia; apply IH; exact H.
Qed.

Lemma sorted_ref_nodup (store : list TextBox) :
  NoDup (map fst (sort_text_boxes_reading_order store)).
Proof.
  eapply Permutation_NoDup; [symmetry; apply Permutation_map, sort_perm|].
  unfold enumerate; rewrite MergeProofs.enumerate_from_fst; apply seq_NoDup.
Qed.

Lemma sorted_ref_at (store : list TextBox) (r : ref) (b : TextBox) :
  In (r, b) (sort_text_boxes_reading_order store) -> nth_error store r = Some b.
Proof.
  intros H; eapply Permutation_in in H; [|apply sort_perm].
  apply in_enumerate_from in H as [_ H]; rewrite Nat.sub_0_r in H; exact H.
Qed.

Lemma sorted_box_in (store : list TextBox) (b : TextBox) :
  In b (map snd (sort_text_boxes_reading_order store)) -> In b store.
Proof.
  intros H; apply in_map_iff in H as [[r b'] [<- H]].
  apply sorted_ref_at in H; eapply nth_error_In; exact H.
Qed.

Lemma pack_nonblank (l : list (nat * TextBox)) :
  (forall p, In p l -> is_empty (py_strip (text (snd p))) = false) ->
  flat_map (fun '(i, text_box) =>
              if is_empty (py_strip (text text_box)) then []
              else [marker i (text text_box)]) l
  = map (fun '(i, b) => marker i (text b)) l.
Proof.
  induction l as [|[i b] l IH]; intros H; simpl; [reflexivity|].
  pose proof (H (i, b) (or_introl eq_refl)) as Hb; simpl in Hb; rewrite Hb; simpl; f_equal.
  apply IH; intros p Hp; apply H; right; exact Hp.
Qed.

(** C2 (amended).  Packing puts [[i]text[/i]] for the box at position [i]
    of the reading order, joined by single spaces.  When the provider
    echoes the same markers with contents [c_i], none of which contains its
    own closing marker [[/i]], unpacking gives the box at position [i] of
    the reading order the content [c_i] with surrounding whitespace
    stripped, or the box's original text when that stripped content is
    blank.  The assignment lands on the caller's box that the sorted entry
    refers to, and no box is added or removed. *)
Theorem marker_round_trip (store : list TextBox) (cs : list pystr) :
  (forall b, In b store -> is_empty (py_strip (text b)) = false) ->
  length cs = length store ->
  (forall i c u v, nth_error cs i = Some c -> c <> u ++ marker_close i ++ v) ->
  combine_text_for_context store
  = py_join (py " ") (map (fun '(i, b) => marker i (text b))
                          (enumerate (map snd (sort_text_boxes_reading_order store))))
  /\ exists store',
       distribute_translated_text store
         (Some (py_join (py " ") (map (fun '(i, c) => marker i c) (enumerate cs))))
       = Ok store'
       /\ length store' = length store
       /\ forall i r b c,
            nth_error (sort_text_boxes_reading_order store) i = Some (r, b) ->
            nth_error cs i = Some c ->
            nth_error store r = Some b
            /\ nth_error store' r
               = Some (set_translated_text b
                         (if is_empty (py_strip c) then text b else py_strip c)).
Proof.
  intros Hblank _ Hno; split.
  - unfold combine_text_for_context; f_equal; apply pack_nonblank.
    intros [i b] Hp; apply Hblank, sorted_box_in.
    apply (in_map snd) in Hp; unfold enumerate in Hp.
    rewrite MergeProofs.enumerate_from_snd in Hp; exact Hp.
  - eexists; split; [unfold distribute_translated_text; reflexivity|].
    set (tr := translations_dict
                 (findall (py_join (py " ") (map (fun '(i, c) => marker i c) (enumerate cs))))).
    pose (upd := fun i tb =>
                   match tr (Z.of_nat i) with
                   | Some t => if is_empty t then set_translated_text tb (text tb)
                               else set_translated_text tb t
                   | None => set_translated_text tb (text tb)
                   end).
    match goal with
    | |- context [fold_left ?stp (enumerate _) store] =>
        assert (Hstep : forall st i r b, stp st (i, (r, b)) = modify_at st r (upd i))
    end.
    { intros st i r b; simpl; unfold upd.
      destruct (tr (Z.of_nat i)) as [t|]; [destruct (is_empty t)|]; reflexivity. }
    split; [apply (fold_modify_length _ upd Hstep)|].
    intros i r b c Hs Hc.
    assert (Hr : nth_error store r = Some b)
      by (apply sorted_ref_at; eapply nth_error_In; exact Hs).
    split; [exact Hr|].
    rewrite (fold_modify_at _ upd Hstep _ _ i r b b); [| | | exact Hr].
    + unfold upd, tr; rewrite findall_markers by exact Hno.
      rewrite translations_markers, Hc; simpl.
      destruct (is_empty (py_strip c)); reflexivity.
    + rewrite <- map_map; unfold enumerate; rewrite MergeProofs.enumerate_from_snd.
      apply sorted_ref_nodup.
    + apply (nth_in_enumerate_from 0); exact Hs.
Qed.

(** Two boxes on one row, [A] on the left and [B] on the right. *)
Definition box_A : TextBox := mkTextBox (py "A") (mkBBox 0 0 10 10) [].
Definition box_B : TextBox := mkTextBox (py "B") (mkBBox 100 0 110 10) [].

Lemma no_close_small (cs : list pystr) :
  (forall c, In c cs -> (length c < 4)%nat) ->
  forall i c u v, nth_error cs i = Some c -> c <> u ++ marker_close i ++ v.
Proof.
  intros Hs i c u v Hi E.
  pose proof (Hs c (nth_error_In cs i Hi)) as Hc.
  apply (f_equal (@length Z)) in E.
  unfold marker_close in E; rewrite !length_app in E.
  pose proof (py_str_nat_nonempty i) as Hne.
  destruct (py_str_nat i); [contradiction|]; simpl in E; lia.
Qed.

Lemma marker_round_trip_witness :
  (forall b, In b [box_A; box_B] -> is_empty (py_strip (text b)) = false)
  /\ length [[12354]; [12403]] = length [box_A; box_B]
  /\ (forall i c u v, nth_error [[12354]; [12403]] i = Some c -> c <> u ++ marker_close i ++ v)
  /\ (combine_text_for_context [box_A; box_B]
      = py_join (py " ") (map (fun '(i, b) => marker i (text b))
                     (enumerate (map snd (sort_text_boxes_reading_order [box_A; box_B]))))
      /\ exists store',
           distribute_translated_text [box_A; box_B]
             (Some (py_join (py " ") (map (fun '(i, c) => marker i c)
                                          (enumerate [[12354]; [12403]]))))
           = Ok store'
           /\ length store' = length [box_A; box_B]
           /\ forall i r b c,
                nth_error (sort_text_boxes_reading_order [box_A; box_B]) i = Some (r, b) ->
                nth_error [[12354]; [12403]] i = Some c ->
                nth_error [box_A; box_B] r = Some b
                /\ nth_error store' r
                   = Some (set_translated_text b
                             (if is_empty (py_strip c) then text b else py_strip c))).
Proof.
  assert (H1 : forall b, In b [box_A; box_B] -> is_empty (py_strip (text b)) = false)
    by (intros b [<- | [<- | []]]; reflexivity).
  assert (H2 : length [[12354]; [12403]] = length [box_A; box_B]) by reflexivity.
  assert (H3 : forall i c u v, nth_error [[12354]; [12403]] i = Some c ->
                               c <> u ++ marker_close i ++ v)
    by (apply no_close_small; intros c [<- | [<- | []]]; simpl; lia).
  split; [exact H1|]; split; [exact H2|]; split; [exact H3|].
  exact (marker_round_trip _ _ H1 H2 H3).
Defined.

(** C2 (as stated).  Unpacking does not assign the content between the
    markers as it is: [text.strip()] removes the space of [[0] x[/0]], and
    a blank content gives the box its original text. *)
Lemma marker_content_stripped :
  combine_text_for_context [box_A; box_B] = py "[0]A[/0] [1]B[/1]"
  /\ distribute_translated_text [box_A; box_B] (Some (py "[0] x[/0] [1]y[/1]"))
     = Ok [set_translated_text box_A (py "x"); set_translated_text box_B (py "y")]
  /\ py "x" <> py " x"
  /\ distribute_translated_text [box_A; box_B] (Some (py "[0] [/0] [1]y[/1]"))
     = Ok [set_translated_text box_A (py "A"); set_translated_text box_B (py "y")].
Proof.
  split; [vm_compute; reflexivity|]; split; [vm_compute; reflexivity|].
  split; [discriminate | vm_compute; reflexivity].
Qed.

(** *** Reading order *)

(** The order the sort produces: [(bbox.y1, bbox.x1)] ascending, ties
    kept in the caller's order. *)
Definition reading_le (p q : ref * TextBox) : bool :=
  let a := (y1 (bbox (snd p)), x1 (bbox (snd p))) in
  let b := (y1 (bbox (snd q)), x1 (bbox (snd q))) in
  key_lt a b || ((fst a =? fst b) && (snd a =? snd b) && (fst p <=? fst q)%nat).

(** The key the spec describes, for a text of language [language]. *)
Definition spec_sort_key (language : string) (tb : TextBox) : Z * Z :=
  let y_pos := y1 (bbox tb) in
  let x_pos := x1 (bbox tb) in
  if str_in language ["japanese"%string; "trad_chinese"%string; "sim_chinese"%string]
  then (y_pos, - x_pos) else (y_pos, x_pos).

Definition spec_reading_order (language : string) (text_boxes : list TextBox)
    : list (ref * TextBox) :=
  sorted_by (spec_sort_key language) (enumerate text_boxes).

Lemma get_sort_key_eq (b : TextBox) : get_sort_key b = (y1 (bbox b), x1 (bbox b)).
Proof. reflexivity. Qed.

Lemma key_lt_total (a b : Z * Z) :
  key_lt a b = false -> key_lt b a = true \/ (fst a = fst b /\ snd a = snd b).
Proof.
  destruct a as [a1 a2], b as [b1 b2]; unfold key_lt; simpl; intros Hk; revert Hk.
  destruct (Z.ltb_spec a1 b1), (Z.ltb_spec b1 a1), (Z.eqb_spec a1 b1), (Z.eqb_spec b1 a1),
    (Z.ltb_spec a2 b2), (Z.ltb_spec b2 a2); simpl; intros Hk; try discriminate;
    first [left; reflexivity | right; split; lia | lia].
Qed.

Lemma reading_le_after (p q : ref * TextBox) :
  key_lt (get_sort_key (snd p)) (get_sort_key (snd q)) = false -> (fst q < fst p)%nat ->
  reading_le q p = true.
Proof.
  rewrite !get_sort_key_eq; intros H Hlt; unfold reading_le.
  destruct (key_lt_total _ _ H) as [H' | [E1 E2]]; [rewrite H'; reflexivity|].
  simpl in E1, E2; rewrite E1, E2; simpl; rewrite !Z.eqb_refl.
  replace (fst q <=? fst p)%nat with true by (symmetry; apply Nat.leb_le; lia).
  apply orb_true_r.
Qed.

Lemma insert_sorted (p : ref * TextBox) (l : list (ref * TextBox)) :
  Sorted (fun p q => reading_le p q = true) l ->
  (forall q, In q l -> (fst q < fst p)%nat) ->
  Sorted (fun p q => reading_le p q = true) (insert_by_key get_sort_key p l).
Proof.
  induction l as [|q l IH]; intros Hs Hlt; simpl; [constructor; auto|].
  destruct (key_lt (get_sort_key (snd p)) (get_sort_key (snd q))) eqn:E.
  - constructor; [exact Hs|]; constructor.
    unfold reading_le; rewrite !get_sort_key_eq in E; rewrite E; reflexivity.
  - inversion Hs as [|x y Hs' Hhd]; subst.
    assert (Hqp : reading_le q p = true)
      by (apply reading_le_after; [exact E | apply Hlt; left; reflexivity]).
    constructor.
    + apply IH; [exact Hs' | intros q' Hq'; apply Hlt; right; exact Hq'].
    + destruct l as [|q' l']; simpl; [constructor; exact Hqp|].
      destruct (key_lt (get_sort_key (snd p)) (get_sort_key (snd q'))); constructor; [exact Hqp|].
      inversion Hhd; assumption.
Qed.

Lemma sorted_by_sorted (ps acc : list (ref * TextBox)) :
  StronglySorted (fun p q => (fst p < fst q)%nat) ps ->
  (forall q p, In q acc -> In p ps -> (fst q < fst p)%nat) ->
  Sorted (fun p q => reading_le p q = true) acc ->
  Sorted (fun p q => reading_le p q = true)
         (fold_left (fun acc p => insert_by_key get_sort_key p acc) ps acc).
Proof.
  revert acc; induction ps as [|p ps IH]; intros acc Hss Hacc Hs; simpl; [exact Hs|].
  inversion Hss as [|x y Hss' Hall]; subst.
  apply IH; [exact Hss'| |].
  - intros q p' Hq Hp'.
    apply (Permutation_in _ (insert_by_key_perm _ _ _)) in Hq as [<- | Hq].
    + rewrite Forall_forall in Hall; exact (Hall p' Hp').
    + apply Hacc; [exact Hq | right; exact Hp'].
  - apply insert_sorted; [exact Hs|].
    intros q Hq; apply Hacc; [exact Hq | left; reflexivity].
Qed.

Lemma enumerate_from_strongly_sorted {A : Type} (k : nat) (l : list A) :
  StronglySorted (fun p q => (fst p < fst q)%nat) (enumerate_from k l).
Proof.
  revert k; induction l as [|x l IH]; intros k; simpl; constructor; [apply IH|].
  apply Forall_forall; intros [r y] H; apply in_enumerate_from in H as [H _]; simpl; lia.
Qed.

(** C7 (what the code does).  [TextBox] has no [language] field, so the
    [hasattr(text_box, 'language')] test in [get_sort_key] is always false
    and the key is [(bbox.y1, bbox.x1)] for every box: the reading order is
    the same boxes sorted by [y1] and then [x1], both ascending, whatever
    the language, with ties kept in detection order.  The right-to-left
    branch that the docstring promises for Japanese and Chinese is dead. *)
Theorem reading_order_sorted (store : list TextBox) :
  Permutation (sort_text_boxes_reading_order store) (enumerate store)
  /\ Sorted (fun p q => reading_le p q = true) (sort_text_boxes_reading_order store)
  /\ forall b, In b store -> get_sort_key b = (y1 (bbox b), x1 (bbox b)).
Proof.
  split; [apply sort_perm|]; split; [|intros b _; apply get_sort_key_eq].
  unfold sort_text_boxes_reading_order, sorted_by.
  apply sorted_by_sorted; [apply enumerate_from_strongly_sorted | intros q p [] | constructor].
Qed.

(** Two boxes on one row of a Japanese page, at [x1 = 10] and [x1 = 50]. *)
Definition box_left : TextBox := mkTextBox (py "L") (mkBBox 10 0 40 20) [].
Definition box_right : TextBox := mkTextBox (py "R") (mkBBox 50 0 80 20) [].

(** C7 (failing input).  For a Japanese page the intended order puts the
    right box first; the sort puts the left box first, and packs it as
    marker [0]. *)
Lemma reading_order_not_rtl :
  spec_reading_order "japanese"%string [box_left; box_right] = [(1%nat, box_right); (0%nat, box_left)]
  /\ sort_text_boxes_reading_order [box_left; box_right] = [(0%nat, box_left); (1%nat, box_right)]
  /\ combine_text_for_context [box_left; box_right] = py "[0]L[/0] [1]R[/1]".
Proof.
  split; [vm_compute; reflexivity|]; split; vm_compute; reflexivity.
Qed.

End OrchestratorProofs.

(* ------------------------------------------------------------------ *)
(** ** Orchestrator: recoverable translation failure *)

Module PipelineProofs.
Import Orchestrator.

Lemma keep_original_text_fresh (boxes : list TextBox) :
  (forall b, In b boxes -> translated_text b = []) ->
  keep_original_text boxes = map (fun b => set_translated_text b (text b)) boxes.
Proof.
  induction boxes as [|b boxes IH]; intros H; simpl; [reflexivity|].
  rewrite (H b (or_introl eq_refl)), IH; [reflexivity|].
  intros b' Hb'; apply H; right; exact Hb'.
Qed.

(** C1.  When OCR yields boxes, still untranslated as they come out of the
    OCR services, and the translation call raises or returns [None] (every
    provider failed), every box's [translated_text] becomes its original
    [text] and the run goes through translation, inpainting and rendering
    to [COMPLETED], returning an image and the boxes. *)
Theorem translation_failure_recovered (Img : Type)
    (extract_text : Img -> Language -> result (list TextBox))
    (translate : pystr -> string -> string -> result (option pystr))
    (inpaint_textbox : Img -> TextBox -> result Img)
    (render_text : Img -> TextBox -> Language -> result Img)
    (image : Img) (request : TranslationRequest) (boxes : list TextBox) :
  extract_text image (source_language request) = Ok boxes ->
  boxes <> [] ->
  (forall b, In b boxes -> translated_text b = []) ->
  (translate (combine_text_for_context boxes) (lang_value (source_language request))
             (lang_value (target_language request)) = Ok None
   \/ exists e, translate (combine_text_for_context boxes) (lang_value (source_language request))
                          (lang_value (target_language request)) = Err e) ->
  exists final_image,
    process_manga_translation Img extract_text translate inpaint_textbox render_text image request
    = ([INITIALIZED; OCR; TRANSLATION; INPAINTING; RENDERING; COMPLETED],
       Ok (final_image, map (fun b => set_translated_text b (text b)) boxes)).
Proof.
  intros Hocr Hne Hfresh Htr.
  unfold process_manga_translation; rewrite Hocr.
  destruct boxes as [|b0 bs]; [contradiction|].
  assert (Htb : translate_text_boxes translate (b0 :: bs) request
                = map (fun b => set_translated_text b (text b)) (b0 :: bs)).
  { unfold translate_text_boxes.
    destruct Htr as [Htr | [e Htr]]; rewrite Htr;
      [unfold distribute_translated_text, simple_text_distribution|];
      apply keep_original_text_fresh; exact Hfresh. }
  rewrite Htb; eexists; reflexivity.
Qed.

(** A page with one box [こんにちは], every provider failing. *)
Definition konnichiwa : TextBox :=
  mkTextBox [12371; 12435; 12395; 12385; 12399] (mkBBox 0 0 100 40) [].

Lemma translation_failure_recovered_witness :
  exists final_image : unit,
    process_manga_translation unit (fun _ _ => Ok [konnichiwa]) (fun _ _ _ => Ok None)
      (fun im _ => Ok im) (fun im _ _ => Ok im) tt (mkRequest JAPANESE ENGLISH)
    = ([INITIALIZED; OCR; TRANSLATION; INPAINTING; RENDERING; COMPLETED],
       Ok (final_image, [set_translated_text konnichiwa (text konnichiwa)])).
Proof.
  apply (translation_failure_recovered unit (fun _ _ => Ok [konnichiwa]) (fun _ _ _ => Ok None)
           (fun im _ => Ok im) (fun im _ _ => Ok im) tt (mkRequest JAPANESE ENGLISH) [konnichiwa]).
  - reflexivity.
  - discriminate.
  - intros b [<- | []]; reflexivity.
  - left; reflexivity.
Defined.

End PipelineProofs.

(* ------------------------------------------------------------------ *)
(** ** Translation engine: alignment of batch results *)

Module TranslateProofs.
Import Translate.

Lemma py_getitem_ok {A : Type} (xs : list A) (i : nat) :
  (i < length xs)%nat -> exists x, py_getitem xs i = Ok x /\ In x xs.
Proof.
  intros H; unfold py_getitem.
  destruct (nth_error xs i) as [x|] eqn:E.
  - exists x; split; [reflexivity | eapply nth_error_In; exact E].
  - apply nth_error_None in E; lia.
Qed.

Lemma py_setitem_ok {A : Type} (xs : list A) (i : nat) (v : A) :
  (i < length xs)%nat -> exists ys, py_setitem xs i v = Ok ys /\ length ys = length xs.
Proof.
  revert i; induction xs as [|x xs IH]; intros [|i] H; simpl in H; try lia.
  - exists (v :: xs); split; reflexivity.
  - destruct (IH i ltac:(lia)) as [ys [E L]].
    exists (x :: ys); simpl; rewrite E; split; [reflexivity | simpl; lia].
Qed.

Lemma foldM_inv {A B : Type} (P : A -> Prop) (f : A -> B -> result A) (l : list B) (a : A) :
  P a -> (forall x b, In b l -> P x -> exists y, f x b = Ok y /\ P y) ->
  exists y, foldM f l a = Ok y /\ P y.
Proof.
  unfold foldM; intros Ha Hf.
  assert (G : forall acc, (exists x, acc = Ok x /\ P x) ->
            exists y, fold_left (fun acc b => let* x := acc in f x b) l acc = Ok y /\ P y).
  { induction l as [|b l IH]; intros acc [x [-> Hx]]; simpl; [exists x; auto|].
    destruct (Hf x b (or_introl eq_refl) Hx) as [y [Ey Hy]].
    apply IH; [intros x' b' Hb'; apply Hf; right; exact Hb'|].
    exists y; split; [exact Ey | exact Hy]. }
  apply G; exists a; auto.
Qed.

Lemma mapM_ok {A B : Type} (f : A -> result B) (l : list A) :
  (forall x, In x l -> exists y, f x = Ok y) ->
  exists ys, mapM f l = Ok ys /\ length ys = length l.
Proof.
  induction l as [|x l IH]; intros H; simpl; [exists []; auto|].
  destruct (H x (or_introl eq_refl)) as [y Ey]; rewrite Ey; simpl.
  destruct IH as [ys [Eys Lys]]; [intros x' Hx'; apply H; right; exact Hx'|].
  rewrite Eys; simpl; exists (y :: ys); split; [reflexivity | simpl; lia].
Qed.

Lemma fit_length_length (n : nat) (ts : list pystr) : length (fit_length n ts) = n.
Proof.
  unfold fit_length.
  destruct (Nat.ltb_spec (length ts) n); [rewrite length_app, repeat_length; lia|].
  destruct (Nat.ltb_spec n (length ts)); [rewrite length_firstn; lia | lia].
Qed.

Lemma retry_loop_ok (T : Translator) (from_lang to_lang : string) (fuel : nat) :
  forall attempt qtt trs untr,
  length trs = length qtt -> (forall j, In j untr -> (j < length qtt)%nat) ->
  exists qtt' trs',
    retry_loop T from_lang to_lang attempt fuel qtt trs untr = Ok (qtt', trs')
    /\ length qtt' = length qtt /\ length trs' = length qtt.
Proof.
  induction fuel as [|fuel IH]; intros attempt qtt trs untr Ht Hu; simpl.
  { exists qtt, trs; auto. }
  destruct (_translate T attempt from_lang to_lang qtt) as [raw|e]; [|exists qtt, trs; auto].
  destruct (foldM_inv (fun trs' => length trs' = length qtt)
              (fun trs j => let* v := py_getitem (fit_length (length qtt) raw) j in
                            py_setitem trs j v) untr trs Ht)
    as [trs' [E1 L1]].
  { intros x j Hj Lx.
    destruct (py_getitem_ok (fit_length (length qtt) raw) j) as [v [Ev _]];
      [rewrite fit_length_length; apply Hu; exact Hj|].
    rewrite Ev; simpl; destruct (py_setitem_ok x j v) as [y [Ey Ly]]; [rewrite Lx; apply Hu; exact Hj|].
    exists y; split; [exact Ey | lia]. }
  rewrite E1; simpl.
  destruct (INVALID_REPEAT_COUNT T =? 0)%nat; [exists qtt, trs'; auto|].
  match goal with
  | |- context [foldM ?g untr ([], qtt)] =>
      destruct (foldM_inv (fun '(nu, qs) => length qs = length qtt /\ forall j, In j nu -> In j untr)
                  g untr ([], qtt) (conj eq_refl (fun j (H : In j []) => False_ind _ H)))
        as [[nu qs] [E2 [L2 H2]]]
  end.
  { intros [nu qs] j Hj [Lq Hn].
    destruct (py_getitem_ok qs j) as [q [Eq _]]; [rewrite Lq; apply Hu; exact Hj|].
    destruct (py_getitem_ok trs' j) as [t [Et _]]; [rewrite L1; apply Hu; exact Hj|].
    rewrite Eq, Et; simpl.
    destruct (_is_translation_invalid T q t).
    - destruct (py_setitem_ok qs j (_modify_invalid_translation_query T q t)) as [qs' [Eq' Lq']];
        [rewrite Lq; apply Hu; exact Hj|].
      rewrite Eq'; simpl; exists (nu ++ [j], qs'); split; [reflexivity|].
      split; [lia|]; intros j' Hj'; apply in_app_or in Hj' as [Hj' | [<- | []]]; auto.
    - exists (nu, qs); split; [reflexivity | split; auto]. }
  rewrite E2; simpl.
  destruct (is_empty nu); [exists qs, trs'; auto|].
  destruct (IH (S attempt) qs trs' nu) as [q' [t' [E3 [L3 L3']]]]; [lia | intros j Hj; rewrite L2; apply Hu, H2, Hj|].
  exists q', t'; split; [exact E3 | lia].
Qed.

Lemma normalize_lang_value (l : Language) : normalize_language_code (lang_value l) = lang_value l.
Proof. destruct l; reflexivity. Qed.

Lemma supported_lang_value (l : Language) : str_in (lang_value l) SUPPORTED_LANGUAGES = true.
Proof. destruct l; reflexivity. Qed.

Lemma query_indices_bound (queries : list pystr) (i : nat) :
  In i (map fst (filter (fun p => is_valuable_text (snd p)) (enumerate queries))) ->
  (i < length queries)%nat.
Proof.
  intros H; apply in_map_iff in H as [[i' q] [<- H]].
  apply filter_In in H as [H _]; apply OrchestratorProofs.in_enumerate_from in H as [_ H].
  simpl; rewrite Nat.sub_0_r in H; apply nth_error_Some; congruence.
Qed.

(** [BaseTranslator.translate] answers one entry per query. *)
Lemma base_translate_length (T : Translator) (l1 l2 : Language) (queries : list pystr) :
  exists out, base_translate T (lang_value l1) (lang_value l2) queries = Ok out
              /\ length out = length queries.
Proof.
  unfold base_translate; rewrite !normalize_lang_value, !supported_lang_value; cbn [negb].
  destruct (string_dec (lang_value l1) (lang_value l2)).
  { exists (map Some queries); split; [reflexivity | apply length_map]. }
  set (query_indices := map fst (filter (fun p => is_valuable_text (snd p)) (enumerate queries))).
  destruct (mapM_ok (py_getitem queries) query_indices) as [qtt [Eq Lq]].
  { intros i Hi; destruct (py_getitem_ok queries i) as [x [Ex _]];
      [apply query_indices_bound; exact Hi | exists x; exact Ex]. }
  rewrite Eq; cbn [bind].
  destruct (is_empty qtt).
  { eexists; split; [reflexivity | apply length_map]. }
  destruct (retry_loop_ok T (lang_value l1) (lang_value l2) (1 + INVALID_REPEAT_COUNT T) 0 qtt
              (repeat [] (length qtt)) (seq 0 (length qtt))) as [q' [t' [Er [L1 L2]]]].
  { apply repeat_length. }
  { intros j Hj; apply in_seq in Hj; lia. }
  rewrite Er; cbn [bind].
  apply foldM_inv with (P := fun fin : list (option pystr) => length fin = length queries).
  { apply length_map. }
  intros fin [i t] Hin Lf.
  apply OrchestratorProofs.in_enumerate_from in Hin as [_ Hin].
  rewrite Nat.sub_0_r in Hin.
  assert (Hi : (i < length query_indices)%nat).
  { assert (i < length (map (fun '(q, t0) => _clean_translation_output T q t0) (combine q' t')))%nat
      by (apply nth_error_Some; congruence).
    rewrite length_map, length_combine in H; lia. }
  destruct (py_getitem_ok query_indices i Hi) as [qi [Eqi Hqi]].
  rewrite Eqi; cbn [bind].
  destruct (py_setitem_ok fin qi (Some t)) as [ys [Ey Ly]];
    [rewrite Lf; apply query_indices_bound; exact Hqi|].
  exists ys; split; [exact Ey | lia].
Qed.

Lemma nth_error_enumerate_from {A : Type} (k : nat) (l : list A) (i : nat) :
  nth_error (enumerate_from k l) i = option_map (fun x => (k + i, x)%nat) (nth_error l i).
Proof.
  revert k i; induction l as [|x l IH]; intros k [|i]; simpl; try reflexivity.
  - rewrite Nat.add_0_r; reflexivity.
  - rewrite IH; destruct (nth_error l i); simpl; [do 2 f_equal; lia | reflexivity].
Qed.

Lemma validate_lang_value (l1 l2 : Language) :
  _validate_languages (lang_value l1) (lang_value l2)
  = Ok (if string_dec (lang_value l1) (lang_value l2) then false else true).
Proof.
  unfold _validate_languages; rewrite !supported_lang_value; simpl.
  destruct (string_dec (lang_value l1) (lang_value l2)); reflexivity.
Qed.

Lemma translate_batch_entries (translators : nat -> list Translator) (texts : list pystr)
    (l1 l2 : Language) :
  exists out,
    translate_batch translators texts (lang_value l1) (lang_value l2) = Ok out
    /\ length out = length texts
    /\ forall i t, nth_error texts i = Some t ->
         nth_error out i
         = Some (if string_dec (lang_value l1) (lang_value l2) then Some t
                 else match tm_translate (translators i) t (lang_value l1) (lang_value l2) with
                      | Ok r => r
                      | Err _ => None
                      end).
Proof.
  unfold translate_batch.
  destruct texts as [|t0 ts] eqn:Et.
  { exists []; split; [reflexivity | split; [reflexivity | intros [|i] t H; discriminate H]]. }
  cbn [is_empty]; rewrite validate_lang_value; cbn [bind].
  destruct (string_dec (lang_value l1) (lang_value l2)); cbn [negb].
  - eexists; split; [reflexivity|]; split; [apply length_map|].
    intros i t H; rewrite nth_error_map, H; reflexivity.
  - eexists; split; [reflexivity|]; split.
    + rewrite length_map; apply MergeProofs.enumerate_from_length.
    + intros i t H; rewrite nth_error_map; unfold enumerate; rewrite nth_error_enumerate_from, H.
      reflexivity.
Qed.

(** C3.  For languages of the [Language] enum, [translate_batch] returns
    one entry per input text, the entry at position [i] being the answer
    of the single-text translation of text [i] ([None] when that call
    raised), or text [i] itself when source and target coincide.  Inside,
    [BaseTranslator.translate] returns one entry per query, for every
    provider, because the provider's answer is padded with empty strings
    or truncated to the number of queries sent. *)
Theorem translate_batch_aligned (translators : nat -> list Translator) (texts : list pystr)
    (l1 l2 : Language) :
  (exists out,
     translate_batch translators texts (lang_value l1) (lang_value l2) = Ok out
     /\ length out = length texts
     /\ forall i t, nth_error texts i = Some t ->
          nth_error out i
          = Some (if string_dec (lang_value l1) (lang_value l2) then Some t
                  else match tm_translate (translators i) t (lang_value l1) (lang_value l2) with
                       | Ok r => r
                       | Err _ => None
                       end))
  /\ (forall T queries, exists out,
        base_translate T (lang_value l1) (lang_value l2) queries = Ok out
        /\ length out = length queries)
  /\ (forall n ts, length (fit_length n ts) = n
        /\ ((length ts <= n)%nat -> fit_length n ts = ts ++ repeat [] (n - length ts))
        /\ ((n <= length ts)%nat -> fit_length n ts = firstn n ts)).
Proof.
  split; [apply translate_batch_entries|split; [intros T queries; apply base_translate_length|]].
  - intros n ts; split; [apply fit_length_length|]; unfold fit_length; split; intros H.
    + destruct (Nat.ltb_spec (length ts) n); [reflexivity|].
      destruct (Nat.ltb_spec n (length ts)); [lia|].
      replace (n - length ts)%nat with 0%nat by lia; rewrite app_nil_r; reflexivity.
    + destruct (Nat.ltb_spec (length ts) n); [lia|].
      destruct (Nat.ltb_spec n (length ts)); [reflexivity|].
      replace n with (length ts) by lia; rewrite firstn_all; reflexivity.
Qed.

(** *** Exhausted providers *)

(** A provider the manager gets nothing from for [text]: it is skipped
    (unavailable or without the language pair), its network call raises
    on the first attempt, or it answers an empty result. *)
Definition provider_fails (T : Translator) (text : pystr) (from_lang to_lang : string) : Prop :=
  is_available T = false
  \/ supports_languages T from_lang to_lang = false
  \/ (is_valuable_text text = true
      /\ exists e, _translate T 0 from_lang to_lang [text] = Err e)
  \/ (match base_translate T from_lang to_lang [text] with
      | Ok (Some r :: _) => is_empty (py_strip r) = true
      | Ok _ => True
      | Err _ => True
      end).

Lemma is_empty_strip_nil (s : pystr) : is_empty s = true -> is_empty (py_strip s) = true.
Proof. destruct s; [reflexivity | discriminate]. Qed.

(** An exception of the network call is caught by [BaseTranslator.translate],
    which then answers [''] for the query. *)
Lemma base_translate_raw_error (T : Translator) (l1 l2 : Language) (text : pystr) (e : exc) :
  is_valuable_text text = true -> lang_value l1 <> lang_value l2 ->
  _translate T 0 (lang_value l1) (lang_value l2) [text] = Err e ->
  base_translate T (lang_value l1) (lang_value l2) [text] = Ok [Some []].
Proof.
  intros Hv Hne He.
  unfold base_translate; rewrite !normalize_lang_value, !supported_lang_value; cbn [negb].
  destruct (string_dec (lang_value l1) (lang_value l2)); [contradiction|].
  unfold enumerate; cbn [enumerate_from filter snd]; rewrite Hv.
  cbn [map fst mapM py_getitem nth_error bind is_empty length repeat seq].
  simpl retry_loop; rewrite He; cbn [bind combine map].
  unfold _clean_translation_output; rewrite orb_true_r; reflexivity.
Qed.

Lemma try_providers_fail (translators : list Translator) (l1 l2 : Language) (text : pystr) :
  lang_value l1 <> lang_value l2 ->
  Forall (fun T => provider_fails T text (lang_value l1) (lang_value l2)) translators ->
  try_providers translators text (lang_value l1) (lang_value l2) = None.
Proof.
  intros Hne H; induction H as [|T ts HT _ IH]; simpl; [reflexivity|].
  destruct (is_available T) eqn:Ea; cbn [negb]; [|exact IH].
  destruct (supports_languages T (lang_value l1) (lang_value l2)) eqn:Es; cbn [negb]; [|exact IH].
  destruct HT as [HT | [HT | [[Hv [e He]] | HT]]]; [congruence | congruence | |].
  - rewrite (base_translate_raw_error T l1 l2 text e Hv Hne He); exact IH.
  - destruct (base_translate T (lang_value l1) (lang_value l2) [text]) as [[|[r|] rest]|];
      try exact IH.
    rewrite HT, orb_true_r; exact IH.
Qed.

(** C6 (amended).  When every provider fails for a non-blank text (is
    skipped, raises on the first attempt, or answers an empty result),
    [TranslationManager.translate] returns [None] ("None if all services
    failed"), and that [None] is the text's entry in the batch output:
    not an empty string. *)
Theorem all_providers_fail_none (translators : nat -> list Translator) (texts : list pystr)
    (l1 l2 : Language) (i : nat) (text : pystr) :
  nth_error texts i = Some text ->
  is_empty (py_strip text) = false ->
  lang_value l1 <> lang_value l2 ->
  Forall (fun T => provider_fails T text (lang_value l1) (lang_value l2)) (translators i) ->
  tm_translate (translators i) text (lang_value l1) (lang_value l2) = Ok None
  /\ exists out, translate_batch translators texts (lang_value l1) (lang_value l2) = Ok out
                 /\ nth_error out i = Some None.
Proof.
  intros Ht Hb Hne Hf.
  assert (Htm : tm_translate (translators i) text (lang_value l1) (lang_value l2) = Ok None).
  { unfold tm_translate.
    destruct (is_empty text) eqn:Ee; [rewrite (is_empty_strip_nil text Ee) in Hb; discriminate|].
    rewrite Hb; cbn [orb]; rewrite validate_lang_value.
    destruct (string_dec (lang_value l1) (lang_value l2)); [contradiction|]; cbn [bind negb].
    rewrite try_providers_fail by assumption; reflexivity. }
  split; [exact Htm|].
  destruct (translate_batch_entries translators texts l1 l2) as [out [Eo [_ Hout]]].
  exists out; split; [exact Eo|].
  rewrite (Hout i text Ht), Htm.
  destruct (string_dec (lang_value l1) (lang_value l2)); [contradiction | reflexivity].
Qed.

(** A provider that reports itself unavailable. *)
Definition unavailable_translator : Translator :=
  mkTranslator false (fun _ _ => true) 0 (fun _ _ _ qs => Ok qs)
               (fun _ _ => false) (fun q _ => q) (fun _ t => t).

Definition konnichiwa_text : pystr := [12371; 12435; 12395; 12385; 12399].

Lemma all_providers_fail_none_witness :
  nth_error [konnichiwa_text] 0 = Some konnichiwa_text
  /\ is_empty (py_strip konnichiwa_text) = false
  /\ lang_value JAPANESE <> lang_value ENGLISH
  /\ Forall (fun T => provider_fails T konnichiwa_text (lang_value JAPANESE) (lang_value ENGLISH))
            [unavailable_translator]
  /\ (tm_translate [unavailable_translator] konnichiwa_text (lang_value JAPANESE) (lang_value ENGLISH)
      = Ok None
      /\ exists out, translate_batch (fun _ => [unavailable_translator]) [konnichiwa_text]
                       (lang_value JAPANESE) (lang_value ENGLISH) = Ok out
                     /\ nth_error out 0 = Some None).
Proof.
  assert (H1 : nth_error [konnichiwa_text] 0 = Some konnichiwa_text) by reflexivity.
  assert (H2 : is_empty (py_strip konnichiwa_text) = false) by (vm_compute; reflexivity).
  assert (H3 : lang_value JAPANESE <> lang_value ENGLISH) by discriminate.
  assert (H4 : Forall (fun T => provider_fails T konnichiwa_text (lang_value JAPANESE)
                                               (lang_value ENGLISH)) [unavailable_translator])
    by (constructor; [left; reflexivity | constructor]).
  split; [exact H1|]; split; [exact H2|]; split; [exact H3|]; split; [exact H4|].
  exact (all_providers_fail_none (fun _ => [unavailable_translator]) [konnichiwa_text]
           JAPANESE ENGLISH 0 konnichiwa_text H1 H2 H3 H4).
Defined.

(** C6 (as stated).  With its only provider off, the batch answer for
    [こんにちは] (japanese to english) is [None], not the empty string. *)
Lemma exhausted_entry_is_none :
  translate_batch (fun _ => [unavailable_translator]) [konnichiwa_text] "japanese"%string "english"%string
  = Ok [None]
  /\ (None : option pystr) <> Some (py "").
Proof. split; [vm_compute; reflexivity | discriminate]. Qed.

End TranslateProofs.

(* ================================================================== *)
(** ** Wrapping and layout *)

Module LayoutProofs.
Import Render.

Lemma wrap_cjk_loop_concat (target_width : Z) (font : FreeTypeFont) (language : string) :
  forall s current_line lines,
    concat (wrap_cjk_loop target_width font language current_line lines s)
    = concat lines ++ current_line ++ s.
Proof.
  induction s as [|char r IH]; intros current_line lines; simpl.
  - destruct current_line as [|z cur]; simpl.
    + rewrite app_nil_r; reflexivity.
    + rewrite concat_app; simpl; rewrite !app_nil_r; reflexivity.
  - destruct (_ <=? target_width); rewrite IH.
    + rewrite <- app_assoc; reflexivity.
    + destruct current_line as [|z cur]; simpl; [reflexivity|].
      rewrite concat_app; simpl; rewrite app_nil_r, <- !app_assoc; reflexivity.
Qed.

Lemma wrap_cjk_loop_nonempty (target_width : Z) (font : FreeTypeFont) (language : string) :
  forall s current_line lines,
    Forall (fun l => l <> []) lines ->
    Forall (fun l => l <> []) (wrap_cjk_loop target_width font language current_line lines s).
Proof.
  induction s as [|char r IH]; intros current_line lines H; simpl.
  - destruct current_line as [|z cur]; simpl; [exact H|].
    apply Forall_app; split; [exact H | constructor; [discriminate | constructor]].
  - destruct (_ <=? target_width); apply IH; [exact H|].
    destruct current_line as [|z cur]; simpl; [exact H|].
    apply Forall_app; split; [exact H | constructor; [discriminate | constructor]].
Qed.

Lemma try_moves_shape (b1 : BoundingBox) (image_width image_height : Z) (b2 : BoundingBox) :
  let r := _resolve_overlap b1 b2 image_width image_height in
  width r = width b1 /\ height r = height b1
  /\ ((0 <= x1 r /\ x2 r <= image_width /\ 0 <= y1 r /\ y2 r <= image_height) \/ r = b1).
Proof.
  destruct b1 as [a1 b1' c1 d1], b2 as [a2 b2' c2 d2].
  unfold _resolve_overlap, width, height; cbn.
  repeat match goal with
         | |- context [if ?c then _ else _] => let E := fresh "E" in destruct c eqn:E
         end;
  repeat rewrite andb_true_iff in *; rewrite ?Z.leb_le in *; cbn;
  (split; [lia | split; [lia | first [right; reflexivity | left; lia]]]).
Qed.

Lemma adjust_box_fields (image_width image_height : Z) :
  forall optimized_boxes tb,
    let a := adjust_box optimized_boxes tb image_width image_height in
    text a = text tb /\ translated_text a = translated_text tb
    /\ width (bbox a) = width (bbox tb) /\ height (bbox a) = height (bbox tb).
Proof.
  unfold adjust_box.
  induction optimized_boxes as [|ex opt IH]; intros tb; cbn [fold_left]; [tauto|].
  destruct (_boxes_overlap (bbox tb) (bbox ex)).
  - destruct (IH (set_bbox tb (_resolve_overlap (bbox tb) (bbox ex) image_width image_height)))
      as (E1 & E2 & E3 & E4).
    destruct (try_moves_shape (bbox tb) image_width image_height (bbox ex)) as (W & Hh & _).
    rewrite E1, E2, E3, E4; cbn; tauto.
  - apply IH.
Qed.

Lemma optimize_fold_map {B : Type} (f : TextBox -> B) (image_width image_height : Z)
    (Hf : forall o tb, f (adjust_box o tb image_width image_height) = f tb) :
  forall boxes acc,
    map f (fold_left (fun optimized_boxes text_box =>
                        optimized_boxes ++ [adjust_box optimized_boxes text_box image_width image_height])
                     boxes acc)
    = map f acc ++ map f boxes.
Proof.
  induction boxes as [|tb r IH]; intros acc; cbn [fold_left map].
  - rewrite app_nil_r; reflexivity.
  - rewrite IH, map_app; cbn [map]; rewrite Hf, <- app_assoc; reflexivity.
Qed.

Lemma optimize_map {B : Type} (f : TextBox -> B) (image_width image_height : Z)
    (Hf : forall o tb, f (adjust_box o tb image_width image_height) = f tb) :
  forall boxes, map f (optimize_text_layout boxes image_width image_height) = map f boxes.
Proof.
  intros boxes; unfold optimize_text_layout.
  destruct (length boxes <=? 1)%nat; [reflexivity|].
  rewrite (optimize_fold_map f image_width image_height Hf); reflexivity.
Qed.

(** C9: the CJK wrapper [_wrap_cjk_text] loses no text: for every input
    string, target width, font and language, concatenating the returned
    lines gives back the input exactly, and no returned line is empty. *)
Theorem wrap_cjk_lossless (text : pystr) (target_width : Z) (font : FreeTypeFont)
    (language : string) :
  concat (_wrap_cjk_text text target_width font language) = text
  /\ Forall (fun l => l <> []) (_wrap_cjk_text text target_width font language).
Proof.
  unfold _wrap_cjk_text; split.
  - rewrite wrap_cjk_loop_concat; reflexivity.
  - apply wrap_cjk_loop_nonempty; constructor.
Qed.

(** C10: [_resolve_overlap] only translates: for all boxes and image
    dimensions the result has the input box's width and height and either
    lies within [0..image_width] x [0..image_height] or is the input box
    unchanged.  [optimize_text_layout] keeps the number of boxes, every
    box's [text] and [translated_text], and the width and height of every
    box's [bbox]. *)
Theorem resolve_overlap_translates (bbox1 bbox2 : BoundingBox) (image_width image_height : Z)
    (text_boxes : list TextBox) :
  (let r := _resolve_overlap bbox1 bbox2 image_width image_height in
   width r = width bbox1 /\ height r = height bbox1
   /\ ((0 <= x1 r /\ x2 r <= image_width /\ 0 <= y1 r /\ y2 r <= image_height) \/ r = bbox1))
  /\ (let out := optimize_text_layout text_boxes image_width image_height in
      length out = length text_boxes
      /\ map text out = map text text_boxes
      /\ map translated_text out = map translated_text text_boxes
      /\ map (fun b => width (bbox b)) out = map (fun b => width (bbox b)) text_boxes
      /\ map (fun b => height (bbox b)) out = map (fun b => height (bbox b)) text_boxes).
Proof.
  split; [apply try_moves_shape|].
  cbv zeta; split; [|split; [|split; [|split]]].
  - rewrite <- (length_map (fun _ => tt)), <- (length_map (fun _ => tt) text_boxes).
    f_equal; apply optimize_map; reflexivity.
  - apply optimize_map; intros o tb; apply adjust_box_fields.
  - apply optimize_map; intros o tb; apply adjust_box_fields.
  - apply optimize_map; intros o tb; apply adjust_box_fields.
  - apply optimize_map; intros o tb; apply adjust_box_fields.
Qed.

End LayoutProofs.

(* ================================================================== *)
(** ** Font-size search *)

Module FontSizeProofs.
Import Render.

Ltac open_binds E :=
  repeat match type of E with
         | context [bind ?m _] =>
             let X := fresh "x" in destruct m as [X|?]; cbn [bind] in E; [|discriminate E]
         end.

Ltac open_binds2 E E' :=
  repeat match type of E with
         | context [bind ?m _] =>
             let X := fresh "x" in
             destruct m as [X|?]; cbn [bind] in E, E'; [|discriminate E]
         end.

Section Search.
Variable truetype : string -> Z -> FreeTypeFont.
Variables (text : pystr) (target_width : Z) (language : string).

Lemma search_lower (target_height : Z) :
  forall fuel left right best_size s,
    best_size <= left ->
    size_search truetype fuel text target_width target_height language left right best_size = Ok s ->
    best_size <= s.
Proof.
  induction fuel as [|fuel IH]; intros left right best_size s Hb E; cbn [size_search] in E.
  - injection E as <-; lia.
  - destruct (left <=? right) eqn:Elr; [|injection E as <-; lia].
    apply Z.leb_le in Elr.
    open_binds E.
    match type of E with context [if ?c then _ else _] => destruct c end.
    + apply IH in E; [|lia].
      assert (left <= (left + right) / 2) by (apply Z.div_le_lower_bound; lia). lia.
    + exact (IH _ _ _ _ Hb E).
Qed.

Lemma search_upper (target_height : Z) :
  forall fuel left right best_size s,
    size_search truetype fuel text target_width target_height language left right best_size = Ok s ->
    s <= Z.max best_size right.
Proof.
  induction fuel as [|fuel IH]; intros left right best_size s E; cbn [size_search] in E.
  - injection E as <-; lia.
  - destruct (left <=? right) eqn:Elr; [|injection E as <-; lia].
    apply Z.leb_le in Elr.
    open_binds E.
    assert ((left + right) / 2 <= right) by (apply Z.div_le_upper_bound; lia).
    match type of E with context [if ?c then _ else _] => destruct c end.
    + apply IH in E; lia.
    + apply IH in E; lia.
Qed.

(** Same state, a taller target: the search never ends lower. *)
Lemma search_mono_height (h1 h2 : Z) (Hh : h1 <= h2) :
  forall fuel left right best_size s1 s2,
    best_size <= left ->
    size_search truetype fuel text target_width h1 language left right best_size = Ok s1 ->
    size_search truetype fuel text target_width h2 language left right best_size = Ok s2 ->
    s1 <= s2.
Proof.
  induction fuel as [|fuel IH]; intros left right best_size s1 s2 Hb E1 E2;
    cbn [size_search] in E1, E2.
  - injection E1 as <-; injection E2 as <-; lia.
  - destruct (left <=? right) eqn:Elr; [|injection E1 as <-; injection E2 as <-; lia].
    apply Z.leb_le in Elr.
    open_binds2 E1 E2.
    assert (left <= (left + right) / 2) by (apply Z.div_le_lower_bound; lia).
    match type of E1 with context [if ?t <=? h1 then _ else _] =>
      destruct (t <=? h1) eqn:A; destruct (t <=? h2) eqn:B end.
    + eapply IH; [| exact E1 | exact E2]; lia.
    + apply Z.leb_le in A; apply Z.leb_nle in B; lia.
    + apply search_upper in E1; apply search_lower in E2; lia.
    + exact (IH _ _ _ _ _ Hb E1 E2).
Qed.

Lemma find_optimal_mono_height (h1 h2 : Z) (Hh : h1 <= h2) (s1 s2 : Z) :
  find_optimal_font_size_multiline truetype text target_width h1 language = Ok s1 ->
  find_optimal_font_size_multiline truetype text target_width h2 language = Ok s2 ->
  s1 <= s2.
Proof.
  unfold find_optimal_font_size_multiline, font_size_min, font_size_max.
  intros E1 E2; eapply search_mono_height; [exact Hh | | exact E1 | exact E2].
  destruct (_is_cjk_language language); lia.
Qed.

End Search.

Lemma calculate_mono_height (truetype : string -> Z -> FreeTypeFont) (text : pystr)
    (language : string) (direction : TextDirection)
    (Hd : direction = LTR \/ _is_cjk_language language = true)
    (b1 b2 : BoundingBox) (s1 s2 : Z) :
  width b1 = width b2 -> height b1 <= height b2 ->
  calculate_optimal_font_size truetype text b1 language (Some direction) = Ok s1 ->
  calculate_optimal_font_size truetype text b2 language (Some direction) = Ok s2 ->
  s1 <= s2.
Proof.
  intros Hw Hh E1 E2; unfold calculate_optimal_font_size in E1, E2.
  destruct (is_empty (py_strip text)); [discriminate E1|].
  assert (Hsw : forall ttb_w ttb_h ltr_w ltr_h : Z,
             match direction with
             | TTB => if _is_cjk_language language then (ltr_w, ltr_h) else (ttb_w, ttb_h)
             | LTR => (ltr_w, ltr_h)
             end = (ltr_w, ltr_h)).
  { intros; destruct Hd as [-> | ->]; [reflexivity | destruct direction; reflexivity]. }
  rewrite Hsw in E1, E2; cbv beta iota zeta in E1, E2.
  rewrite Hw in E1.
  destruct (find_optimal_font_size_multiline truetype text (width b2 - 4) (height b1 - 4) language)
    as [o1|] eqn:F1; [|discriminate E1].
  destruct (find_optimal_font_size_multiline truetype text (width b2 - 4) (height b2 - 4) language)
    as [o2|] eqn:F2; [|discriminate E2].
  cbn [bind] in E1, E2; injection E1 as <-; injection E2 as <-.
  assert (Ho : o1 <= o2) by (eapply find_optimal_mono_height; [| exact F1 | exact F2]; lia).
  unfold font_size_min, font_size_max.
  destruct (_is_cjk_language language).
  - assert (o1 * 11 / 10 <= o2 * 11 / 10) by (apply Z.div_le_mono; lia). lia.
  - lia.
Qed.

(** A PIL-like monospaced font: every character is [s] wide and the
    box is [s] high at size [s]; ascent [s], descent [s / 4]. *)
Definition mono_font (s : Z) : FreeTypeFont :=
  mkFont (fun t => (0, 0, s * Z.of_nat (length t), s)) (s, s / 4).

Definition mono_truetype (_ : string) (s : Z) : FreeTypeFont := mono_font s.

(** C8 (amended): for a fixed text and target language, with the
    direction the renderer passes ([get_text_direction_for_language]), the
    font size [calculate_optimal_font_size] chooses never decreases when the
    box gets taller at the same width, for every font loader. *)
Theorem font_size_monotone_height (truetype : string -> Z -> FreeTypeFont) (text : pystr)
    (l : Language) (b1 b2 : BoundingBox) (s1 s2 : Z) :
  width b1 = width b2 -> height b1 <= height b2 ->
  calculate_optimal_font_size truetype text b1 (lang_value l)
    (Some (get_text_direction_for_language l)) = Ok s1 ->
  calculate_optimal_font_size truetype text b2 (lang_value l)
    (Some (get_text_direction_for_language l)) = Ok s2 ->
  s1 <= s2.
Proof.
  intros Hw Hh E1 E2.
  apply (calculate_mono_height truetype text (lang_value l) (get_text_direction_for_language l))
    with (b1 := b1) (b2 := b2); try assumption.
  destruct l; cbn; auto.
Qed.

Definition box_short : BoundingBox := mkBBox 0 0 104 20.
Definition box_tall : BoundingBox := mkBBox 0 0 104 104.

Lemma font_size_monotone_height_witness :
  calculate_optimal_font_size mono_truetype (py "A") box_short (lang_value ENGLISH)
    (Some (get_text_direction_for_language ENGLISH)) = Ok 16
  /\ calculate_optimal_font_size mono_truetype (py "A") box_tall (lang_value ENGLISH)
    (Some (get_text_direction_for_language ENGLISH)) = Ok 30
  /\ 16 <= 30.
Proof.
  assert (E1 : calculate_optimal_font_size mono_truetype (py "A") box_short (lang_value ENGLISH)
                 (Some (get_text_direction_for_language ENGLISH)) = Ok 16)
    by (vm_compute; reflexivity).
  assert (E2 : calculate_optimal_font_size mono_truetype (py "A") box_tall (lang_value ENGLISH)
                 (Some (get_text_direction_for_language ENGLISH)) = Ok 30)
    by (vm_compute; reflexivity).
  split; [exact E1 | split; [exact E2 |]].
  apply (font_size_monotone_height mono_truetype (py "A") ENGLISH box_short box_tall 16 30);
    [reflexivity | vm_compute; discriminate | exact E1 | exact E2].
Defined.

Definition box_square : BoundingBox := mkBBox 0 0 104 104.
Definition box_strip : BoundingBox := mkBBox 0 0 100004 5.

(** C8 counterexample: with a monospaced font and the English text "A",
    the 100004 x 5 box has a larger area than the 104 x 104 box, yet its
    chosen size is 6 against 30: area does not order the result. *)
Lemma font_size_not_monotone_area :
  width box_square * height box_square < width box_strip * height box_strip
  /\ calculate_optimal_font_size mono_truetype (py "A") box_square (lang_value ENGLISH)
       (Some (get_text_direction_for_language ENGLISH)) = Ok 30
  /\ calculate_optimal_font_size mono_truetype (py "A") box_strip (lang_value ENGLISH)
       (Some (get_text_direction_for_language ENGLISH)) = Ok 6.
Proof. split; [vm_compute; reflexivity | split; vm_compute; reflexivity]. Qed.

End FontSizeProofs.

(* ================================================================== *)
(** ** Language codes of the providers *)

Module TranslateBaseProofs.
Import Translate TranslateBase.

Lemma str_in_iff (s : string) (l : list string) : str_in s l = true <-> In s l.
Proof.
  unfold str_in; rewrite existsb_exists; split.
  - intros [x [Hx E]]; destruct (string_dec s x); [subst; exact Hx | discriminate].
  - intros H; exists s; split; [exact H|]; destruct (string_dec s s); [reflexivity | congruence].
Qed.

Lemma assoc_str_in (k v : string) (m : list (string * string)) :
  assoc_str k m = Some v -> In (k, v) m.
Proof.
  induction m as [|[k' v'] m IH]; simpl; [discriminate|].
  destruct (string_dec k k'); [intros E; injection E as <-; subst; left; reflexivity|].
  intros E; right; exact (IH E).
Qed.

Lemma assoc_str_key (k : string) (m : list (string * string)) :
  str_in k (map fst m) = true -> exists v, assoc_str k m = Some v.
Proof.
  rewrite str_in_iff; induction m as [|[k' v'] m IH]; simpl; [tauto|].
  destruct (string_dec k k'); [eexists; reflexivity|].
  intros [E|H]; [congruence | exact (IH H)].
Qed.

Lemma normalize_idem (c : string) :
  normalize_language_code (normalize_language_code c) = normalize_language_code c.
Proof.
  destruct (assoc_str c LEGACY_LANGUAGE_MAP) as [v|] eqn:E.
  - assert (N : normalize_language_code c = v) by (unfold normalize_language_code; rewrite E; reflexivity).
    rewrite N; apply assoc_str_in in E; simpl in E.
    destruct E as [H|[H|[H|[H|[H|[H|[]]]]]]]; injection H as _ <-; reflexivity.
  - assert (N : normalize_language_code c = c) by (unfold normalize_language_code; rewrite E; reflexivity).
    rewrite N; exact N.
Qed.

Lemma normalize_nonempty (c : string) : c <> ""%string -> normalize_language_code c <> ""%string.
Proof.
  intros Hc; unfold normalize_language_code.
  destruct (assoc_str c LEGACY_LANGUAGE_MAP) as [v|] eqn:E; [|exact Hc].
  apply assoc_str_in in E; simpl in E.
  destruct E as [H|[H|[H|[H|[H|[H|[]]]]]]]; injection H as _ <-; discriminate.
Qed.

Lemma nonempty_str_is_empty (s : string) : s <> ""%string -> str_is_empty s = false.
Proof. destruct s; [congruence | reflexivity]. Qed.

(** [supports_languages] on two non-empty codes. *)
Lemma supports_cases (code_map : list (string * string)) (a b : string) (fatal : bool) :
  a <> ""%string -> b <> ""%string ->
  supports_languages code_map a b fatal
  = if str_in (normalize_language_code a) (map fst code_map)
       && str_in (normalize_language_code b) (map fst code_map)
    then Ok true else if fatal then Err TranslationException else Ok false.
Proof.
  intros Ha Hb; unfold supports_languages.
  pose proof (nonempty_str_is_empty _ (normalize_nonempty a Ha)) as Ea.
  pose proof (nonempty_str_is_empty _ (normalize_nonempty b Hb)) as Eb.
  destruct (str_in (normalize_language_code a) (map fst code_map)); cbn [negb andb].
  - destruct (str_in (normalize_language_code b) (map fst code_map)); cbn [negb]; [reflexivity|].
    rewrite Eb; reflexivity.
  - rewrite Ea; reflexivity.
Qed.

Lemma deepl_cases (a b : string) (fatal : bool) :
  a <> ""%string -> b <> ""%string ->
  deepl_supports_languages a b fatal
  = if str_in (normalize_language_code a) (map fst deepl_LANGUAGE_CODE_MAP)
       && str_in (normalize_language_code b) (map fst deepl_LANGUAGE_CODE_MAP)
    then Ok true else if fatal then Err TranslationException else Ok false.
Proof.
  intros Ha Hb; unfold deepl_supports_languages; rewrite <- (supports_cases _ _ _ _ Ha Hb).
  destruct (String.eqb_spec a "VIN") as [->|_]; [reflexivity|].
  destruct (String.eqb_spec b "VIN") as [->|_]; cbn [orb];
    [rewrite (supports_cases _ _ _ _ Ha Hb); cbn; rewrite andb_false_r; reflexivity | reflexivity].
Qed.

Lemma google_keys (x : string) :
  str_in x (map fst google_LANGUAGE_CODE_MAP) = str_in x SUPPORTED_LANGUAGES.
Proof. apply Bool.eq_true_iff_eq; rewrite !str_in_iff; simpl; tauto. Qed.

Lemma repeats_as_iff (text : pystr) (k : nat) :
  repeats_as text k = true
  <-> concat (repeat (firstn k text) (length text / k)) = firstn (length text / k * k) text.
Proof.
  unfold repeats_as.
  destruct (list_eq_dec Z.eq_dec _ _) as [E|E]; split; intros H; solve [exact E | reflexivity | discriminate | contradiction].
Qed.

Lemma find_seq_spec (text : pystr) :
  forall len a,
    (find_seq text (seq a len) = text /\ forall k, (a <= k < a + len)%nat -> repeats_as text k = false)
    \/ (exists k, (a <= k < a + len)%nat /\ find_seq text (seq a len) = firstn k text
                  /\ repeats_as text k = true
                  /\ forall k', (a <= k' < k)%nat -> repeats_as text k' = false).
Proof.
  induction len as [|len IH]; intros a; cbn [seq find_seq].
  - left; split; [reflexivity | intros k Hk; lia].
  - destruct (repeats_as text a) eqn:E.
    + right; exists a; split; [lia|]; split; [reflexivity|]; split; [exact E | intros k' Hk'; lia].
    + destruct (IH (S a)) as [[H1 H2]|[k [Hk [H1 [H2 H3]]]]].
      * left; split; [exact H1|]; intros k Hk.
        destruct (Nat.eq_dec k a); [subst; exact E | apply H2; lia].
      * right; exists k; split; [lia|]; split; [exact H1|]; split; [exact H2|].
        intros k' Hk'; destruct (Nat.eq_dec k' a); [subst; exact E | apply H3; lia].
Qed.

(** Normalising a language code twice changes nothing, so
    [supports_languages] answers a legacy code ("JPN", "CHT", ...) exactly
    as the language name it stands for. *)
Theorem normalize_language_code_idem (c : string) :
  normalize_language_code (normalize_language_code c) = normalize_language_code c
  /\ (forall code_map b fatal,
        supports_languages code_map c b fatal
        = supports_languages code_map (normalize_language_code c) b fatal
        /\ supports_languages code_map b c fatal
           = supports_languages code_map b (normalize_language_code c) fatal).
Proof.
  split; [apply normalize_idem|]; intros code_map b fatal.
  unfold supports_languages; rewrite normalize_idem; split; reflexivity.
Qed.

(** For non-empty codes, Google accepts a pair exactly when both codes
    normalise to one of the six [SUPPORTED_LANGUAGES]; DeepL exactly when
    both normalise to one of its five, which leave out Vietnamese; a refused
    pair raises [LanguageUnsupportedException] when [fatal] is set. *)
Theorem provider_language_support (a b : string) (fatal : bool) :
  a <> ""%string -> b <> ""%string ->
  google_supports_languages a b fatal
  = (if str_in (normalize_language_code a) SUPPORTED_LANGUAGES
        && str_in (normalize_language_code b) SUPPORTED_LANGUAGES
     then Ok true else if fatal then Err TranslationException else Ok false)
  /\ deepl_supports_languages a b fatal
     = (if str_in (normalize_language_code a) (map fst deepl_LANGUAGE_CODE_MAP)
           && str_in (normalize_language_code b) (map fst deepl_LANGUAGE_CODE_MAP)
        then Ok true else if fatal then Err TranslationException else Ok false)
  /\ str_in "vietnamese" (map fst deepl_LANGUAGE_CODE_MAP) = false.
Proof.
  intros Ha Hb; split; [|split; [apply deepl_cases; assumption | reflexivity]].
  unfold google_supports_languages; rewrite (supports_cases _ _ _ _ Ha Hb), !google_keys; reflexivity.
Qed.

Lemma provider_language_support_witness :
  google_supports_languages "JPN" "vietnamese" false = Ok true
  /\ deepl_supports_languages "JPN" "vietnamese" false = Ok false.
Proof.
  destruct (provider_language_support "JPN" "vietnamese" false ltac:(discriminate) ltac:(discriminate))
    as [G [D _]].
  rewrite G, D; split; reflexivity.
Defined.

(** [parse_language_codes] never returns half a pair for non-empty codes:
    both provider codes, or [(None, None)], or (with [fatal]) a
    [LanguageUnsupportedException]. *)
Theorem parse_language_codes_pair (a b : string) (fatal : bool) :
  a <> ""%string -> b <> ""%string ->
  forall supports code_map,
    (supports = google_supports_languages /\ code_map = google_LANGUAGE_CODE_MAP)
    \/ (supports = deepl_supports_languages /\ code_map = deepl_LANGUAGE_CODE_MAP) ->
    (exists x y, parse_language_codes supports code_map a b fatal = Ok (Some x, Some y)
                 /\ assoc_str (normalize_language_code a) code_map = Some x
                 /\ assoc_str (normalize_language_code b) code_map = Some y)
    \/ (fatal = false /\ parse_language_codes supports code_map a b fatal = Ok (None, None))
    \/ (fatal = true /\ parse_language_codes supports code_map a b fatal = Err TranslationException).
Proof.
  intros Ha Hb supports code_map Hp.
  pose proof (normalize_nonempty a Ha) as Ha'; pose proof (normalize_nonempty b Hb) as Hb'.
  assert (Hs : supports (normalize_language_code a) (normalize_language_code b) fatal
               = if str_in (normalize_language_code a) (map fst code_map)
                    && str_in (normalize_language_code b) (map fst code_map)
                 then Ok true else if fatal then Err TranslationException else Ok false).
  { destruct Hp as [[-> ->]|[-> ->]].
    - unfold google_supports_languages; rewrite (supports_cases _ _ _ _ Ha' Hb'), !normalize_idem; reflexivity.
    - rewrite (deepl_cases _ _ _ Ha' Hb'), !normalize_idem; reflexivity. }
  unfold parse_language_codes; rewrite Hs.
  destruct (str_in (normalize_language_code a) (map fst code_map)) eqn:K1;
  destruct (str_in (normalize_language_code b) (map fst code_map)) eqn:K2; cbn [andb bind negb].
  - destruct (assoc_str_key _ _ K1) as [x Ex]; destruct (assoc_str_key _ _ K2) as [y Ey].
    left; exists x, y; rewrite Ex, Ey; auto.
  - destruct fatal; [right; right | right; left]; split; reflexivity.
  - destruct fatal; [right; right | right; left]; split; reflexivity.
  - destruct fatal; [right; right | right; left]; split; reflexivity.
Qed.

Lemma parse_language_codes_pair_witness :
  parse_language_codes deepl_supports_languages deepl_LANGUAGE_CODE_MAP "CHT" "ENG" false
  = Ok (Some "zh-hant"%string, Some "en"%string).
Proof.
  destruct (parse_language_codes_pair "CHT" "ENG" false ltac:(discriminate) ltac:(discriminate)
              deepl_supports_languages deepl_LANGUAGE_CODE_MAP (or_intror (conj eq_refl eq_refl)))
    as [[x [y [E [Ex Ey]]]]|[[_ F]|[F _]]]; [|vm_compute in F; discriminate F|discriminate F].
  vm_compute in Ex, Ey; injection Ex as <-; injection Ey as <-; exact E.
Defined.

(** A normalised code is never the legacy ["VIN"]: it maps to ["vietnamese"]. *)
Lemma normalize_not_VIN (c : string) : String.eqb (normalize_language_code c) "VIN" = false.
Proof.
  unfold normalize_language_code.
  destruct (assoc_str c LEGACY_LANGUAGE_MAP) as [v|] eqn:E.
  - apply assoc_str_in in E; simpl in E.
    destruct E as [H|[H|[H|[H|[H|[H|[]]]]]]]; injection H as _ <-; reflexivity.
  - destruct (String.eqb_spec c "VIN") as [->|]; [discriminate E | reflexivity].
Qed.

(** An empty source code is never reported as unsupported ([if
    unsupported_lang:] is false for ""), so the base [supports_languages]
    accepts it with any target, for any code map without an empty key, and
    [parse_language_codes] returns [None] for the source next to the
    target's code: for every translator that keeps the base
    [supports_languages] (Google among them), and for DeepL, whose override
    only adds the ["VIN"] test, which a normalised code never meets. *)
Theorem supports_languages_empty_code (code_map : list (string * string)) (b : string) (fatal : bool) :
  str_in "" (map fst code_map) = false ->
  supports_languages code_map "" b fatal = Ok true
  /\ parse_language_codes (supports_languages code_map) code_map "" b fatal
     = Ok (None, assoc_str (normalize_language_code b) code_map)
  /\ parse_language_codes deepl_supports_languages deepl_LANGUAGE_CODE_MAP "" b fatal
     = Ok (None, assoc_str (normalize_language_code b) deepl_LANGUAGE_CODE_MAP).
Proof.
  intros H.
  assert (S : forall m c, str_in "" (map fst m) = false -> supports_languages m "" c fatal = Ok true).
  { intros m c Hm; unfold supports_languages.
    change (normalize_language_code ""%string) with ""%string; rewrite Hm; reflexivity. }
  assert (A : forall m, str_in "" (map fst m) = false -> assoc_str "" m = None).
  { intros m Hm; destruct (assoc_str "" m) as [v|] eqn:E; [|reflexivity].
    apply assoc_str_in in E; apply (in_map fst) in E; apply str_in_iff in E; simpl in E.
    rewrite Hm in E; discriminate E. }
  split; [apply S, H|]; split.
  - unfold parse_language_codes.
    change (normalize_language_code ""%string) with ""%string.
    rewrite (S _ _ H), (A _ H); reflexivity.
  - unfold parse_language_codes, deepl_supports_languages.
    change (normalize_language_code ""%string) with ""%string.
    rewrite normalize_not_VIN; cbn [String.eqb orb].
    rewrite (S deepl_LANGUAGE_CODE_MAP _ eq_refl), (A deepl_LANGUAGE_CODE_MAP eq_refl); reflexivity.
Qed.

Lemma supports_languages_empty_code_witness :
  supports_languages google_LANGUAGE_CODE_MAP "" "klingon" false = Ok true
  /\ parse_language_codes (supports_languages google_LANGUAGE_CODE_MAP) google_LANGUAGE_CODE_MAP
       "" "english" false = Ok (None, Some "en"%string)
  /\ parse_language_codes deepl_supports_languages deepl_LANGUAGE_CODE_MAP "" "VIN" true
     = Ok (None, None).
Proof.
  destruct (supports_languages_empty_code google_LANGUAGE_CODE_MAP "klingon" false eq_refl) as [E _].
  destruct (supports_languages_empty_code google_LANGUAGE_CODE_MAP "english" false eq_refl) as [_ [P _]].
  destruct (supports_languages_empty_code google_LANGUAGE_CODE_MAP "VIN" true eq_refl) as [_ [_ D]].
  split; [exact E | split; [rewrite P; reflexivity | rewrite D; reflexivity]].
Defined.

(** [repeating_sequence] of a non-empty text is the shortest prefix, of
    length at most half the text, whose repetition [len(text) // k] times
    spells the text's first [(len(text) // k) * k] characters; when there
    is none it is the text itself. *)
Theorem repeating_sequence_shortest (text : pystr) :
  text <> [] ->
  (repeating_sequence text = text
   /\ forall k, (1 <= k <= length text / 2)%nat ->
        concat (repeat (firstn k text) (length text / k)) <> firstn (length text / k * k) text)
  \/ (exists k, (1 <= k <= length text / 2)%nat
        /\ repeating_sequence text = firstn k text
        /\ length (repeating_sequence text) = k
        /\ concat (repeat (firstn k text) (length text / k)) = firstn (length text / k * k) text
        /\ forall k', (1 <= k' < k)%nat ->
             concat (repeat (firstn k' text) (length text / k')) <> firstn (length text / k' * k') text).
Proof.
  intros Ht; unfold repeating_sequence.
  assert (Hne : is_empty text = false) by (destruct text; [congruence | reflexivity]).
  rewrite Hne.
  assert (Hle : (length text / 2 <= length text)%nat) by (apply Nat.Div0.div_le_upper_bound; lia).
  destruct (find_seq_spec text (length text / 2) 1) as [[H1 H2]|[k [Hk [H1 [H2 H3]]]]].
  - left; split; [exact H1|]; intros k Hk E; apply repeats_as_iff in E; rewrite H2 in E; [discriminate | lia].
  - right; exists k; split; [lia|]; rewrite H1; split; [reflexivity|].
    split; [rewrite length_firstn; lia|]; split; [apply repeats_as_iff; exact H2|].
    intros k' Hk' E; apply repeats_as_iff in E; rewrite H3 in E; [discriminate | lia].
Qed.

Lemma repeating_sequence_shortest_witness :
  py "abab" <> [] /\ repeating_sequence (py "abab") = py "ab".
Proof.
  split; [discriminate|].
  destruct (repeating_sequence_shortest (py "abab") ltac:(discriminate))
    as [[E H]|[k [Hk [E _]]]].
  - exfalso; apply (H 2%nat); [cbn; lia | reflexivity].
  - vm_compute; reflexivity.
Defined.

End TranslateBaseProofs.

(* ================================================================== *)
(** ** Query filtering and answer merging of [BaseTranslator.translate] *)

Module BaseTranslateProofs.
Import Translate.

Lemma forallb_lstrip (p : Z -> bool) (s : pystr) : forallb p (lstrip_by p s) = forallb p s.
Proof. induction s as [|c s IH]; simpl; [reflexivity|]; destruct (p c) eqn:E; simpl; rewrite ?E; auto. Qed.

Lemma lstrip_nil_iff (p : Z -> bool) (s : pystr) : lstrip_by p s = [] <-> forallb p s = true.
Proof.
  induction s as [|c s IH]; simpl; [tauto|].
  destruct (p c) eqn:E; simpl; [exact IH | split; discriminate].
Qed.

Lemma forallb_rev {A : Type} (p : A -> bool) (l : list A) : forallb p (rev l) = forallb p l.
Proof.
  induction l as [|x l IH]; simpl; [reflexivity|].
  rewrite forallb_app, IH; simpl; rewrite andb_true_r, andb_comm; reflexivity.
Qed.

(** [s.strip()] is empty exactly when [s] is all whitespace. *)
Lemma is_empty_strip (s : pystr) : is_empty (py_strip s) = forallb py_isspace s.
Proof.
  apply Bool.eq_true_iff_eq; unfold py_strip, strip_by.
  assert (G : forall l : pystr, is_empty l = true <-> l = []) by (intros [|]; simpl; split; congruence).
  rewrite G; split.
  - intros E; apply (f_equal (@rev Z)) in E; rewrite rev_involutive in E.
    apply lstrip_nil_iff in E; rewrite forallb_rev, forallb_lstrip in E; exact E.
  - intros E; assert (E' : lstrip_by py_isspace (rev (lstrip_by py_isspace s)) = []).
    { apply lstrip_nil_iff; rewrite forallb_rev, forallb_lstrip; exact E. }
    rewrite E'; reflexivity.
Qed.

Lemma is_empty_filter_nonspace (s : pystr) :
  is_empty (filter (fun c => negb (py_isspace c)) s) = forallb py_isspace s.
Proof.
  induction s as [|c s IH]; simpl; [reflexivity|].
  destruct (py_isspace c); simpl; [exact IH | reflexivity].
Qed.

Lemma filter_idem {A : Type} (f : A -> bool) (l : list A) : filter f (filter f l) = filter f l.
Proof.
  induction l as [|x l IH]; simpl; [reflexivity|].
  destruct (f x) eqn:E; simpl; rewrite ?E, IH; reflexivity.
Qed.

Lemma blank_test (s : pystr) : (is_empty s || is_empty (py_strip s)) = forallb py_isspace s.
Proof. rewrite is_empty_strip; destruct s; reflexivity. Qed.

Lemma fold_err {A B : Type} (f : A -> B -> result A) (l : list B) (e : exc) :
  fold_left (fun acc b => let* x := acc in f x b) l (Err e) = Err e.
Proof. induction l; simpl; auto. Qed.

Lemma py_setitem_spec {A : Type} (xs : list A) (i : nat) (v : A) (ys : list A) :
  py_setitem xs i v = Ok ys ->
  length ys = length xs /\ nth_error ys i = Some v
  /\ forall j, j <> i -> nth_error ys j = nth_error xs j.
Proof.
  revert i ys; induction xs as [|x xs IH]; intros [|i] ys E; simpl in E; try discriminate E.
  - injection E as <-; split; [reflexivity|]; split; [reflexivity|]; intros [|j] Hj; [lia | reflexivity].
  - destruct (py_setitem xs i v) as [r'|] eqn:Er; cbn [bind] in E; [|discriminate E].
    injection E as <-; destruct (IH i r' Er) as (L & N & O).
    split; [simpl; lia|]; split; [exact N|]; intros [|j] Hj; [reflexivity | apply O; lia].
Qed.

Ltac fold_err_tac E L :=
  exfalso; revert E; generalize L; intros l;
  induction l as [|? l IHl]; intros E; simpl in E; [discriminate E | exact (IHl E)].

(** The merge loop [final_translations[query_indices[i]] = translation]. *)
Lemma merge_fold (query_indices : list nat) :
  forall (cl : list pystr) (m : nat) (fin out : list (option pystr)),
    fold_left (fun acc b => let* x := acc in
                 (fun fin '(i, translation) =>
                    let* qi := py_getitem query_indices i in py_setitem fin qi (Some translation)) x b)
              (enumerate_from m cl) (Ok fin) = Ok out ->
    length out = length fin
    /\ (forall k, nth_error out k = Some None ->
          nth_error fin k = Some None
          /\ forall i, (m <= i < m + length cl)%nat -> nth_error query_indices i <> Some k)
    /\ (forall k, (forall i, (m <= i < m + length cl)%nat -> nth_error query_indices i <> Some k) ->
          nth_error out k = nth_error fin k).
Proof.
  induction cl as [|t cl IH]; intros m fin out E; cbn [enumerate_from fold_left] in E.
  - injection E as ->; split; [reflexivity|]; split; [|reflexivity].
    intros k Hk; split; [exact Hk | intros i Hi; cbn in Hi; lia].
  - cbn [bind] in E.
    destruct (py_getitem query_indices m) as [k0|] eqn:Eg; cbn [bind] in E; [|fold_err_tac E (enumerate_from (S m) cl)].
    assert (Ek0 : nth_error query_indices m = Some k0)
      by (unfold py_getitem in Eg; destruct (nth_error query_indices m); congruence).
    destruct (py_setitem fin k0 (Some t)) as [fin'|] eqn:Ef; [|fold_err_tac E (enumerate_from (S m) cl)].
    destruct (py_setitem_spec _ _ _ _ Ef) as (L1 & N1 & O1).
    destruct (IH (S m) fin' out E) as (L2 & N2 & O2).
    split; [lia|]; split.
    + intros k Hk; destruct (N2 k Hk) as [Hf Hi].
      destruct (Nat.eq_dec k k0) as [->|Hne]; [rewrite N1 in Hf; discriminate Hf|].
      rewrite O1 in Hf by exact Hne; split; [exact Hf|].
      intros i Hi'; destruct (Nat.eq_dec i m) as [->|Him]; [rewrite Ek0; congruence|].
      apply Hi; cbn in *; lia.
    + intros k Hk; rewrite O2.
      * apply O1; intros ->; apply (Hk m); [cbn; lia | exact Ek0].
      * intros i Hi; apply Hk; cbn in *; lia.
Qed.

Lemma in_query_indices (queries : list pystr) (k : nat) (q : pystr) :
  nth_error queries k = Some q -> is_valuable_text q = true ->
  In k (map fst (filter (fun p => is_valuable_text (snd p)) (enumerate queries))).
Proof.
  intros Hq Hv; apply in_map_iff; exists (k, q); split; [reflexivity|].
  apply filter_In; split; [apply (OrchestratorProofs.nth_in_enumerate_from 0 queries k q Hq) | exact Hv].
Qed.

Lemma query_indices_valuable (queries : list pystr) (k : nat) :
  In k (map fst (filter (fun p => is_valuable_text (snd p)) (enumerate queries))) ->
  exists q, nth_error queries k = Some q /\ is_valuable_text q = true.
Proof.
  intros H; apply in_map_iff in H as [[k' q] [Hk H]]; simpl in Hk; subst k'.
  apply filter_In in H as [H Hv]; apply OrchestratorProofs.in_enumerate_from in H as [_ H].
  rewrite Nat.sub_0_r in H; exists q; split; [exact H | exact Hv].
Qed.

Lemma forallb_space_filter (s : pystr) :
  forallb py_isspace (filter (fun c => negb (py_isspace c)) s) = is_empty (filter (fun c => negb (py_isspace c)) s).
Proof.
  induction s as [|c s IH]; simpl; [reflexivity|].
  destruct (py_isspace c) eqn:E; simpl; [exact IH | rewrite E; reflexivity].
Qed.

(** [is_valuable_text] only looks at the non-whitespace characters of its
    argument: removing all whitespace first does not change the verdict. *)
Theorem is_valuable_text_ignores_whitespace (t : pystr) :
  is_valuable_text t = is_valuable_text (filter (fun c => negb (py_isspace c)) t).
Proof.
  unfold is_valuable_text; rewrite !blank_test, forallb_space_filter, is_empty_filter_nonspace, filter_idem.
  reflexivity.
Qed.

(** If [BaseTranslator.translate] returns, its answer has one entry per
    query, no placeholder [None] is left, and every query that is not
    valuable text is returned unchanged at its own position. *)
Theorem base_translate_fills (T : Translator) (from_lang to_lang : string)
    (queries : list pystr) (out : list (option pystr)) :
  base_translate T from_lang to_lang queries = Ok out ->
  length out = length queries
  /\ (forall k, nth_error out k <> Some None)
  /\ (forall k q, nth_error queries k = Some q -> is_valuable_text q = false ->
                  nth_error out k = Some (Some q)).
Proof.
  intros E; unfold base_translate in E.
  destruct (negb (str_in (normalize_language_code to_lang) SUPPORTED_LANGUAGES)); [discriminate E|].
  destruct (negb (str_in (normalize_language_code from_lang) SUPPORTED_LANGUAGES)); [discriminate E|].
  destruct (string_dec _ _).
  { injection E as <-; split; [apply length_map|]; split.
    - intros k; rewrite nth_error_map; destruct (nth_error queries k); discriminate.
    - intros k q Hq _; rewrite nth_error_map, Hq; reflexivity. }
  set (qi := map fst (filter (fun p => is_valuable_text (snd p)) (enumerate queries))) in E.
  set (final := map (fun q => if is_valuable_text q then None else Some q) queries) in E.
  assert (Lf : length final = length queries) by apply length_map.
  assert (Kf : forall k q, nth_error queries k = Some q -> is_valuable_text q = false ->
                           nth_error final k = Some (Some q))
    by (intros k q Hq Hv; unfold final; rewrite nth_error_map, Hq; cbn; rewrite Hv; reflexivity).
  assert (Nf : forall k, nth_error final k = Some None -> In k qi).
  { intros k Hk; unfold final in Hk; rewrite nth_error_map in Hk.
    destruct (nth_error queries k) as [q|] eqn:Hq; [|discriminate Hk]; cbn in Hk.
    destruct (is_valuable_text q) eqn:Hv; [|discriminate Hk].
    apply in_query_indices with q; assumption. }
  destruct (TranslateProofs.mapM_ok (py_getitem queries) qi) as [qtt [Eq Lq]].
  { intros i Hi; destruct (TranslateProofs.py_getitem_ok queries i) as [x [Ex _]];
      [apply TranslateProofs.query_indices_bound; exact Hi | exists x; exact Ex]. }
  rewrite Eq in E; cbn [bind] in E.
  destruct (is_empty qtt) eqn:Ee.
  { injection E as <-; split; [exact Lf|]; split; [|exact Kf].
    intros k Hk; apply Nf in Hk; destruct qtt; [|discriminate Ee].
    destruct qi; [contradiction Hk | discriminate Lq]. }
  destruct (TranslateProofs.retry_loop_ok T (normalize_language_code from_lang) (normalize_language_code to_lang)
              (1 + INVALID_REPEAT_COUNT T) 0 qtt (repeat [] (length qtt)) (seq 0 (length qtt)))
    as [qtt' [trs' [Er [L1 L2]]]].
  { apply repeat_length. }
  { intros j Hj; apply in_seq in Hj; lia. }
  rewrite Er in E; cbn [bind] in E.
  destruct (merge_fold qi _ 0 final out E) as (L & N & K).
  rewrite length_map, length_combine, L1, L2, Nat.min_id, Lq in N, K; cbn [Nat.add] in N, K.
  split; [lia|]; split.
  - intros k Hk; destruct (N k Hk) as [Hf Hi].
    apply Nf in Hf; apply In_nth_error in Hf as [i Hi'].
    apply (Hi i); [split; [lia | apply nth_error_Some; congruence] | exact Hi'].
  - intros k q Hq Hv; rewrite K; [apply Kf; assumption|].
    intros i _ Hi; apply nth_error_In in Hi; apply query_indices_valuable in Hi as [q' [Hq' Hv']].
    congruence.
Qed.

Lemma base_translate_fills_witness :
  base_translate (mkTranslator true (fun _ _ => true) 0 (fun _ _ _ qs => Ok qs) (fun _ _ => false) (fun _ q => q) (fun _ t => t))
    "japanese" "english" [py "Hello"; py "!"] = Ok [Some (py "Hello"); Some (py "!")]
  /\ length [Some (py "Hello"); Some (py "!")] = 2%nat.
Proof.
  assert (E : base_translate (mkTranslator true (fun _ _ => true) 0 (fun _ _ _ qs => Ok qs) (fun _ _ => false) (fun _ q => q) (fun _ t => t))
    "japanese" "english" [py "Hello"; py "!"] = Ok [Some (py "Hello"); Some (py "!")]) by (vm_compute; reflexivity).
  split; [exact E|].
  destruct (base_translate_fills _ _ _ _ _ E) as [L _]; exact L.
Defined.

End BaseTranslateProofs.

(* ------------------------------------------------------------------ *)
(** ** OCR services: box extraction, merge outcome, service choice *)

Module OCRProofs.
Import Merge OCR.

Lemma foldM_nil {A B : Type} (f : A -> B -> result A) (a : A) : foldM f [] a = Ok a.
Proof. reflexivity. Qed.

Lemma foldM_cons {A B : Type} (f : A -> B -> result A) (b : B) (l : list B) (a : A) :
  foldM f (b :: l) a = match f a b with Ok a' => foldM f l a' | Err e => Err e end.
Proof.
  unfold foldM; simpl; destruct (f a b) as [a'|e]; [reflexivity|].
  induction l as [|c l IH]; simpl; [reflexivity | exact IH].
Qed.

(** *** Outcome of the merge *)

Definition far (t : Z) (a b : TextBox) : Prop := boxes_nearby (bbox a) (bbox b) t = false.

Lemma seed_groups_result (t : Z) (fuel : nat) :
  forall l, (length l <= fuel)%nat ->
  (ForallOrdPairs (far t) l -> mapM merge_group (seed_groups fuel t l) = Ok l)
  /\ (~ ForallOrdPairs (far t) l -> mapM merge_group (seed_groups fuel t l) = Err AttributeError).
Proof.
  induction fuel as [|fuel IH]; intros l Hl.
  { destruct l; [|simpl in Hl; lia]. split; [reflexivity | intros H; exfalso; apply H; constructor]. }
  destruct l as [|b rest].
  { split; [reflexivity | intros H; exfalso; apply H; constructor]. }
  simpl in Hl; cbn [seed_groups].
  destruct (filter (fun b' => boxes_nearby (bbox b) (bbox b') t) rest) as [|c cs] eqn:Hf.
  - assert (Hall : Forall (far t b) rest).
    { apply Forall_forall; intros x Hx; unfold far.
      destruct (boxes_nearby (bbox b) (bbox x) t) eqn:E; [|reflexivity].
      assert (In x (filter (fun b' => boxes_nearby (bbox b) (bbox b') t) rest))
        by (apply filter_In; auto).
      rewrite Hf in H; contradiction H. }
    rewrite MergeProofs.filter_nil_negb by exact Hf.
    destruct (IH rest ltac:(lia)) as [IH1 IH2]; cbn [mapM merge_group bind].
    split.
    + intros Hp; inversion Hp; subst; rewrite IH1 by assumption; reflexivity.
    + intros Hp; rewrite IH2; [reflexivity|].
      intros Hr; apply Hp; constructor; assumption.
  - cbn [mapM merge_group]; rewrite MergeProofs.merge_text_boxes_many; cbn [bind].
    split; [|reflexivity].
    intros Hp; inversion Hp as [|? ? Hb _]; subst.
    assert (Hc : In c (filter (fun b' => boxes_nearby (bbox b) (bbox b') t) rest))
      by (rewrite Hf; left; reflexivity).
    apply filter_In in Hc as [Hc Hn].
    rewrite Forall_forall in Hb; specialize (Hb c Hc); unfold far in Hb; congruence.
Qed.

Lemma merge_nearby_boxes_seed (boxes : list TextBox) (t : Z) :
  merge_nearby_boxes boxes t = mapM merge_group (seed_groups (length boxes) t boxes).
Proof.
  unfold merge_nearby_boxes; destruct boxes as [|b r]; [reflexivity|].
  unfold merge_groups, enumerate.
  rewrite (MergeProofs.outer_loop_spec t (enumerate_from 0 (b :: r)) [] (length (b :: r))).
  - rewrite MergeProofs.filter_unused_nil, MergeProofs.enumerate_from_snd; reflexivity.
  - rewrite MergeProofs.enumerate_from_fst; apply seq_NoDup.
  - rewrite MergeProofs.enumerate_from_length; lia.
Qed.

Lemma merge_result (boxes : list TextBox) (t : Z) :
  (ForallOrdPairs (far t) boxes -> merge_nearby_boxes boxes t = Ok boxes)
  /\ (~ ForallOrdPairs (far t) boxes -> merge_nearby_boxes boxes t = Err AttributeError).
Proof. rewrite merge_nearby_boxes_seed; apply seed_groups_result; lia. Qed.

Lemma far_dec (t : Z) (a b : TextBox) : {far t a b} + {~ far t a b}.
Proof. unfold far; destruct (boxes_nearby (bbox a) (bbox b) t); [right; discriminate | left; reflexivity]. Defined.

Lemma far_pairs_dec (t : Z) (l : list TextBox) : {ForallOrdPairs (far t) l} + {~ ForallOrdPairs (far t) l}.
Proof.
  induction l as [|a l IH]; [left; constructor|].
  destruct (Forall_dec (far t a) (far_dec t a) l) as [Ha|Ha].
  - destruct IH as [Hl|Hl]; [left; constructor; assumption|].
    right; intros H; inversion H; contradiction.
  - right; intros H; inversion H; contradiction.
Defined.

Lemma merge_ok (boxes m : list TextBox) (t : Z) :
  merge_nearby_boxes boxes t = Ok m -> m = boxes /\ ForallOrdPairs (far t) boxes.
Proof.
  intros E; destruct (merge_result boxes t) as [M1 M2].
  destruct (far_pairs_dec t boxes) as [Hp|Hp].
  - rewrite M1 in E by exact Hp; injection E as <-; auto.
  - rewrite M2 in E by exact Hp; discriminate E.
Qed.

(** [_merge_nearby_boxes] either gives its input back unchanged, exactly
    when no two boxes (in either order of detection) have centres within the
    threshold, or raises [AttributeError]: it never returns a merged box. *)
Theorem merge_nearby_boxes_all_or_nothing (boxes : list TextBox) (threshold : Z) :
  (merge_nearby_boxes boxes threshold = Ok boxes
   <-> ForallOrdPairs (fun a b => boxes_nearby (bbox a) (bbox b) threshold = false) boxes)
  /\ (merge_nearby_boxes boxes threshold = Ok boxes
      \/ merge_nearby_boxes boxes threshold = Err AttributeError).
Proof.
  destruct (merge_result boxes threshold) as [M1 M2]; split.
  - split; [intros E; exact (proj2 (merge_ok _ _ _ E)) | exact M1].
  - destruct (far_pairs_dec threshold boxes) as [Hp|Hp]; [left; exact (M1 Hp) | right; exact (M2 Hp)].
Qed.

(** *** Stripping *)

Lemma lstrip_idem (p : Z -> bool) (s : pystr) : lstrip_by p (lstrip_by p s) = lstrip_by p s.
Proof. induction s as [|c s IH]; simpl; [reflexivity|]; destruct (p c) eqn:E; simpl; rewrite ?E; auto. Qed.

Lemma lstrip_split (p : Z -> bool) (s : pystr) : exists t, s = t ++ lstrip_by p s.
Proof.
  induction s as [|c s IH]; simpl; [exists []; reflexivity|].
  destruct (p c); [destruct IH as [t Ht]; exists (c :: t); simpl; f_equal; exact Ht | exists []; reflexivity].
Qed.

(** Stripping the right end keeps a non-blank head. *)
Lemma lstrip_rstrip (p : Z -> bool) (u : pystr) :
  lstrip_by p u = u -> lstrip_by p (rev (lstrip_by p (rev u))) = rev (lstrip_by p (rev u)).
Proof.
  intros Hu; destruct (lstrip_split p (rev u)) as [t Ht].
  assert (Eu : u = rev (lstrip_by p (rev u)) ++ rev t)
    by (rewrite <- rev_app_distr, <- Ht, rev_involutive; reflexivity).
  destruct (rev (lstrip_by p (rev u))) as [|b w] eqn:Ew; [reflexivity|].
  rewrite Eu in Hu; simpl in Hu |- *; destruct (p b) eqn:Pb; [|reflexivity].
  exfalso; apply (f_equal (@length Z)) in Hu; simpl in Hu.
  destruct (lstrip_split p (w ++ rev t)) as [t' Ht']; apply (f_equal (@length Z)) in Ht'.
  rewrite ?length_app in *; lia.
Qed.

(** [s.strip().strip() == s.strip()] *)
Lemma py_strip_idem (s : pystr) : py_strip (py_strip s) = py_strip s.
Proof.
  unfold py_strip, strip_by.
  rewrite (lstrip_rstrip py_isspace (lstrip_by py_isspace s) (lstrip_idem _ _)).
  rewrite rev_involutive, lstrip_idem; reflexivity.
Qed.

(** *** Corner points *)

Lemma fold_min_le (l : list Z) (a : Z) : fold_left Z.min l a <= a.
Proof.
  revert a; induction l as [|x l IH]; intros a; simpl; [lia|].
  specialize (IH (Z.min a x)); lia.
Qed.

Lemma fold_max_ge (l : list Z) (a : Z) : a <= fold_left Z.max l a.
Proof.
  revert a; induction l as [|x l IH]; intros a; simpl; [lia|].
  specialize (IH (Z.max a x)); lia.
Qed.

Lemma points_bbox_ok (pts : list (Z * Z)) (b : BoundingBox) :
  points_bbox pts = Ok b -> x1 b <= x2 b /\ y1 b <= y2 b.
Proof.
  destruct pts as [|[px p0] r]; simpl; [discriminate|].
  intros E; injection E as <-; simpl.
  pose proof (fold_min_le (map fst r) px); pose proof (fold_max_ge (map fst r) px).
  pose proof (fold_min_le (map snd r) p0); pose proof (fold_max_ge (map snd r) p0); lia.
Qed.

(** *** EasyOCR *)

Definition easy_box_ok (b : TextBox) : Prop :=
  x1 (bbox b) <= x2 (bbox b) /\ y1 (bbox b) <= y2 (bbox b)
  /\ py_strip (text b) = text b /\ translated_text b = [].

Lemma easy_loop_spec (results : list (list (Z * Z) * pystr)) :
  forall acc out,
  foldM (fun boxes '(bb, txt) =>
           if negb (is_empty (py_strip txt)) then
             let* b := points_bbox bb in
             Ok (boxes ++ [mkTextBox (py_strip txt) b []])
           else Ok boxes) results acc = Ok out ->
  exists nw, out = acc ++ nw
    /\ map text nw = filter (fun s => negb (is_empty s)) (map (fun r => py_strip (snd r)) results)
    /\ Forall easy_box_ok nw.
Proof.
  induction results as [|[bb txt] results IH]; intros acc out E.
  - rewrite foldM_nil in E; injection E as <-; exists []; rewrite app_nil_r; auto.
  - rewrite foldM_cons in E; cbn [map snd filter].
    destruct (negb (is_empty (py_strip txt))) eqn:Ne.
    + destruct (points_bbox bb) as [b|e] eqn:Eb; cbn [bind] in E; [|discriminate E].
      destruct (IH _ _ E) as [nw [-> [Ht Hf]]].
      exists (mkTextBox (py_strip txt) b [] :: nw); split; [rewrite <- app_assoc; reflexivity|].
      split; [cbn [map text]; f_equal; exact Ht|].
      constructor; [|exact Hf].
      destruct (points_bbox_ok _ _ Eb) as [Hx Hy]; repeat split; try assumption.
      apply py_strip_idem.
    + exact (IH _ _ E).
Qed.

(** [EasyOCRService.extract_text]: without a reader for the language it
    raises [ValueError]; when it returns, the boxes carry, in order, exactly
    the stripped non-blank texts the reader found, each box has
    [x1 <= x2] and [y1 <= y2], no translation yet, and no two boxes lie
    within the merge threshold 20 of each other. *)
Theorem easy_extract_text_boxes (readers : list string) (language : string)
    (results : list (list (Z * Z) * pystr)) (boxes : list TextBox) :
  (str_in language readers = false -> easy_extract_text readers language results = Err ValueError)
  /\ (easy_extract_text readers language results = Ok boxes ->
      str_in language readers = true
      /\ map text boxes = filter (fun s => negb (is_empty s)) (map (fun r => py_strip (snd r)) results)
      /\ Forall (fun b => x1 (bbox b) <= x2 (bbox b) /\ y1 (bbox b) <= y2 (bbox b)
                          /\ py_strip (text b) = text b /\ translated_text b = []) boxes
      /\ ForallOrdPairs (fun a b => boxes_nearby (bbox a) (bbox b) 20 = false) boxes).
Proof.
  unfold easy_extract_text; split; [intros ->; reflexivity|].
  destruct (str_in language readers); [|discriminate]; cbn [negb].
  destruct (easy_boxes_loop results) as [bs|e] eqn:El; cbn [bind]; [|discriminate].
  cbn [merge_nearby_textboxes]; intros E; destruct (merge_ok _ _ _ E) as [-> Hp].
  destruct (easy_loop_spec results [] bs El) as [nw [-> [Ht Hf]]].
  split; [reflexivity|]; split; [exact Ht|]; split; [exact Hf | exact Hp].
Qed.

Lemma easy_extract_text_boxes_witness :
  (str_in "korean"%string ["english"%string] = false
   /\ easy_extract_text ["english"%string] "korean"%string [] = Err ValueError)
  /\ easy_extract_text ["english"; "korean"]%string "korean"%string
       [([(0, 0); (10, 0); (10, 8); (0, 8)], py " Hi "); ([(3, 3)], py "  ");
        ([(100, 50); (140, 70)], py "there")]
     = Ok [mkTextBox (py "Hi") (mkBBox 0 0 10 8) []; mkTextBox (py "there") (mkBBox 100 50 140 70) []].
Proof.
  split.
  - split; [reflexivity|].
    apply (proj1 (easy_extract_text_boxes ["english"]%string "korean"%string [] [])); reflexivity.
  - assert (E : easy_extract_text ["english"; "korean"]%string "korean"%string
       [([(0, 0); (10, 0); (10, 8); (0, 8)], py " Hi "); ([(3, 3)], py "  ");
        ([(100, 50); (140, 70)], py "there")]
     = Ok [mkTextBox (py "Hi") (mkBBox 0 0 10 8) []; mkTextBox (py "there") (mkBBox 100 50 140 70) []])
      by (vm_compute; reflexivity).
    destruct (proj2 (easy_extract_text_boxes _ _ _ _) E) as [_ _]; exact E.
Defined.

(** *** MangaOCR *)

Lemma slice_len_lt (n a b : Z) : a <= b -> slice_len n a b <> 0 -> a < b.
Proof.
  unfold slice_len, slice_bound; intros Hab H.
  destruct (Z.ltb_spec a 0), (Z.ltb_spec b 0); lia.
Qed.

Lemma slice_len_start (n a b : Z) : 0 <= n -> 0 <= a -> slice_len n a b <> 0 -> a < n.
Proof.
  unfold slice_len, slice_bound; intros Hn Ha H.
  destruct (Z.ltb_spec a 0), (Z.ltb_spec b 0); lia.
Qed.

Definition manga_box_ok (H W : Z) (mocr : BoundingBox -> result pystr) (b : TextBox) : Prop :=
  text b <> [] /\ (exists t, mocr (bbox b) = Ok t /\ py_strip t = text b)
  /\ x1 (bbox b) < x2 (bbox b) /\ y1 (bbox b) < y2 (bbox b)
  /\ (0 <= x1 (bbox b) -> x1 (bbox b) < W) /\ (0 <= y1 (bbox b) -> y1 (bbox b) < H).

Lemma manga_loop_spec (H W C : Z) (mocr : BoundingBox -> result pystr) (HH : 0 <= H) (HW : 0 <= W)
    (dets : list (list (Z * Z))) :
  forall acc out,
  foldM (fun boxes bb =>
           let* b := points_bbox bb in
           if slice_len H (y1 b) (y2 b) * slice_len W (x1 b) (x2 b) * C =? 0 then Ok boxes
           else
             let recognized_text := match mocr b with Ok t => py_strip t | Err _ => [] end in
             if negb (is_empty recognized_text)
             then Ok (boxes ++ [mkTextBox recognized_text b []])
             else Ok boxes) dets acc = Ok out ->
  exists nw, out = acc ++ nw /\ (length nw <= length dets)%nat /\ Forall (manga_box_ok H W mocr) nw.
Proof.
  induction dets as [|bb dets IH]; intros acc out E.
  - rewrite foldM_nil in E; injection E as <-; exists []; rewrite app_nil_r; auto.
  - rewrite foldM_cons in E.
    destruct (points_bbox bb) as [b|e] eqn:Eb; cbn [bind] in E; [|discriminate E].
    destruct (Z.eqb_spec (slice_len H (y1 b) (y2 b) * slice_len W (x1 b) (x2 b) * C) 0) as [Z0|Z0].
    { destruct (IH _ _ E) as [nw [-> [L F]]]; exists nw; simpl; split; [reflexivity|]; split; [lia | exact F]. }
    destruct (mocr b) as [t|e] eqn:Em; cbn [negb is_empty] in E; [|destruct (IH _ _ E) as [nw [-> [L F]]]; exists nw; simpl; split; [reflexivity|]; split; [lia | exact F]].
    destruct (py_strip t) as [|c cs] eqn:Et; cbn [negb is_empty] in E.
    { destruct (IH _ _ E) as [nw [-> [L F]]]; exists nw; simpl; split; [reflexivity|]; split; [lia | exact F]. }
    destruct (IH _ _ E) as [nw [-> [L F]]].
    exists (mkTextBox (c :: cs) b [] :: nw); split; [rewrite <- app_assoc; reflexivity|].
    split; [simpl; lia|]; constructor; [|exact F].
    assert (Sy : slice_len H (y1 b) (y2 b) <> 0) by (intros E0; apply Z0; rewrite E0; reflexivity).
    assert (Sx : slice_len W (x1 b) (x2 b) <> 0) by (intros E0; apply Z0; rewrite E0, Z.mul_0_r; reflexivity).
    destruct (points_bbox_ok _ _ Eb) as [Hx Hy]; cbn [text bbox].
    split; [discriminate|]; split; [exists t; split; [exact Em | exact Et]|].
    split; [exact (slice_len_lt _ _ _ Hx Sx)|]; split; [exact (slice_len_lt _ _ _ Hy Sy)|].
    split; intros Hn; [exact (slice_len_start _ _ _ HW Hn Sx) | exact (slice_len_start _ _ _ HH Hn Sy)].
Qed.

(** [MangaOCRService.extract_text] on an [H] x [W] image: when it returns,
    it has at most one box per detection; each box has a non-empty text,
    the stripped output of the recogniser on that box, a non-empty crop
    ([x1 < x2], [y1 < y2], and a box starting at a non-negative coordinate
    starts inside the image), and no two boxes lie within the merge
    threshold 20 of each other. *)
Theorem manga_extract_text_boxes (H W C : Z) (mocr : BoundingBox -> result pystr)
    (detections : list (list (Z * Z))) (boxes : list TextBox) :
  0 <= H -> 0 <= W ->
  manga_extract_text H W C mocr detections = Ok boxes ->
  (length boxes <= length detections)%nat
  /\ Forall (fun b => text b <> [] /\ (exists t, mocr (bbox b) = Ok t /\ py_strip t = text b)
                      /\ x1 (bbox b) < x2 (bbox b) /\ y1 (bbox b) < y2 (bbox b)
                      /\ (0 <= x1 (bbox b) -> x1 (bbox b) < W)
                      /\ (0 <= y1 (bbox b) -> y1 (bbox b) < H)) boxes
  /\ ForallOrdPairs (fun a b => boxes_nearby (bbox a) (bbox b) 20 = false) boxes.
Proof.
  intros HH HW; unfold manga_extract_text.
  destruct (manga_boxes_loop H W C mocr detections) as [bs|e] eqn:El; cbn [bind]; [|discriminate].
  cbn [merge_nearby_textboxes]; intros E; destruct (merge_ok _ _ _ E) as [-> Hp].
  destruct (manga_loop_spec H W C mocr HH HW detections [] bs El) as [nw [-> [L F]]].
  split; [exact L|]; split; [exact F | exact Hp].
Qed.

Lemma manga_extract_text_boxes_witness :
  0 <= 100 /\ 0 <= 200 /\
  manga_extract_text 100 200 3 (fun b => if x1 b =? 0 then Ok (py " x ") else Err ValueError)
    [[(0, 0); (30, 20)]; [(5, 5)]; [(150, 60); (190, 90)]]
  = Ok [mkTextBox (py "x") (mkBBox 0 0 30 20) []] /\ (1 <= 3)%nat.
Proof.
  assert (E : manga_extract_text 100 200 3 (fun b => if x1 b =? 0 then Ok (py " x ") else Err ValueError)
    [[(0, 0); (30, 20)]; [(5, 5)]; [(150, 60); (190, 90)]]
    = Ok [mkTextBox (py "x") (mkBBox 0 0 30 20) []]) by (vm_compute; reflexivity).
  split; [lia|]; split; [lia|]; split; [exact E|].
  destruct (manga_extract_text_boxes 100 200 3 _ _ _ ltac:(lia) ltac:(lia) E) as [L _]; exact L.
Defined.

(** *** Service choice *)

Lemma service_lookup_in (k : string) (m : list (string * list string)) (v : list string) :
  service_lookup k m = Some v -> In (k, v) m.
Proof.
  induction m as [|[k' v'] m IH]; simpl; [discriminate|].
  destruct (string_dec k k') as [->|_]; [intros E; injection E as ->; left; reflexivity|].
  intros E; right; exact (IH E).
Qed.

Lemma first_supporting_some services lang n ls :
  first_supporting services lang = Some (n, ls) -> In (n, ls) services /\ str_in lang ls = true.
Proof.
  induction services as [|[n' ls'] r IH]; simpl; [discriminate|].
  destruct (str_in lang ls') eqn:E.
  - intros F; injection F as <- <-; auto.
  - intros F; destruct (IH F); auto.
Qed.

Lemma first_supporting_none services lang :
  first_supporting services lang = None <-> forall n ls, In (n, ls) services -> str_in lang ls = false.
Proof.
  induction services as [|[n' ls'] r IH]; simpl.
  - split; [intros _ n ls [] | reflexivity].
  - destruct (str_in lang ls') eqn:E; split.
    + discriminate.
    + intros F; rewrite (F n' ls' (or_introl eq_refl)) in E; discriminate E.
    + intros F n ls [G|G]; [injection G as <- <-; exact E | exact (proj1 IH F n ls G)].
    + intros F; apply IH; intros n ls G; exact (F n ls (or_intror G)).
Qed.

Lemma manga_branch_some (lang : string) (services : list (string * list string)) s :
  (if str_in lang ["japanese"; "sim_chinese"; "trad_chinese"]%string then
     match service_lookup "manga" services with
     | Some ls => if str_in lang ls then Some ("manga"%string, ls) else None
     | None => None end else None) = Some s -> In s services /\ str_in lang (snd s) = true.
Proof.
  destruct (str_in lang _); [|discriminate].
  destruct (service_lookup "manga" services) as [ls|] eqn:El; [|discriminate].
  destruct (str_in lang ls) eqn:Es; [|discriminate].
  intros F; injection F as <-; split; [exact (service_lookup_in _ _ _ El) | exact Es].
Qed.

(** [OCRManager.get_ocr_service]: the service it returns is a loaded one
    whose [get_supported_languages()] contains the lower-cased language; it
    raises exactly when no loaded service supports that language; and for
    Japanese and the two Chinese it returns the loaded MangaOCR service
    whenever that one supports the language. *)
Theorem get_ocr_service_spec (services : list (string * list string)) (language : string) :
  (forall n ls, get_ocr_service services language = Some (n, ls) ->
     In (n, ls) services /\ str_in (Render.str_lower language) ls = true)
  /\ (get_ocr_service services language = None
      <-> forall n ls, In (n, ls) services -> str_in (Render.str_lower language) ls = false)
  /\ (forall ls, str_in (Render.str_lower language) ["japanese"; "sim_chinese"; "trad_chinese"]%string = true ->
       service_lookup "manga" services = Some ls -> str_in (Render.str_lower language) ls = true ->
       get_ocr_service services language = Some ("manga"%string, ls)).
Proof.
  unfold get_ocr_service, _normalize_language.
  set (lang := Render.str_lower language).
  split; [|split].
  - intros n ls; destruct (if str_in lang _ then _ else None) as [s|] eqn:Em.
    + intros F; injection F as ->; exact (manga_branch_some _ _ _ Em).
    + apply first_supporting_some.
  - destruct (if str_in lang _ then _ else None) as [s|] eqn:Em.
    + split; [discriminate|]; intros F; destruct (manga_branch_some _ _ _ Em) as [Hi Hs].
      destruct s as [n ls]; cbn [snd] in Hs; rewrite (F n ls Hi) in Hs; discriminate Hs.
    + apply first_supporting_none.
  - intros ls Hl Hm Hs; rewrite Hl, Hm, Hs; reflexivity.
Qed.

(** With the two services [OCRManager.initialize] loads, a language name is
    matched case-insensitively: Japanese and the two Chinese go to MangaOCR
    when it is loaded, every other language goes to EasyOCR when that is
    loaded, and otherwise the call raises. *)
Theorem ocr_service_choice (easy_ok manga_ok : bool) (language : string) (l : Language) :
  Render.str_lower language = lang_value l ->
  get_ocr_service (ocr_services easy_ok manga_ok) language =
    if manga_ok && str_in (lang_value l) manga_supported then Some ("manga"%string, manga_supported)
    else if easy_ok then Some ("easy"%string, easy_supported) else None.
Proof.
  intros H; unfold get_ocr_service, _normalize_language; rewrite H.
  destruct easy_ok, manga_ok, l; reflexivity.
Qed.

Lemma ocr_service_choice_witness :
  Render.str_lower "Japanese" = lang_value JAPANESE /\ Render.str_lower "ENGLISH" = lang_value ENGLISH /\
  get_ocr_service (ocr_services true true) "Japanese" = Some ("manga"%string, manga_supported) /\
  get_ocr_service (ocr_services false true) "ENGLISH" = None.
Proof.
  split; [reflexivity|]; split; [reflexivity|]; split.
  - exact (ocr_service_choice true true "Japanese" JAPANESE eq_refl).
  - exact (ocr_service_choice false true "ENGLISH" ENGLISH eq_refl).
Defined.

End OCRProofs.

(* ------------------------------------------------------------------ *)
(** ** Wrapping: hyphenation pieces and the lines of [wrap_text_for_size] *)

Module WrapProofs.
Import Render.

Definition nonspace (c : Z) : bool := negb (py_isspace c).

(** A line with a visible character. *)
Definition visible (l : pystr) : Prop := existsb nonspace l = true.

(** A word of [str.split()]. *)
Definition word_ok (w : pystr) : Prop := w <> [] /\ forallb nonspace w = true.

Lemma forallb_neg_existsb (l : pystr) : forallb py_isspace l = negb (existsb nonspace l).
Proof.
  induction l as [|c l IH]; simpl; [reflexivity|].
  unfold nonspace at 1; destruct (py_isspace c); simpl; [exact IH | reflexivity].
Qed.

Lemma visible_not_blank (s : pystr) : is_empty (py_strip s) = false -> visible s.
Proof.
  unfold visible; rewrite BaseTranslateProofs.is_empty_strip, forallb_neg_existsb.
  destruct (existsb nonspace s); [reflexivity | discriminate].
Qed.

Lemma visible_nonempty (s : pystr) : visible s -> s <> [].
Proof. unfold visible; intros H ->; discriminate H. Qed.

Lemma word_visible (w : pystr) : word_ok w -> visible w.
Proof.
  intros [Hn Hf]; destruct w as [|c w]; [congruence|]; unfold visible; simpl in *.
  apply andb_true_iff in Hf as [Hc _]; rewrite Hc; reflexivity.
Qed.

Lemma existsb_lstrip_nonspace (s : pystr) :
  existsb nonspace (lstrip_by py_isspace s) = existsb nonspace s.
Proof.
  induction s as [|c s IH]; simpl; [reflexivity|].
  unfold nonspace at 2; destruct (py_isspace c) eqn:E; simpl; [exact IH|].
  unfold nonspace at 1; rewrite E; reflexivity.
Qed.

Lemma existsb_rev' {A : Type} (f : A -> bool) (l : list A) : existsb f (rev l) = existsb f l.
Proof.
  induction l as [|x l IH]; simpl; [reflexivity|].
  rewrite existsb_app, IH; simpl; rewrite orb_false_r, orb_comm; reflexivity.
Qed.

Lemma visible_strip (s : pystr) : visible (py_strip s) <-> visible s.
Proof.
  unfold visible, py_strip, strip_by.
  rewrite existsb_rev', existsb_lstrip_nonspace, existsb_rev', existsb_lstrip_nonspace; tauto.
Qed.

(** *** [str.split()] *)

Lemma split_ws_aux_words (cur s : pystr) :
  forallb nonspace cur = true -> Forall word_ok (split_ws_aux cur s).
Proof.
  revert cur; induction s as [|c s IH]; intros cur Hc; simpl.
  - destruct cur as [|a cur]; [constructor|].
    constructor; [|constructor]; split.
    + intros E; apply (f_equal (@length Z)) in E; rewrite length_rev in E; discriminate E.
    + rewrite BaseTranslateProofs.forallb_rev; exact Hc.
  - destruct (py_isspace c) eqn:E.
    + destruct cur as [|a cur]; [apply IH; reflexivity|].
      constructor; [split|apply IH; reflexivity].
      * intros E'; apply (f_equal (@length Z)) in E'; rewrite length_rev in E'; discriminate E'.
      * rewrite BaseTranslateProofs.forallb_rev; exact Hc.
    + apply IH; simpl; unfold nonspace at 1; rewrite E; exact Hc.
Qed.

Lemma py_split_words (s : pystr) : Forall word_ok (py_split s).
Proof. apply split_ws_aux_words; reflexivity. Qed.

Lemma split_ws_aux_nil (cur s : pystr) :
  split_ws_aux cur s = [] -> cur = [] /\ forallb py_isspace s = true.
Proof.
  revert cur; induction s as [|c s IH]; intros cur; simpl.
  - destruct cur; [auto | discriminate].
  - destruct (py_isspace c) eqn:E.
    + destruct cur as [|a cur]; [|discriminate].
      intros H; destruct (IH [] H) as [_ H']; split; [reflexivity | exact H'].
    + intros H; destruct (IH _ H) as [F _]; discriminate F.
Qed.

Lemma py_split_visible (s : pystr) : visible s -> py_split s <> [].
Proof.
  unfold visible; intros H E; apply split_ws_aux_nil in E as [_ E].
  rewrite forallb_neg_existsb, H in E; discriminate E.
Qed.

(** *** [_break_long_word_with_hyphen] *)

Definition hyph (p : pystr) : pystr := p ++ [45].

Lemma break_loop_shape (max_width : Z) (font : FreeTypeFont) (language : string) :
  forall s cur P, cur <> [] ->
  exists Q ql,
    break_loop max_width font language cur (map hyph P) s = map hyph (P ++ Q) ++ [ql]
    /\ concat Q ++ ql = cur ++ s /\ Forall (fun q => q <> []) Q /\ ql <> [].
Proof.
  induction s as [|c r IH]; intros cur P Hc; simpl.
  - destruct cur as [|a cur]; [congruence|]; cbn [is_empty].
    exists [], (a :: cur); rewrite !app_nil_r; repeat split; [constructor | exact Hc].
  - destruct (_ <=? max_width).
    + destruct (IH (cur ++ [c]) P) as (Q & ql & E & C & F & N).
      { destruct cur; discriminate. }
      exists Q, ql; rewrite E, C, <- app_assoc; auto.
    + destruct cur as [|a cur]; [congruence|]; cbn [is_empty].
      destruct (IH [c] (P ++ [a :: cur])) as (Q & ql & E & C & F & N); [discriminate|].
      exists ((a :: cur) :: Q), ql.
      replace (map hyph P ++ [(a :: cur) ++ [45]]) with (map hyph (P ++ [a :: cur]))
        by (rewrite map_app; reflexivity).
      rewrite E, <- app_assoc; cbn [app]; split; [reflexivity|].
      split; [cbn [concat]; rewrite <- app_assoc, C; reflexivity|].
      split; [constructor; [discriminate | exact F] | exact N].
Qed.

Lemma break_shape (word : pystr) (max_width : Z) (font : FreeTypeFont) (language : string) :
  word <> [] ->
  exists Q ql,
    _break_long_word_with_hyphen word max_width font language = map hyph Q ++ [ql]
    /\ concat Q ++ ql = word /\ Forall (fun q => q <> []) Q /\ ql <> [].
Proof.
  destruct word as [|c r]; [congruence|]; intros _.
  unfold _break_long_word_with_hyphen; cbn [break_loop app].
  assert (G : exists Q ql, break_loop max_width font language [c] [] r = map hyph Q ++ [ql]
              /\ concat Q ++ ql = c :: r /\ Forall (fun q => q <> []) Q /\ ql <> []).
  { destruct (break_loop_shape max_width font language r [c] [] ltac:(discriminate))
      as (Q & ql & E & C & F & N).
    exists Q, ql; exact (conj E (conj C (conj F N))). }
  destruct G as (Q & ql & E & C & F & N).
  destruct (_ <=? max_width); cbn [is_empty]; rewrite E; exists Q, ql;
    (split; [destruct Q; reflexivity | auto]).
Qed.

(** *** [_wrap_latin_text] *)

Lemma hyph_visible (p : pystr) : visible (hyph p).
Proof. unfold visible, hyph; rewrite existsb_app; simpl; rewrite orb_true_r; reflexivity. Qed.

Lemma latin_loop_inv (target_width : Z) (font : FreeTypeFont) (language : string) :
  forall words cur lines,
    Forall word_ok words -> (cur = [] \/ visible cur) -> Forall visible lines ->
    Forall visible (fst (latin_loop target_width font language cur lines words))
    /\ (words <> [] \/ visible cur -> visible (snd (latin_loop target_width font language cur lines words))).
Proof.
  induction words as [|word r IH]; intros cur lines Hw Hc Hl; cbn [latin_loop fst snd].
  { split; [exact Hl|]; intros [H|H]; [congruence | exact H]. }
  inversion Hw as [|? ? Hword Hr]; subst.
  assert (Vt : visible (py_strip (cur ++ [32] ++ word))).
  { apply visible_strip; unfold visible; rewrite !existsb_app.
    apply word_visible in Hword; unfold visible in Hword; rewrite Hword, !orb_true_r; reflexivity. }
  assert (Vl : Forall visible (if is_empty cur then lines else lines ++ [cur])).
  { destruct cur as [|a cur]; [exact Hl|]; cbn [is_empty].
    destruct Hc as [Hc|Hc]; [discriminate Hc|].
    apply Forall_app; split; [exact Hl | constructor; [exact Hc | constructor]]. }
  destruct (_ <=? target_width).
  - destruct (IH _ lines Hr (or_intror Vt) Hl) as [A B]; split; [exact A|]; intros _; apply B; right; exact Vt.
  - destruct (target_width <? _).
    + destruct Hword as [Hne Hfa].
      destruct (break_shape word target_width font language Hne) as (Q & ql & E & C & F & N).
      rewrite E, last_last, removelast_last.
      assert (Vq : visible ql).
      { rewrite <- C, forallb_app in Hfa; apply andb_true_iff in Hfa as [_ Hq].
        apply word_visible; split; assumption. }
      assert (Vls : Forall visible ((if is_empty cur then lines else lines ++ [cur]) ++ map hyph Q)).
      { apply Forall_app; split; [exact Vl|]; apply Forall_forall; intros x Hx.
        apply in_map_iff in Hx as [q [<- _]]; apply hyph_visible. }
      destruct (IH _ _ Hr (or_intror Vq) Vls) as [A B]; split; [exact A|].
      intros _; apply B; right; exact Vq.
    + destruct (IH word _ Hr (or_intror (word_visible _ Hword)) Vl) as [A B]; split; [exact A|].
      intros _; apply B; right; exact (word_visible _ Hword).
Qed.

Lemma wrap_latin_lines (text : pystr) (target_width : Z) (font : FreeTypeFont) (language : string) :
  visible text ->
  exists lines, _wrap_latin_text text target_width font language = Ok lines
    /\ lines <> [] /\ Forall visible lines.
Proof.
  intros Vt; unfold _wrap_latin_text.
  destruct (latin_loop_inv target_width font language (py_split text) [] []
              (py_split_words text) (or_introl eq_refl) (Forall_nil _)) as [A B].
  destruct (latin_loop target_width font language [] [] (py_split text)) as [ls cur].
  cbn [fst snd] in A, B.
  assert (Vc : visible cur) by (apply B; left; apply py_split_visible; exact Vt).
  destruct cur as [|a cur']; [discriminate Vc|]; cbn [is_empty].
  remember (a :: cur') as cur eqn:Hcur; clear Hcur.
  assert (All : Forall visible (ls ++ [cur]))
    by (apply Forall_app; split; [exact A | constructor; [exact Vc | constructor]]).
  destruct (Nat.ltb (S O) _) eqn:Elen.
  2: { exists (ls ++ [cur]); split; [reflexivity|]; split; [destruct ls; discriminate | exact All]. }
  rewrite last_last.
  destruct (rev (py_split cur)) as [|lw rs] eqn:Er.
  { exfalso; apply (py_split_visible cur Vc).
    apply (f_equal (@rev pystr)) in Er; rewrite rev_involutive in Er; exact Er. }
  cbn [py_getitem nth_error bind].
  assert (Vw : visible lw).
  { apply word_visible. pose proof (py_split_words cur) as W; rewrite Forall_forall in W.
    apply W, in_rev; rewrite Er; left; reflexivity. }
  destruct ((length lw <=? 10)%nat && existsb (Z.eqb 32) cur).
  2: { exists (ls ++ [cur]); split; [reflexivity|]; split; [destruct ls; discriminate | exact All]. }
  rewrite removelast_last.
  destruct (is_empty (py_strip (py_join [32] (removelast (py_split cur))))) eqn:Ej.
  - exists (ls ++ [lw]); split.
    + f_equal; replace (ls ++ [py_join [32] (removelast (py_split cur)); lw])
        with ((ls ++ [py_join [32] (removelast (py_split cur))]) ++ [lw])
        by (rewrite <- app_assoc; reflexivity).
      rewrite !removelast_last; reflexivity.
    + split; [destruct ls; discriminate|].
      apply Forall_app; split; [exact A | constructor; [exact Vw | constructor]].
  - exists (ls ++ [py_join [32] (removelast (py_split cur)); lw]); split; [reflexivity|].
    split; [destruct ls; discriminate|].
    apply Forall_app; split; [exact A|].
    constructor; [apply visible_not_blank; exact Ej | constructor; [exact Vw | constructor]].
Qed.

(** [_break_long_word_with_hyphen] on a non-empty word returns pieces that
    are, in order, non-empty parts of the word followed by ["-"], then a
    last non-empty part without a hyphen; dropping the hyphens and joining
    the parts gives the word back. *)
Theorem break_long_word_pieces (word : pystr) (max_width : Z) (font : FreeTypeFont)
    (language : string) :
  word <> [] ->
  exists parts last_part,
    _break_long_word_with_hyphen word max_width font language
      = map (fun p => p ++ [45]) parts ++ [last_part]
    /\ concat parts ++ last_part = word
    /\ Forall (fun p => p <> []) parts /\ last_part <> [].
Proof. exact (break_shape word max_width font language). Qed.

Definition mono_font : FreeTypeFont :=
  mkFont (fun s => (0, 0, 10 * Z.of_nat (length s), 12)) (10, 2).

Lemma break_long_word_pieces_witness :
  py "abcdef" <> [] /\
  _break_long_word_with_hyphen (py "abcdef") 35 mono_font "english"
    = [py "ab-"; py "cd-"; py "ef"].
Proof.
  split; [discriminate|].
  destruct (break_long_word_pieces (py "abcdef") 35 mono_font "english" ltac:(discriminate))
    as (parts & lp & _ & _).
  vm_compute; reflexivity.
Defined.

Lemma wrap_nonblank_nonempty (text : pystr) (target_width : Z) (font : FreeTypeFont)
    (language : string) (lines : list pystr) :
  is_empty (py_strip text) = false ->
  wrap_text_for_size text target_width font language = Ok lines -> lines <> [].
Proof.
  intros Eb E; unfold wrap_text_for_size in E; rewrite Eb in E.
  pose proof (visible_not_blank text Eb) as Vt.
  destruct (_is_cjk_language language).
  - injection E as <-; intros E.
    pose proof (LayoutProofs.wrap_cjk_loop_concat target_width font language text [] []) as C.
    unfold _wrap_cjk_text in E; rewrite E in C; simpl in C.
    apply (visible_nonempty text Vt); symmetry; exact C.
  - destruct (wrap_latin_lines text target_width font language Vt) as (ls & E' & Ne & _).
    congruence.
Qed.

(** [wrap_text_for_size] never raises (the bottom-line rule of
    [_wrap_latin_text] never meets a blank last line): it returns no line
    exactly for a blank text, never an empty line, and for a non-CJK
    language only lines with a visible character. *)
Theorem wrap_text_for_size_lines (text : pystr) (target_width : Z) (font : FreeTypeFont)
    (language : string) :
  exists lines, wrap_text_for_size text target_width font language = Ok lines
    /\ (lines = [] <-> is_empty (py_strip text) = true)
    /\ Forall (fun l => l <> []) lines
    /\ (_is_cjk_language language = false ->
        Forall (fun l => existsb (fun c => negb (py_isspace c)) l = true) lines).
Proof.
  unfold wrap_text_for_size.
  destruct (is_empty (py_strip text)) eqn:Eb.
  { exists []; split; [reflexivity|]; split; [tauto|]; split; constructor. }
  pose proof (visible_not_blank text Eb) as Vt.
  destruct (_is_cjk_language language) eqn:Ec.
  - exists (_wrap_cjk_text text target_width font language); split; [reflexivity|].
    split; [|split; [apply LayoutProofs.wrap_cjk_loop_nonempty; constructor | discriminate]].
    split; [|discriminate]; intros E.
    pose proof (LayoutProofs.wrap_cjk_loop_concat target_width font language text [] []) as C.
    unfold _wrap_cjk_text in E; rewrite E in C; simpl in C.
    exfalso; apply (visible_nonempty text Vt); symmetry; exact C.
  - destruct (wrap_latin_lines text target_width font language Vt) as (lines & E & Ne & F).
    exists lines; split; [exact E|]; split; [split; [congruence | discriminate]|].
    split; [|intros _; exact F].
    apply Forall_forall; intros l Hl; apply visible_nonempty; rewrite Forall_forall in F; exact (F l Hl).
Qed.

End WrapProofs.

(** ** Font sizing and layout information (font_manager.py) *)
Module FontInfoProofs.
Import Render FontInfo.

Section Search.
Variable truetype : string -> Z -> FreeTypeFont.
Variables (text : pystr) (target_width target_height : Z) (language : string).

(** The line height the search measures with a font. *)
Definition search_line_height (font : FreeTypeFont) : Z :=
  snd (measure_text (if _is_cjk_language language then [27979] else [65]) font language).

Definition search_spacing (line_height : Z) : Z :=
  if _is_cjk_language language then Z.max 8 (Z.quot (line_height * 2) 5)
  else Z.max 5 (Z.quot (line_height * 2) 5).

(** A size the search accepted: its lines fit [target_height]. *)
Definition search_fits (s : Z) : Prop :=
  exists font lines,
    get_font truetype language s = Ok font
    /\ wrap_text_for_size text target_width font language = Ok lines
    /\ Z.of_nat (length lines) * search_line_height font
       + (Z.of_nat (length lines) - 1) * search_spacing (search_line_height font)
       <= target_height.

Lemma size_search_result :
  forall fuel left right best_size s,
    size_search truetype fuel text target_width target_height language left right best_size = Ok s ->
    s = best_size \/ (left <= s <= right /\ search_fits s).
Proof.
  induction fuel as [|fuel IH]; intros left right best_size s E; cbn [size_search] in E.
  - injection E as <-; left; reflexivity.
  - destruct (left <=? right) eqn:Elr; [|injection E as <-; left; reflexivity].
    apply Z.leb_le in Elr.
    assert (left <= (left + right) / 2) by (apply Z.div_le_lower_bound; lia).
    assert ((left + right) / 2 <= right) by (apply Z.div_le_upper_bound; lia).
    destruct (get_font truetype language ((left + right) / 2)) as [font|] eqn:Ef;
      cbn [bind] in E; [|discriminate E].
    destruct (wrap_text_for_size text target_width font language) as [lines|] eqn:Ew;
      cbn [bind] in E; [|discriminate E].
    match type of E with context [if ?t <=? target_height then _ else _] =>
      destruct (t <=? target_height) eqn:Et end.
    + apply IH in E; destruct E as [->|[B F]].
      * right; split; [lia|].
        exists font, lines; split; [exact Ef|]; split; [exact Ew|].
        apply Z.leb_le in Et; exact Et.
      * right; split; [lia | exact F].
    + apply IH in E; destruct E as [->|[B F]]; [left; reflexivity | right; split; [lia | exact F]].
Qed.

End Search.

Lemma quot_spacing_le (lh : Z) :
  Z.max 4 (Z.quot (lh * 3) 10) <= Z.max 5 (Z.quot (lh * 2) 5)
  /\ Z.max 4 (Z.quot (lh * 3) 10) <= Z.max 8 (Z.quot (lh * 2) 5).
Proof.
  assert (Q : Z.quot (lh * 3) 10 <= 4 \/ Z.quot (lh * 3) 10 <= Z.quot (lh * 2) 5).
  { destruct (Z_lt_le_dec lh 0) as [Hn|Hp].
    - left. assert (Z.quot (lh * 3) 10 <= Z.quot 0 10) by (apply Z.quot_le_mono; lia).
      rewrite Z.quot_0_l in H by lia; lia.
    - right. replace (Z.quot (lh * 2) 5) with (Z.quot (2 * (lh * 2)) (2 * 5))
        by (apply Z.quot_mul_cancel_l; lia).
      apply Z.quot_le_mono; lia. }
  lia.
Qed.

Lemma layout_spacing_le (language : string) (lh : Z) :
  (if String.eqb (str_lower language) "korean" then Z.max 4 (Z.quot (lh * 3) 10)
   else if str_in (str_lower language) ["japanese"; "sim_chinese"; "trad_chinese"]%string
   then Z.max 8 (Z.quot (lh * 2) 5)
   else Z.max 4 (Z.quot (lh * 3) 10))
  <= search_spacing language lh.
Proof.
  pose proof (quot_spacing_le lh) as [A B].
  unfold search_spacing, _is_cjk_language.
  destruct (String.eqb _ _); [destruct (str_in _ _); lia|].
  destruct (str_in (str_lower language) ["japanese"; "sim_chinese"; "trad_chinese"]%string) eqn:E3.
  - replace (str_in (str_lower language) ["japanese"; "sim_chinese"; "trad_chinese"; "korean"]%string)
      with true; [lia|].
    unfold str_in in *; cbn [existsb] in *.
    destruct (string_dec _ "japanese"); [reflexivity|].
    destruct (string_dec _ "sim_chinese"); [reflexivity|].
    destruct (string_dec _ "trad_chinese"); [reflexivity|discriminate E3].
  - destruct (str_in (str_lower language) ["japanese"; "sim_chinese"; "trad_chinese"; "korean"]%string); lia.
Qed.

Lemma find_optimal_eq (truetype : string -> Z -> FreeTypeFont) (text : pystr)
    (target_width target_height : Z) (language : string) :
  find_optimal_font_size_multiline truetype text target_width target_height language =
  size_search truetype 25 text target_width target_height language
    (if _is_cjk_language language then Z.max font_size_min 12 else font_size_min)
    font_size_max font_size_min.
Proof. reflexivity. Qed.

Lemma find_optimal_result (truetype : string -> Z -> FreeTypeFont) (text : pystr)
    (target_width target_height : Z) (language : string) (s : Z) :
  find_optimal_font_size_multiline truetype text target_width target_height language = Ok s ->
  s = 6 \/ ((if _is_cjk_language language then 12 else 6) <= s <= 30
            /\ search_fits truetype text target_width target_height language s).
Proof.
  rewrite find_optimal_eq; intros E.
  apply size_search_result in E.
  unfold font_size_min, font_size_max in E.
  destruct (_is_cjk_language language); destruct E as [E|[B F]];
    [left; exact E | right; split; [lia | exact F] | left; exact E | right; split; [lia | exact F]].
Qed.

(** [get_text_layout_info]: the font size lies in [6..30], is [6] or at
    least [12] for a CJK language, and for a non-blank text the lines
    are not empty and, unless the size is the fallback [6], their total
    height fits [target_height]. *)
Theorem get_text_layout_info_fits (truetype : string -> Z -> FreeTypeFont) (text : pystr)
    (target_width target_height : Z) (language : string)
    (font_size total_height : Z) (lines : list pystr) :
  get_text_layout_info truetype text target_width target_height language
    = Ok (font_size, lines, total_height) ->
  6 <= font_size <= 30
  /\ (_is_cjk_language language = true -> font_size = 6 \/ 12 <= font_size)
  /\ (is_empty (py_strip text) = false ->
      lines <> [] /\ (font_size = 6 \/ total_height <= target_height)).
Proof.
  unfold get_text_layout_info; intros E.
  destruct (find_optimal_font_size_multiline truetype text target_width target_height language)
    as [s|] eqn:Es; cbn [bind] in E; [|discriminate E].
  destruct (get_font truetype language s) as [font|] eqn:Ef; cbn [bind] in E; [|discriminate E].
  destruct (wrap_text_for_size text target_width font language) as [ls|] eqn:Ew;
    cbn [bind] in E; [|discriminate E].
  injection E as <- <- <-.
  apply find_optimal_result in Es.
  assert (R : s = 6 \/ (6 <= s <= 30 /\ search_fits truetype text target_width target_height language s)
              /\ (_is_cjk_language language = true -> 12 <= s)).
  { destruct (_is_cjk_language language); destruct Es as [->|[B F]];
      [left; reflexivity | right; split; [split; [lia|exact F] | intros _; lia]
      |left; reflexivity | right; split; [split; [lia|exact F] | discriminate]]. }
  split; [destruct R as [->|[[B _] _]]; lia|].
  split; [intros Hc; destruct R as [->|[_ C]]; [left; reflexivity | right; exact (C Hc)]|].
  intros Hb; split; [exact (WrapProofs.wrap_nonblank_nonempty text target_width font language ls Hb Ew)|].
  destruct R as [->|[[_ (font' & ls' & Ef' & Ew' & T)] _]]; [left; reflexivity|right].
  rewrite Ef in Ef'; injection Ef' as <-; rewrite Ew in Ew'; injection Ew' as <-.
  pose proof (WrapProofs.wrap_nonblank_nonempty text target_width font language ls Hb Ew) as Ne.
  assert (N1 : 1 <= Z.of_nat (length ls)) by (destruct ls; [congruence | cbn [length]; lia]).
  pose proof (layout_spacing_le language (search_line_height language font)) as Sp.
  unfold search_line_height in *.
  unfold str_in in Sp; cbn [existsb] in Sp.
  revert T Sp; generalize (snd (measure_text (if _is_cjk_language language then [27979] else [65])
                                 font language)) as lh; intros lh T Sp.
  revert T Sp; match goal with |- _ -> ?a <= ?b -> _ => generalize a as spL; generalize b as spS end.
  intros spS spL T Sp.
  assert (M : (Z.of_nat (length ls) - 1) * spL <= (Z.of_nat (length ls) - 1) * spS)
    by (apply Z.mul_le_mono_nonneg_l; [apply Z.le_0_sub; exact N1 | exact Sp]).
  eapply Z.le_trans; [apply Z.add_le_mono_l; exact M | exact T].
Qed.

Lemma size_search_no_font (truetype : string -> Z -> FreeTypeFont) (text : pystr)
    (target_width target_height : Z) (language : string) (fuel : nat) (left right best_size : Z) :
  _get_font_path_for_language language = None -> left <= right ->
  size_search truetype (S fuel) text target_width target_height language left right best_size
  = Err ValueError.
Proof.
  intros Hp Hlr; cbn [size_search].
  rewrite (proj2 (Z.leb_le _ _) Hlr).
  unfold get_font; rewrite Hp; reflexivity.
Qed.

Lemma find_optimal_no_font (truetype : string -> Z -> FreeTypeFont) (text : pystr)
    (target_width target_height : Z) (language : string) :
  _get_font_path_for_language language = None ->
  find_optimal_font_size_multiline truetype text target_width target_height language = Err ValueError.
Proof.
  intros Hp; rewrite find_optimal_eq; apply size_search_no_font; [exact Hp|].
  unfold font_size_min, font_size_max; destruct (_is_cjk_language language); lia.
Qed.

(** A language without a font path (neither a key of the font table nor
    one of the language aliases) makes the size search, the layout
    information and [calculate_optimal_font_size] raise [ValueError]
    (the last one raises [AttributeError] first on a blank text); the
    ["default"] font is never used as a fallback. *)
Theorem unknown_language_raises (truetype : string -> Z -> FreeTypeFont) (text : pystr)
    (target_width target_height : Z) (language : string) (bbox : BoundingBox)
    (direction : option TextDirection) :
  _get_font_path_for_language language = None ->
  find_optimal_font_size_multiline truetype text target_width target_height language = Err ValueError
  /\ get_text_layout_info truetype text target_width target_height language = Err ValueError
  /\ calculate_optimal_font_size truetype text bbox language direction
     = if is_empty (py_strip text) then Err AttributeError else Err ValueError.
Proof.
  intros Hp.
  pose proof (find_optimal_no_font truetype text) as F.
  split; [apply F; exact Hp|].
  split; [unfold get_text_layout_info; rewrite (F _ _ _ Hp); reflexivity|].
  unfold calculate_optimal_font_size.
  destruct (is_empty (py_strip text)); [reflexivity|].
  cbv zeta.
  match goal with |- match ?M with _ => _ end = _ => destruct M as [tw th] end.
  rewrite (F _ _ _ Hp); reflexivity.
Qed.

Lemma unknown_language_raises_witness :
  _get_font_path_for_language "klingon"%string = None
  /\ find_optimal_font_size_multiline (fun _ _ => WrapProofs.mono_font) (py "hi") 100 100 "klingon"%string
     = Err ValueError
  /\ get_text_layout_info (fun _ _ => WrapProofs.mono_font) (py "hi") 100 100 "klingon"%string
     = Err ValueError
  /\ calculate_optimal_font_size (fun _ _ => WrapProofs.mono_font) (py "hi") (mkBBox 0 0 100 100)
       "klingon"%string None
     = if is_empty (py_strip (py "hi")) then Err AttributeError else Err ValueError.
Proof.
  assert (H : _get_font_path_for_language "klingon"%string = None) by reflexivity.
  split; [exact H|].
  exact (unknown_language_raises (fun _ _ => WrapProofs.mono_font) (py "hi") 100 100 "klingon"%string
           (mkBBox 0 0 100 100) None H).
Defined.

(** [calculate_optimal_font_size] raises on a blank text; otherwise a
    returned size lies in [6..30], and for a CJK language it is [6] or at
    least [13]: the CJK search starts at [12], so after the [1.1] factor
    no size [7..12] is ever chosen. *)
Theorem calculate_optimal_font_size_range (truetype : string -> Z -> FreeTypeFont) (text : pystr)
    (bbox : BoundingBox) (language : string) (direction : option TextDirection) (s : Z) :
  calculate_optimal_font_size truetype text bbox language direction = Ok s ->
  is_empty (py_strip text) = false /\ 6 <= s <= 30
  /\ (_is_cjk_language language = true -> s = 6 \/ 13 <= s).
Proof.
  unfold calculate_optimal_font_size; intros E.
  destruct (is_empty (py_strip text)); [discriminate E|].
  cbv zeta in E.
  match type of E with match ?M with _ => _ end = _ => destruct M as [tw th] end.
  destruct (find_optimal_font_size_multiline truetype text tw th language) as [o|] eqn:F;
    cbn [bind] in E; [|discriminate E].
  injection E as <-.
  apply find_optimal_result in F.
  unfold font_size_min, font_size_max.
  split; [reflexivity|].
  destruct (_is_cjk_language language); destruct F as [->|[B _]].
  - split; [lia|]; intros _; left; reflexivity.
  - assert (13 <= o * 11 / 10) by (apply Z.div_le_lower_bound; lia).
    split; [lia|]; intros _; right; lia.
  - split; [lia|]; discriminate.
  - split; [lia|]; discriminate.
Qed.

Definition scaled_font (font_path : string) (size : Z) : FreeTypeFont :=
  mkFont (fun s => (0, 0, size * Z.of_nat (length s) / 2, size)) (size, size / 4).
Lemma calculate_optimal_font_size_range_witness :
  calculate_optimal_font_size scaled_font (py "ab") (mkBBox 0 0 20 20) "japanese"%string None = Ok 14
  /\ is_empty (py_strip (py "ab")) = false /\ 6 <= 14 <= 30
  /\ (_is_cjk_language "japanese"%string = true -> 14 = 6 \/ 13 <= 14).
Proof.
  assert (E : calculate_optimal_font_size scaled_font (py "ab") (mkBBox 0 0 20 20) "japanese"%string None
              = Ok 14) by (vm_compute; reflexivity).
  split; [exact E|].
  exact (calculate_optimal_font_size_range scaled_font (py "ab") (mkBBox 0 0 20 20) "japanese"%string
           None 14 E).
Defined.

Lemma get_text_layout_info_fits_witness :
  get_text_layout_info scaled_font (py "hello world foo") 60 50 "english"%string
    = Ok (13, [py "hello"; py "world"; py "foo"], 47)
  /\ 6 <= 13 <= 30
  /\ (_is_cjk_language "english"%string = true -> 13 = 6 \/ 12 <= 13)
  /\ (is_empty (py_strip (py "hello world foo")) = false ->
      [py "hello"; py "world"; py "foo"] <> [] /\ (13 = 6 \/ 47 <= 50)).
Proof.
  assert (E : get_text_layout_info scaled_font (py "hello world foo") 60 50 "english"%string
              = Ok (13, [py "hello"; py "world"; py "foo"], 47)) by (vm_compute; reflexivity).
  split; [exact E|].
  exact (get_text_layout_info_fits scaled_font (py "hello world foo") 60 50 "english"%string
           13 47 [py "hello"; py "world"; py "foo"] E).
Defined.



End FontInfoProofs.

(** ** Positions and overlaps (layout_calculator.py) *)
Module LayoutCalcProofs.
Import Render LayoutCalc.

Lemma boxes_overlap_sym (b1 b2 : BoundingBox) : _boxes_overlap b1 b2 = _boxes_overlap b2 b1.
Proof.
  unfold _boxes_overlap; f_equal.
  destruct (x2 b1 <? x1 b2), (x2 b2 <? x1 b1), (y2 b1 <? y1 b2), (y2 b2 <? y1 b1); reflexivity.
Qed.

(** [_resolve_overlap] either gives up and returns [bbox1], or returns a
    box that no longer overlaps [bbox2]. *)
Theorem resolve_overlap_separates (bbox1 bbox2 : BoundingBox) (image_width image_height : Z) :
  _resolve_overlap bbox1 bbox2 image_width image_height = bbox1
  \/ _boxes_overlap (_resolve_overlap bbox1 bbox2 image_width image_height) bbox2 = false.
Proof.
  destruct bbox1 as [a1 b1 c1 d1], bbox2 as [a2 b2 c2 d2].
  unfold _resolve_overlap; cbn.
  repeat match goal with
         | |- context [if ?c then _ else _] => let E := fresh "E" in destruct c eqn:E
         end;
  first [left; reflexivity | right];
  unfold _boxes_overlap; cbn; apply negb_false_iff;
  rewrite ?orb_true_iff, ?Z.ltb_lt; lia.
Qed.

Lemma adjust_box_disjoint (image_width image_height : Z) :
  forall optimized_boxes tb,
    Forall (fun e => _boxes_overlap (bbox tb) (bbox e) = false) optimized_boxes ->
    adjust_box optimized_boxes tb image_width image_height = tb.
Proof.
  unfold adjust_box.
  induction optimized_boxes as [|e r IH]; intros tb F; [reflexivity|].
  inversion F as [|? ? He Fr]; subst.
  cbn [fold_left]; rewrite He; exact (IH tb Fr).
Qed.

Lemma optimize_fold_disjoint (image_width image_height : Z) :
  forall boxes acc,
    ForallOrdPairs (fun a b => _boxes_overlap (bbox a) (bbox b) = false) boxes ->
    (forall tb, In tb boxes -> Forall (fun e => _boxes_overlap (bbox tb) (bbox e) = false) acc) ->
    fold_left (fun optimized_boxes text_box =>
                 optimized_boxes ++ [adjust_box optimized_boxes text_box image_width image_height])
              boxes acc = acc ++ boxes.
Proof.
  induction boxes as [|tb r IH]; intros acc P A; cbn [fold_left].
  - rewrite app_nil_r; reflexivity.
  - inversion P as [|? ? Ftb Pr]; subst.
    rewrite (adjust_box_disjoint image_width image_height acc tb (A tb (or_introl eq_refl))).
    rewrite IH; [rewrite <- app_assoc; reflexivity | exact Pr |].
    intros tb' Hin; apply Forall_app; split.
    + apply A; right; exact Hin.
    + constructor; [|constructor].
      rewrite boxes_overlap_sym; rewrite Forall_forall in Ftb; exact (Ftb tb' Hin).
Qed.

(** [optimize_text_layout] moves nothing when no two boxes overlap: the
    list comes back unchanged. *)
Theorem optimize_text_layout_disjoint (text_boxes : list TextBox) (image_width image_height : Z) :
  ForallOrdPairs (fun a b => _boxes_overlap (bbox a) (bbox b) = false) text_boxes ->
  optimize_text_layout text_boxes image_width image_height = text_boxes.
Proof.
  intros P; unfold optimize_text_layout.
  destruct (length text_boxes <=? 1)%nat; [reflexivity|].
  rewrite (optimize_fold_disjoint image_width image_height text_boxes [] P); [reflexivity|].
  intros; constructor.
Qed.

Lemma optimize_text_layout_disjoint_witness :
  let boxes := [mkTextBox (py "a") (mkBBox 0 0 10 10) []; mkTextBox (py "b") (mkBBox 20 0 30 10) [];
                mkTextBox (py "c") (mkBBox 0 20 10 30) []] in
  ForallOrdPairs (fun a b => _boxes_overlap (bbox a) (bbox b) = false) boxes
  /\ optimize_text_layout boxes 100 100 = boxes.
Proof.
  cbv zeta.
  assert (P : ForallOrdPairs (fun a b => _boxes_overlap (bbox a) (bbox b) = false)
                [mkTextBox (py "a") (mkBBox 0 0 10 10) []; mkTextBox (py "b") (mkBBox 20 0 30 10) [];
                 mkTextBox (py "c") (mkBBox 0 20 10 30) []]).
  { repeat constructor. }
  split; [exact P | exact (optimize_text_layout_disjoint _ 100 100 P)].
Defined.

Ltac half_facts a :=
  pose proof (Z.div_mod a 2 ltac:(lia)); pose proof (Z.mod_pos_bound a 2 ltac:(lia)).

(** [calculate_text_position]: whatever the direction and the alignment,
    a text whose measured size leaves a margin of 2 inside the box is
    placed entirely inside the box. *)
Theorem calculate_text_position_inside (text : pystr) (bbox : BoundingBox) (font : FreeTypeFont)
    (direction : TextDirection) (alignment language : string) (text_width text_height : Z) :
  measure_text text font language = (text_width, text_height) ->
  0 <= text_width -> text_width + 2 <= width bbox ->
  0 <= text_height -> text_height + 2 <= height bbox ->
  let '(x, y) := calculate_text_position text bbox font direction alignment language in
  x1 bbox <= x /\ x + text_width <= x2 bbox /\ y1 bbox <= y /\ y + text_height <= y2 bbox.
Proof.
  intros M W0 W H0 H; unfold calculate_text_position; rewrite M.
  unfold width, height in *.
  half_facts (x2 bbox - x1 bbox - text_width); half_facts (y2 bbox - y1 bbox - text_height).
  destruct direction; [|destruct (_is_cjk_language language)];
    repeat match goal with |- context [if ?c then _ else _] => destruct c end; lia.
Qed.

Lemma calculate_text_position_inside_witness :
  measure_text (py "hey") WrapProofs.mono_font "english"%string = (30, 12)
  /\ (let '(x, y) := calculate_text_position (py "hey") (mkBBox 0 0 100 40) WrapProofs.mono_font LTR
                       "center"%string "english"%string in
      x1 (mkBBox 0 0 100 40) <= x /\ x + 30 <= x2 (mkBBox 0 0 100 40)
      /\ y1 (mkBBox 0 0 100 40) <= y /\ y + 12 <= y2 (mkBBox 0 0 100 40)).
Proof.
  assert (M : measure_text (py "hey") WrapProofs.mono_font "english"%string = (30, 12))
    by (vm_compute; reflexivity).
  split; [exact M|].
  exact (calculate_text_position_inside (py "hey") (mkBBox 0 0 100 40) WrapProofs.mono_font LTR
           "center"%string "english"%string 30 12 M ltac:(lia) ltac:(vm_compute; discriminate)
           ltac:(lia) ltac:(vm_compute; discriminate)).
Defined.

(** The line height, spacing and total height [calculate_multiline_position]
    computes for horizontal lines. *)
Definition ml_line_height (font : FreeTypeFont) (language : string) : Z :=
  snd (measure_text (py "A") font language).

Definition ml_line_spacing (font : FreeTypeFont) (language : string) : Z :=
  if _is_cjk_language language then Z.max 8 (Z.quot (ml_line_height font language * 2) 5)
  else Z.max 5 (Z.quot (ml_line_height font language * 2) 5).

Definition ml_total_height (lines : list pystr) (font : FreeTypeFont) (language : string) : Z :=
  Z.of_nat (length lines) * ml_line_height font language
  + (Z.of_nat (length lines) - 1) * ml_line_spacing font language.

Lemma in_enumerate_from_bounds {A : Type} : forall (l : list A) k i a,
  In (i, a) (enumerate_from k l) -> (k <= i < k + length l)%nat /\ In a l.
Proof.
  induction l as [|x r IH]; intros k i a H; cbn in H; [contradiction|].
  destruct H as [E|H]; [injection E as <- <-; cbn; split; [lia | left; reflexivity]|].
  apply IH in H; cbn; split; [lia | right; tauto].
Qed.

Lemma enumerate_Forall2 {A B : Type} (R : A -> B -> Prop) (g : nat * A -> B) (n : nat) :
  forall l k, (k + length l <= n)%nat ->
    (forall i a, (i < n)%nat -> R a (g (i, a))) ->
    Forall2 R l (map g (enumerate_from k l)).
Proof.
  induction l as [|x r IH]; intros k Hk HR; cbn; constructor.
  - apply HR; cbn in Hk; lia.
  - apply IH; [cbn in Hk; lia | exact HR].
Qed.

Lemma enumerate_ordpairs {A B : Type} (R : B -> B -> Prop) (g : nat * A -> B) :
  (forall i j a b, (i < j)%nat -> R (g (i, a)) (g (j, b))) ->
  forall l k, ForallOrdPairs R (map g (enumerate_from k l)).
Proof.
  intros HR; induction l as [|x r IH]; intros k; cbn; constructor.
  - apply Forall_forall; intros q Hq; apply in_map_iff in Hq as [[j b] [<- Hj]].
    apply in_enumerate_from_bounds in Hj as [Hj _]; apply HR; lia.
  - apply IH.
Qed.

Lemma ml_rows (y1 h n lh sp i : Z) :
  0 <= lh -> 0 <= sp -> 0 <= i <= n - 1 -> n * lh + (n - 1) * sp <= h ->
  y1 <= y1 + (h - (n * lh + (n - 1) * sp)) / 2 + i * (lh + sp)
  /\ y1 + (h - (n * lh + (n - 1) * sp)) / 2 + i * (lh + sp) + lh <= y1 + h.
Proof.
  intros Hl Hs Hi Ht.
  half_facts (h - (n * lh + (n - 1) * sp)).
  assert (0 <= i * (lh + sp)) by (apply Z.mul_nonneg_nonneg; lia).
  assert (i * (lh + sp) <= (n - 1) * (lh + sp)) by (apply Z.mul_le_mono_nonneg_r; lia).
  assert (n * lh + (n - 1) * sp = (n - 1) * (lh + sp) + lh) by ring.
  lia.
Qed.

Lemma ml_centre (x1 w lw : Z) :
  0 <= lw <= w -> x1 <= x1 + (w - lw) / 2 /\ x1 + (w - lw) / 2 + lw <= x1 + w.
Proof. intros H; half_facts (w - lw); lia. Qed.

Lemma ml_step (s k i j : Z) : 0 <= k -> i < j -> s + i * k + k <= s + j * k.
Proof.
  intros Hk Hij.
  assert ((i + 1) * k <= j * k) by (apply Z.mul_le_mono_nonneg_r; lia).
  assert ((i + 1) * k = i * k + k) by ring.
  lia.
Qed.

(** [calculate_multiline_position] for horizontal lines: one position per
    line; when the lines' total height fits the box, every line lies
    vertically inside the box, a line no wider than the box lies
    horizontally inside it, and each line starts at least a line height
    plus the spacing below the previous ones. *)
Theorem calculate_multiline_position_inside (lines : list pystr) (bbox : BoundingBox)
    (font : FreeTypeFont) (direction : TextDirection) (language : string) :
  (direction = LTR \/ _is_cjk_language language = false) ->
  0 <= ml_line_height font language ->
  ml_total_height lines font language <= height bbox ->
  let out := calculate_multiline_position lines bbox font direction language in
  Forall2 (fun line '(x, y) =>
             y1 bbox <= y /\ y + ml_line_height font language <= y2 bbox
             /\ (0 <= fst (measure_text line font language) <= width bbox ->
                 x1 bbox <= x /\ x + fst (measure_text line font language) <= x2 bbox))
          lines out
  /\ ForallOrdPairs (fun p q => snd p + ml_line_height font language + ml_line_spacing font language
                                <= snd q) out.
Proof.
  intros Hd Hl Ht; cbv zeta.
  unfold calculate_multiline_position.
  destruct lines as [|l0 ls]; [split; constructor|].
  cbn [is_empty].
  assert (Hs : 5 <= ml_line_spacing font language)
    by (unfold ml_line_spacing; destruct (_is_cjk_language language); lia).
  unfold ml_total_height, ml_line_spacing, ml_line_height in *.
  remember (l0 :: ls) as lines eqn:El.
  assert (Hgo : forall g : nat * pystr -> Z * Z,
    g = (fun '(i, line) =>
           (x1 bbox + (width bbox - fst (measure_text line font language)) / 2,
            y1 bbox + (height bbox - (Z.of_nat (length lines) * snd (measure_text (py "A") font language)
              + (Z.of_nat (length lines) - 1)
                * (if _is_cjk_language language
                   then Z.max 8 (Z.quot (snd (measure_text (py "A") font language) * 2) 5)
                   else Z.max 5 (Z.quot (snd (measure_text (py "A") font language) * 2) 5)))) / 2
            + Z.of_nat i * (snd (measure_text (py "A") font language)
                + (if _is_cjk_language language
                   then Z.max 8 (Z.quot (snd (measure_text (py "A") font language) * 2) 5)
                   else Z.max 5 (Z.quot (snd (measure_text (py "A") font language) * 2) 5))))) ->
    Forall2 (fun line '(x, y) =>
             y1 bbox <= y /\ y + snd (measure_text (py "A") font language) <= y2 bbox
             /\ (0 <= fst (measure_text line font language) <= width bbox ->
                 x1 bbox <= x /\ x + fst (measure_text line font language) <= x2 bbox))
          lines (map g (enumerate lines))
    /\ ForallOrdPairs (fun p q => snd p + snd (measure_text (py "A") font language)
                   + (if _is_cjk_language language
                      then Z.max 8 (Z.quot (snd (measure_text (py "A") font language) * 2) 5)
                      else Z.max 5 (Z.quot (snd (measure_text (py "A") font language) * 2) 5))
                   <= snd q) (map g (enumerate lines))).
  { intros g ->.
    revert Hl Ht Hs; generalize (snd (measure_text (py "A") font language)) as lh; intros lh Hl Ht Hs.
    revert Ht Hs; generalize (if _is_cjk_language language then Z.max 8 (Z.quot (lh * 2) 5)
                              else Z.max 5 (Z.quot (lh * 2) 5)) as sp; intros sp Ht Hs.
    split.
    - apply (enumerate_Forall2 _ _ (length lines)); [lia|].
      intros i line Hi; cbn beta iota.
      pose proof (ml_rows (y1 bbox) (height bbox) (Z.of_nat (length lines)) lh sp (Z.of_nat i)
                    Hl ltac:(lia) ltac:(lia) Ht) as [R1 R2].
      assert (y1 bbox + height bbox = y2 bbox) by (unfold height; ring).
      split; [exact R1|]; split; [lia|].
      intros Hw; pose proof (ml_centre (x1 bbox) (width bbox) (fst (measure_text line font language)) Hw)
        as [C1 C2].
      assert (x1 bbox + width bbox = x2 bbox) by (unfold width; ring).
      split; [exact C1 | lia].
    - apply enumerate_ordpairs; intros i j a b Hij; cbn [snd].
      pose proof (ml_step (y1 bbox + (height bbox - (Z.of_nat (length lines) * lh
                   + (Z.of_nat (length lines) - 1) * sp)) / 2) (lh + sp) (Z.of_nat i) (Z.of_nat j)
                   ltac:(lia) ltac:(lia)) as S.
      lia. }
  destruct direction, (_is_cjk_language language) eqn:Ec;
    [exact (Hgo _ eq_refl) | exact (Hgo _ eq_refl) | destruct Hd; discriminate | exact (Hgo _ eq_refl)].
Qed.

Lemma calculate_multiline_position_inside_witness :
  (LTR = LTR \/ _is_cjk_language "english"%string = false)
  /\ 0 <= ml_line_height WrapProofs.mono_font "english"%string
  /\ ml_total_height [py "ab"; py "cd"] WrapProofs.mono_font "english"%string
     <= height (mkBBox 0 0 100 100)
  /\ (let out := calculate_multiline_position [py "ab"; py "cd"] (mkBBox 0 0 100 100)
                   WrapProofs.mono_font LTR "english"%string in
      Forall2 (fun line '(x, y) =>
                 y1 (mkBBox 0 0 100 100) <= y
                 /\ y + ml_line_height WrapProofs.mono_font "english"%string <= y2 (mkBBox 0 0 100 100)
                 /\ (0 <= fst (measure_text line WrapProofs.mono_font "english"%string)
                       <= width (mkBBox 0 0 100 100) ->
                     x1 (mkBBox 0 0 100 100) <= x
                     /\ x + fst (measure_text line WrapProofs.mono_font "english"%string)
                        <= x2 (mkBBox 0 0 100 100)))
              [py "ab"; py "cd"] out
      /\ ForallOrdPairs (fun p q => snd p + ml_line_height WrapProofs.mono_font "english"%string
                                    + ml_line_spacing WrapProofs.mono_font "english"%string
                                    <= snd q) out).
Proof.
  assert (Hd : LTR = LTR \/ _is_cjk_language "english"%string = false) by (left; reflexivity).
  assert (Hl : 0 <= ml_line_height WrapProofs.mono_font "english"%string)
    by (vm_compute; discriminate).
  assert (Ht : ml_total_height [py "ab"; py "cd"] WrapProofs.mono_font "english"%string
               <= height (mkBBox 0 0 100 100)) by (vm_compute; discriminate).
  split; [exact Hd|]; split; [exact Hl|]; split; [exact Ht|].
  exact (calculate_multiline_position_inside [py "ab"; py "cd"] (mkBBox 0 0 100 100)
           WrapProofs.mono_font LTR "english"%string Hd Hl Ht).
Defined.

Lemma filter_all_false {B : Type} (p : B -> bool) :
  forall l, (forall x, In x l -> p x = false) -> filter p l = [].
Proof.
  induction l as [|x r IH]; intros H; [reflexivity|]; cbn.
  rewrite (H x (or_introl eq_refl)); apply IH; intros y Hy; apply H; right; exact Hy.
Qed.

Lemma filter_enumerate_prefix {A B : Type} (p : B -> bool) (g : nat * A -> B) :
  (forall i j a b, (i <= j)%nat -> p (g (j, b)) = true -> p (g (i, a)) = true) ->
  forall l k, exists n, filter p (map g (enumerate_from k l)) = map g (firstn n (enumerate_from k l)).
Proof.
  intros Hp; induction l as [|x r IH]; intros k; [exists O; reflexivity|].
  cbn [enumerate_from map filter].
  destruct (p (g (k, x))) eqn:E.
  - destruct (IH (S k)) as [n En]; exists (S n); rewrite En; reflexivity.
  - exists O; cbn; apply filter_all_false; intros q Hq.
    apply in_map_iff in Hq as [[j b] [<- Hj]]; apply in_enumerate_from_bounds in Hj as [Hj _].
    destruct (p (g (j, b))) eqn:F; [|reflexivity].
    rewrite (Hp k j x b ltac:(lia) F) in E; discriminate E.
Qed.

Lemma map_snd_enumerate_from {A : Type} : forall (l : list A) k, map snd (enumerate_from k l) = l.
Proof. induction l as [|x r IH]; intros k; cbn; [reflexivity | rewrite IH; reflexivity]. Qed.

Lemma concat_chunks (c : nat) (Hc : (1 <= c)%nat) :
  forall m (t : pystr), (length t <= m * c)%nat ->
    concat (map (fun j => firstn c (skipn (j * c) t)) (seq 0 m)) = t.
Proof.
  induction m as [|m IH]; intros t Ht.
  - destruct t; [reflexivity | cbn in Ht; lia].
  - cbn [seq map concat]; rewrite <- seq_shift, map_map.
    rewrite (map_ext (fun x => firstn c (skipn (S x * c) t))
                     (fun x => firstn c (skipn (x * c) (skipn c t)))).
    + rewrite IH; [cbn [Nat.mul skipn]; apply firstn_skipn|].
      rewrite length_skipn; cbn [Nat.mul] in Ht; lia.
    + intros x; rewrite skipn_skipn; f_equal; f_equal; lia.
Qed.

(** [calculate_vertical_text_layout] for a CJK language, a non-negative
    glyph width and a box at least 8 wide: the columns it returns are, in
    order, a prefix of the text cut into pieces of at most
    [chars_per_column] characters, placed inside the box from its right
    edge, all at [y1 + 4]; it returns at all only when the glyph height
    is not 0. *)
Theorem calculate_vertical_text_layout_columns (text : pystr) (bbox : BoundingBox)
    (font : FreeTypeFont) (language : string) (char_width char_height : Z)
    (out : list (pystr * Z * Z)) :
  _is_cjk_language language = true ->
  measure_text [27979] font language = (char_width, char_height) ->
  0 <= char_width -> 8 <= width bbox ->
  calculate_vertical_text_layout text bbox font language = Some out ->
  char_height <> 0
  /\ (exists rest, concat (map (fun '(c, _, _) => c) out) ++ rest = text)
  /\ Forall (fun '(c, x, y) =>
               (length c <= Z.to_nat (Z.max 1 ((height bbox - 8) / char_height)))%nat
               /\ x1 bbox <= x <= x2 bbox - 4 - char_width /\ y = y1 bbox + 4) out.
Proof.
  intros Hc M Hw Hb E.
  unfold calculate_vertical_text_layout in E; rewrite Hc in E; cbn [negb] in E; rewrite M in E.
  cbv beta iota zeta in E.
  destruct (char_height =? 0) eqn:E0; [discriminate E|].
  injection E as <-.
  split; [apply Z.eqb_neq; exact E0|].
  set (cpc := Z.to_nat (Z.max 1 ((height bbox - 8) / char_height))).
  assert (Hcpc : (1 <= cpc)%nat) by (unfold cpc; lia).
  set (columns := map (fun j => firstn cpc (skipn (j * cpc) text))
                      (seq 0 ((length text + cpc - 1) / cpc))).
  set (sp := if (1 <? length columns)%nat
             then Z.min (char_width + 10) ((width bbox - 8) / Z.of_nat (length columns))
             else char_width).
  assert (Hsp : 0 <= sp).
  { unfold sp; destruct (1 <? length columns)%nat eqn:L; [|exact Hw].
    apply Nat.ltb_lt in L.
    assert (0 <= (width bbox - 8) / Z.of_nat (length columns)) by (apply Z.div_pos; lia).
    lia. }
  set (g := fun p : nat * pystr =>
              let '(col_idx, column_text) := p in
              (column_text, x2 bbox - 4 - char_width - Z.of_nat col_idx * sp, y1 bbox + 4)
              : pystr * Z * Z).
  change (map _ (enumerate columns)) with (map g (enumerate columns)).
  split.
  - unfold enumerate.
    match goal with |- context [filter ?p (map g (enumerate_from 0 columns))] =>
      destruct (filter_enumerate_prefix p g) with (l := columns) (k := O) as [n En] end.
    { intros i j a b Hij; cbn; rewrite !Z.leb_le; intros H.
      assert (Z.of_nat i * sp <= Z.of_nat j * sp) by (apply Z.mul_le_mono_nonneg_r; lia).
      lia. }
    unfold pystr in *. rewrite En.
    exists (concat (skipn n columns)).
    rewrite map_map.
    rewrite (map_ext _ snd) by (intros [i c]; reflexivity).
    rewrite <- firstn_map, map_snd_enumerate_from, <- concat_app, firstn_skipn.
    apply concat_chunks; [exact Hcpc|].
    pose proof (Nat.div_mod (length text + cpc - 1) cpc ltac:(lia)).
    pose proof (Nat.mod_upper_bound (length text + cpc - 1) cpc ltac:(lia)).
    nia.
  - apply Forall_forall; intros [[c x] y] Hin.
    apply filter_In in Hin as [Hin Hp]; apply Z.leb_le in Hp.
    apply in_map_iff in Hin as [[i col] [Eg Hi]].
    apply in_enumerate_from_bounds in Hi as [_ Hcol].
    unfold g in Eg; injection Eg as <- <- <-.
    apply in_map_iff in Hcol as [j [<- _]].
    rewrite length_firstn.
    assert (0 <= Z.of_nat i * sp) by (apply Z.mul_nonneg_nonneg; lia).
    split; [lia|]; split; [lia | reflexivity].
Qed.

Lemma calculate_vertical_text_layout_columns_witness :
  let text := [27979; 27979; 27979; 27979; 27979] in
  let bbox := mkBBox 0 0 40 40 in
  let out := [([27979; 27979], 26, 4); ([27979; 27979], 16, 4); ([27979], 6, 4)] in
  _is_cjk_language "japanese"%string = true
  /\ measure_text [27979] WrapProofs.mono_font "japanese"%string = (10, 12)
  /\ 0 <= 10 /\ 8 <= width bbox
  /\ calculate_vertical_text_layout text bbox WrapProofs.mono_font "japanese"%string = Some out
  /\ (12 <> 0
      /\ (exists rest, concat (map (fun '(c, _, _) => c) out) ++ rest = text)
      /\ Forall (fun '(c, x, y) =>
                   (length c <= Z.to_nat (Z.max 1 ((height bbox - 8) / 12)))%nat
                   /\ x1 bbox <= x <= x2 bbox - 4 - 10 /\ y = y1 bbox + 4) out).
Proof.
  cbv zeta.
  assert (Hc : _is_cjk_language "japanese"%string = true) by reflexivity.
  assert (M : measure_text [27979] WrapProofs.mono_font "japanese"%string = (10, 12))
    by (vm_compute; reflexivity).
  assert (Hb : 8 <= width (mkBBox 0 0 40 40)) by (vm_compute; discriminate).
  assert (E : calculate_vertical_text_layout [27979; 27979; 27979; 27979; 27979] (mkBBox 0 0 40 40)
                WrapProofs.mono_font "japanese"%string
              = Some [([27979; 27979], 26, 4); ([27979; 27979], 16, 4); ([27979], 6, 4)])
    by (vm_compute; reflexivity).
  split; [exact Hc|]; split; [exact M|]; split; [lia|]; split; [exact Hb|]; split; [exact E|].
  exact (calculate_vertical_text_layout_columns _ _ _ _ 10 12 _ Hc M ltac:(lia) Hb E).
Defined.

End LayoutCalcProofs.

(** ** Distributing a provider's answer (orchestrator.py) *)
Module DistributeProofs.
Import Orchestrator OrchestratorProofs.

Lemma in_enumerate_exists {A : Type} (l : list A) (x : A) :
  In x l -> exists i, In (i, x) (enumerate l).
Proof.
  intros H; apply In_nth_error in H as [i Hi].
  exists i; exact (nth_in_enumerate_from 0 l i x Hi).
Qed.

(** [_distribute_translated_text] on any provider answer: it does not
    raise, keeps the number of boxes, and gives every box either its own
    text or a non-empty translation, never an empty one; a [None] answer
    raises ([AttributeError] in the fallback). *)
Theorem distribute_translated_text_total (store : list TextBox) (tc : pystr) :
  distribute_translated_text store None = Err AttributeError
  /\ exists store', distribute_translated_text store (Some tc) = Ok store'
     /\ length store' = length store
     /\ forall r b, nth_error store r = Some b ->
          exists t, nth_error store' r = Some (set_translated_text b t) /\ (t = text b \/ t <> []).
Proof.
  split; [reflexivity|].
  eexists; split; [unfold distribute_translated_text; reflexivity|].
  set (tr := translations_dict (findall tc)).
  pose (upd := fun i tb =>
                 match tr (Z.of_nat i) with
                 | Some t => if is_empty t then set_translated_text tb (text tb)
                             else set_translated_text tb t
                 | None => set_translated_text tb (text tb)
                 end).
  match goal with
  | |- context [fold_left ?stp (enumerate _) store] =>
      assert (Hstep : forall st i r b, stp st (i, (r, b)) = modify_at st r (upd i))
  end.
  { intros st i r b; simpl; unfold upd.
    destruct (tr (Z.of_nat i)) as [t|]; [destruct (is_empty t)|]; reflexivity. }
  split; [apply (fold_modify_length _ upd Hstep)|].
  intros r b Hr.
  assert (Hin : In (r, b) (sort_text_boxes_reading_order store)).
  { apply (Permutation_in _ (Permutation_sym (sort_perm store))).
    exact (nth_in_enumerate_from 0 store r b Hr). }
  destruct (in_enumerate_exists _ _ Hin) as [i Hi].
  rewrite (fold_modify_at _ upd Hstep _ _ i r b b); [| | exact Hi | exact Hr].
  - unfold upd.
    destruct (tr (Z.of_nat i)) as [t|]; [destruct (is_empty t) eqn:Et|].
    + eexists; split; [reflexivity | left; reflexivity].
    + eexists; split; [reflexivity | right; intros ->; discriminate Et].
    + eexists; split; [reflexivity | left; reflexivity].
  - rewrite <- map_map; unfold enumerate; rewrite MergeProofs.enumerate_from_snd.
    apply sorted_ref_nodup.
Qed.

End DistributeProofs.

(** ** Font path lookup (font_manager.py) *)
Module FontPathProofs.
Import Render.

Lemma lang_families_have_fonts (k v : string) :
  In (k, v) lang_families -> exists p, Translate.assoc_str v font_paths = Some p.
Proof.
  intros H; cbn in H.
  repeat (destruct H as [H|H]; [injection H as <- <-; eexists; reflexivity|]).
  destruct H.
Qed.

(** [_get_font_path_for_language] finds a path exactly when the language
    is, as written, a key of the font table, or its lower-cased form is
    one of the aliases ("ja", "zh-tw", "ko", "en", ...).  Font-table keys
    are matched case-sensitively, so ["Japanese"] finds no font. *)
Theorem font_path_lookup (language : string) :
  (exists p, _get_font_path_for_language language = Some p)
  <-> In language (map fst font_paths) \/ In (str_lower language) (map fst lang_families).
Proof.
  unfold _get_font_path_for_language.
  destruct (Translate.assoc_str language font_paths) as [p|] eqn:E1.
  { split; [intros _; left | intros _; exists p; reflexivity].
    apply TranslateBaseProofs.assoc_str_in in E1; exact (in_map fst _ _ E1). }
  destruct (Translate.assoc_str (str_lower language) lang_families) as [fam|] eqn:E2.
  { apply TranslateBaseProofs.assoc_str_in in E2.
    split; [intros _; right; exact (in_map fst _ _ E2)|].
    intros _; exact (lang_families_have_fonts _ _ E2). }
  split; [intros [p Hp]; discriminate Hp|].
  intros [H|H]; apply TranslateBaseProofs.str_in_iff, TranslateBaseProofs.assoc_str_key in H as [v Hv];
    congruence.
Qed.

End FontPathProofs.
